(** * NutriAI (src/main.py): prompt construction, JSON extraction and export

    A shallow embedding of the parts of [src/main.py] that the specification
    talks about:
    - [create_prompt_template] together with the formatting done in [main];
    - [extract_and_parse_json] and the three regular-expression rewrites it
      applies before handing the text to Python's [json.loads];
    - the JSON export of [display_plan] ([json.dumps(plan, indent=2)]).

    Texts are lists of ASCII characters (the raw model output is taken to be
    ASCII); the code points of decoded JSON strings are integers, as Python's
    [str] holds code points.  [json.loads] is embedded after CPython's
    [_json] scanner. *)

From Stdlib Require Import List Ascii String ZArith Lia Bool Sorting.Sorted.
Import ListNotations.
Open Scope Z_scope.
Set Warnings "-register-all".

(** ** Characters and texts *)

Definition text := list ascii.

Definition code (c : ascii) : nat := nat_of_ascii c.

Definition dquote : ascii := "034".
Definition bslash : ascii := "092".
Definition backtick : ascii := "096".

(** [\s] in a [str] pattern, and the characters [str.strip()] removes:
    on ASCII, [\t \n \v \f \r], the separators [\x1c]..[\x1f] and space. *)
Definition is_space (c : ascii) : bool :=
  let n := code c in
  ((9 <=? n)%nat && (n <=? 13)%nat) || ((28 <=? n)%nat && (n <=? 32)%nat).

(** JSON whitespace, the only whitespace [json.loads] skips. *)
Definition is_json_ws (c : ascii) : bool :=
  (c =? " ")%char || (c =? "009")%char || (c =? "010")%char || (c =? "013")%char.

Definition is_digit (c : ascii) : bool :=
  let n := code c in (48 <=? n)%nat && (n <=? 57)%nat.

Definition digit_val (c : ascii) : Z := Z.of_nat (code c) - 48.

(** Python string literals of the development are written with a stand-in
    for the double quote, which [dq] turns into the real character. *)
Definition swap_char (a b : ascii) (c : ascii) : ascii :=
  if (c =? a)%char then b else c.

Definition dq (s : string) : text :=
  map (swap_char "'" dquote) (list_ascii_of_string s).

Definition txt (s : string) : text := list_ascii_of_string s.

Fixpoint strip_prefix (p s : text) : option text :=
  match p with
  | [] => Some s
  | a :: p' =>
      match s with
      | b :: s' => if (a =? b)%char then strip_prefix p' s' else None
      | [] => None
      end
  end.

Fixpoint span_space (s : text) : text * text :=
  match s with
  | c :: t => if is_space c then let (w, r) := span_space t in (c :: w, r)
              else ([], s)
  | [] => ([], [])
  end.

(** ** Regular-expression steps of [extract_and_parse_json] *)

(** [re.search(r'({[\s\S]*})', raw_output)].  The leftmost match begins at
    the first ['{']; the greedy [[\s\S]*] then backtracks to the last ['}']
    of the text.  When no ['}'] follows the first ['{'], no later ['{'] has
    one either, and the search fails. *)
Fixpoint split_first (c : ascii) (s : text) : option (text * text) :=
  match s with
  | [] => None
  | x :: t =>
      if (x =? c)%char then Some ([], t)
      else match split_first c t with
           | Some (a, b) => Some (x :: a, b)
           | None => None
           end
  end.

Definition search_brace_group (s : text) : option text :=
  match split_first "{" s with
  | None => None
  | Some (_, post) =>
      match split_first "}" (rev post) with
      | None => None
      | Some (_, mid_rev) => Some ("{"%char :: rev mid_rev ++ ["}"%char])
      end
  end.

(** [re.sub(pattern, repl, s)] for a pattern that never matches the empty
    string: [m] tries the pattern at the head of the text and returns the
    replacement and the text after the match.  The scan goes left to right
    over non-overlapping matches.  The fuel [length s] is never exhausted
    (see [re_sub_go_enough]). *)
Fixpoint re_sub_go (fuel : nat) (m : text -> option (text * text)) (s : text)
  : text :=
  match fuel with
  | O => s
  | S f =>
      match s with
      | [] => []
      | c :: t =>
          match m s with
          | Some (r, rest) => r ++ re_sub_go f m rest
          | None => c :: re_sub_go f m t
          end
      end
  end.

Definition re_sub (m : text -> option (text * text)) (s : text) : text :=
  re_sub_go (List.length s) m s.

Definition ticks : text := [backtick; backtick; backtick].

(** [r'```(?:json)?\s*|\s*```'] with the empty replacement.  The first
    alternative is tried first; [(?:json)?] and [\s*] are greedy and the
    rest of the pattern always succeeds, so no backtracking is needed.  In
    the second one a shorter [\s*] would leave a space before the ticks. *)
Definition fence_alt1 (s : text) : option (text * text) :=
  match strip_prefix ticks s with
  | None => None
  | Some t =>
      let t' := match strip_prefix (txt "json") t with
                | Some u => u
                | None => t
                end in
      Some ([], snd (span_space t'))
  end.

Definition fence_alt2 (s : text) : option (text * text) :=
  let (w, r) := span_space s in
  match strip_prefix ticks r with
  | Some u => Some ([], u)
  | None => None
  end.

Definition fence_match (s : text) : option (text * text) :=
  match fence_alt1 s with
  | Some x => Some x
  | None => fence_alt2 s
  end.

(** [str.strip()]. *)
Definition drop_space (s : text) : text := snd (span_space s).

Definition strip (s : text) : text := rev (drop_space (rev (drop_space s))).

(** [re.sub(r',(\s*[}\]])', r'\1', s)]: a comma, then the greedy [\s*],
    then a closer; the replacement keeps the group (spaces and closer). *)
Definition is_closer (c : ascii) : bool := (c =? "}")%char || (c =? "]")%char.

Definition comma_match (s : text) : option (text * text) :=
  match s with
  | c :: t =>
      if (c =? ",")%char then
        let (w, r) := span_space t in
        match r with
        | d :: r' => if is_closer d then Some (w ++ [d], r') else None
        | [] => None
        end
      else None
  | [] => None
  end.

(** ** Python values produced by [json.loads] *)

(** A Python [float] is modelled by the decimal its [repr] prints,
    [FDec m e] standing for [m * 10^e] with [m] free of trailing zeros
    ([FDec 0 0] for zero).  The rounding of long literals to binary64 is
    not modelled; the sign of a zero is not kept. *)
Inductive pyfloat : Type :=
| FDec (m e : Z)
| FInf
| FNegInf
| FNaN.

(** A Python [str] is its list of code points; a [dict] is the list of its
    items in insertion order. *)
Definition pystr := list Z.

Inductive json : Type :=
| JNull                                   (* None *)
| JBool (b : bool)                        (* True / False *)
| JInt (z : Z)                            (* int *)
| JFloat (f : pyfloat)                    (* float *)
| JStr (s : pystr)                        (* str *)
| JArr (l : list json)                    (* list *)
| JObj (l : list (pystr * json)).         (* dict *)

Definition py_None : json := JNull.

(** [d[k] = v] on a dict: an existing key keeps its place, a new one goes
    last. *)
Fixpoint dict_set (d : list (pystr * json)) (k : pystr) (v : json)
  : list (pystr * json) :=
  match d with
  | [] => [(k, v)]
  | (k', v') :: d' =>
      if list_eq_dec Z.eq_dec k k' then (k, v) :: d'
      else (k', v') :: dict_set d' k v
  end.

(** ** [json.loads] *)

Inductive exn : Type :=
| JSONDecodeError
| RecursionError.

Inductive res (A : Type) : Type :=
| Ok (a : A)
| Raise (e : exn).
Arguments Ok {A} a.
Arguments Raise {A} e.

Fixpoint skip_ws (s : text) : text :=
  match s with
  | c :: t => if is_json_ws c then skip_ws t else s
  | [] => []
  end.

Definition hex_val (c : ascii) : option Z :=
  let n := code c in
  if ((48 <=? n) && (n <=? 57))%nat then Some (Z.of_nat n - 48)
  else if ((97 <=? n) && (n <=? 102))%nat then Some (Z.of_nat n - 87)
  else if ((65 <=? n) && (n <=? 70))%nat then Some (Z.of_nat n - 55)
  else None.

Definition hex4 (a b c d : ascii) : option Z :=
  match hex_val a, hex_val b, hex_val c, hex_val d with
  | Some x, Some y, Some z, Some w => Some (((x * 16 + y) * 16 + z) * 16 + w)
  | _, _, _, _ => None
  end.

Definition is_high_surrogate (u : Z) : bool := (55296 <=? u) && (u <=? 56319).
Definition is_low_surrogate (u : Z) : bool := (56320 <=? u) && (u <=? 57343).

Definition join_surrogates (hi lo : Z) : Z :=
  65536 + (hi - 55296) * 1024 + (lo - 56320).

(** The one-character escapes: quote, backslash, slash, [b f n r t]. *)
Definition simple_escape (e : ascii) : option Z :=
  if (e =? dquote)%char then Some 34
  else if (e =? bslash)%char then Some 92
  else if (e =? "/")%char then Some 47
  else if (e =? "b")%char then Some 8
  else if (e =? "f")%char then Some 12
  else if (e =? "n")%char then Some 10
  else if (e =? "r")%char then Some 13
  else if (e =? "t")%char then Some 9
  else None.

Definition cons_str (u : Z) (r : option (pystr * text)) : option (pystr * text) :=
  match r with
  | Some (cs, rest) => Some (u :: cs, rest)
  | None => None
  end.

(** [scanstring_unicode] (strict mode), started after the opening quote.
    [None] is a [JSONDecodeError]: unterminated string, control character,
    bad escape.  A high surrogate escape followed by [\uXXXX] with at least
    one more character after it is joined with it when that is a low
    surrogate. *)
Fixpoint scanstring (s : text) : option (pystr * text) :=
  match s with
  | [] => None
  | c :: t =>
      if (c =? dquote)%char then Some ([], t)
      else if (c =? bslash)%char then
        match t with
        | [] => None
        | e :: t' =>
            if (e =? "u")%char then
              match t' with
              | h1 :: h2 :: h3 :: h4 :: t'' =>
                  match hex4 h1 h2 h3 h4 with
                  | None => None
                  | Some u =>
                      if is_high_surrogate u then
                        match t'' with
                        | b :: x :: g1 :: g2 :: g3 :: g4 :: (_ :: _) as t3 =>
                            if (b =? bslash)%char && (x =? "u")%char then
                              match hex4 g1 g2 g3 g4 with
                              | None => None
                              | Some u2 =>
                                  if is_low_surrogate u2
                                  then cons_str (join_surrogates u u2) (scanstring t3)
                                  else cons_str u (scanstring t'')
                              end
                            else cons_str u (scanstring t'')
                        | _ => cons_str u (scanstring t'')
                        end
                      else cons_str u (scanstring t'')
                  end
              | _ => None
              end
            else match simple_escape e with
                 | Some u => cons_str u (scanstring t')
                 | None => None
                 end
        end
      else if (code c <? 32)%nat then None
      else cons_str (Z.of_nat (code c)) (scanstring t)
  end.

Fixpoint span_digits (s : text) : text * text :=
  match s with
  | c :: t => if is_digit c then let (ds, r) := span_digits t in (c :: ds, r)
              else ([], s)
  | [] => ([], [])
  end.

Definition digits_value (ds : text) : Z :=
  fold_left (fun acc c => acc * 10 + digit_val c) ds 0.

(** Removing the trailing zeros of a decimal mantissa. *)
Fixpoint norm_dec (fuel : nat) (m e : Z) : Z * Z :=
  match fuel with
  | O => (m, e)
  | S f => if (m =? 0) then (0, 0)
           else if (m mod 10 =? 0) then norm_dec f (m / 10) (e + 1)
           else (m, e)
  end.

Definition mk_float (m e : Z) (fuel : nat) : pyfloat :=
  let (m', e') := norm_dec fuel m e in FDec m' e'.

(** [_match_number_unicode]: [-?(0|[1-9][0-9]* )(\.[0-9]+)?([eE][-+]?[0-9]+)?];
    an [int] when neither the fraction nor the exponent is present, a
    [float] otherwise.  The four groups of the pattern are matched by
    [num_sign], [int_part], [frac_part] and [exp_part]. *)
Definition num_sign (s : text) : bool * text :=
  match s with
  | c :: t => if (c =? "-")%char then (true, t) else (false, s)
  | [] => (false, s)
  end.

Definition int_part (s1 : text) : option (text * text) :=
  match s1 with
  | c :: t =>
      if (c =? "0")%char then Some ([c], t)
      else if is_digit c then let (ds, r) := span_digits t in Some (c :: ds, r)
      else None
  | [] => None
  end.

Definition frac_part (r1 : text) : option text * text :=
  match r1 with
  | p :: d :: t =>
      if (p =? ".")%char && is_digit d
      then let (fs, r) := span_digits t in (Some (d :: fs), r)
      else (None, r1)
  | _ => (None, r1)
  end.

Definition exp_part (r2 : text) : option Z * text :=
  match r2 with
  | e :: t =>
      if (e =? "e")%char || (e =? "E")%char then
        let '(sg, t1) := match t with
                         | x :: t' => if (x =? "-")%char then (-1, t')
                                      else if (x =? "+")%char then (1, t')
                                      else (1, t)
                         | [] => (1, t)
                         end in
        match span_digits t1 with
        | ([], _) => (None, r2)
        | (es, r) => (Some (sg * digits_value es), r)
        end
      else (None, r2)
  | [] => (None, r2)
  end.

Definition match_number (s : text) : option (json * text) :=
  let '(neg, s1) := num_sign s in
  match int_part s1 with
  | None => None
  | Some (ids, r1) =>
      let '(fds, r2) := frac_part r1 in
      let '(ex, r3) := exp_part r2 in
      let sign := if neg then -1 else 1 in
      match fds, ex with
      | None, None => Some (JInt (sign * digits_value ids), r3)
      | _, _ =>
          let fs := match fds with Some f => f | None => [] end in
          let ex0 := match ex with Some x => x | None => 0 end in
          Some (JFloat (mk_float (sign * digits_value (ids ++ fs))
                                 (ex0 - Z.of_nat (List.length fs))
                                 (List.length (ids ++ fs))), r3)
      end
  end.

(** [scan_once_unicode], [_parse_object_unicode] and [_parse_array_unicode].
    The fuel bounds the nesting of the calls, standing for the interpreter's
    recursion limit ([RecursionError]); [loads] gives more fuel than the
    text has characters, which is never exhausted. *)
Fixpoint scan_once (n : nat) (s : text) {struct n} : res (json * text) :=
  match n with
  | O => Raise RecursionError
  | S n' =>
      match s with
      | [] => Raise JSONDecodeError
      | c :: t =>
          if (c =? dquote)%char then
            match scanstring t with
            | Some (cs, r) => Ok (JStr cs, r)
            | None => Raise JSONDecodeError
            end
          else if (c =? "{")%char then
            match skip_ws t with
            | d :: r => if (d =? "}")%char then Ok (JObj [], r)
                        else parse_members n' [] (d :: r)
            | [] => Raise JSONDecodeError
            end
          else if (c =? "[")%char then
            match skip_ws t with
            | d :: r => if (d =? "]")%char then Ok (JArr [], r)
                        else parse_elements n' [] (d :: r)
            | [] => Raise JSONDecodeError
            end
          else
            match strip_prefix (txt "null") s with
            | Some r => Ok (JNull, r)
            | None =>
            match strip_prefix (txt "true") s with
            | Some r => Ok (JBool true, r)
            | None =>
            match strip_prefix (txt "false") s with
            | Some r => Ok (JBool false, r)
            | None =>
            match strip_prefix (txt "NaN") s with
            | Some r => Ok (JFloat FNaN, r)
            | None =>
            match strip_prefix (txt "Infinity") s with
            | Some r => Ok (JFloat FInf, r)
            | None =>
            match strip_prefix (txt "-Infinity") s with
            | Some r => Ok (JFloat FNegInf, r)
            | None =>
              match match_number s with
              | Some (v, r) => Ok (v, r)
              | None => Raise JSONDecodeError
              end
            end end end end end end
      end
  end

(** The members of an object, from a property name on; [acc] is the dict
    built so far. *)
with parse_members (n : nat) (acc : list (pystr * json)) (s : text) {struct n}
  : res (json * text) :=
  match n with
  | O => Raise RecursionError
  | S n' =>
      match s with
      | c :: t =>
          if (c =? dquote)%char then
            match scanstring t with
            | None => Raise JSONDecodeError
            | Some (k, r) =>
                match skip_ws r with
                | c2 :: r2 =>
                    if (c2 =? ":")%char then
                      match scan_once n' (skip_ws r2) with
                      | Raise e => Raise e
                      | Ok (v, r3) =>
                          let acc' := dict_set acc k v in
                          match skip_ws r3 with
                          | c4 :: r4 =>
                              if (c4 =? "}")%char then Ok (JObj acc', r4)
                              else if (c4 =? ",")%char then parse_members n' acc' (skip_ws r4)
                              else Raise JSONDecodeError
                          | [] => Raise JSONDecodeError
                          end
                      end
                    else Raise JSONDecodeError
                | [] => Raise JSONDecodeError
                end
            end
          else Raise JSONDecodeError
      | [] => Raise JSONDecodeError
      end
  end

(** The elements of a non-empty array; [acc] holds them in reverse. *)
with parse_elements (n : nat) (acc : list json) (s : text) {struct n}
  : res (json * text) :=
  match n with
  | O => Raise RecursionError
  | S n' =>
      match scan_once n' s with
      | Raise e => Raise e
      | Ok (v, r) =>
          match skip_ws r with
          | c :: r' =>
              if (c =? "]")%char then Ok (JArr (rev (v :: acc)), r')
              else if (c =? ",")%char then parse_elements n' (v :: acc) (skip_ws r')
              else Raise JSONDecodeError
          | [] => Raise JSONDecodeError
          end
      end
  end.

(** [json.loads(s)]: [JSONDecoder.decode], which skips JSON whitespace
    around the one value and refuses extra data. *)
Definition loads (s : text) : res json :=
  match scan_once (S (List.length s)) (skip_ws s) with
  | Raise e => Raise e
  | Ok (v, r) =>
      match skip_ws r with
      | [] => Ok v
      | _ => Raise JSONDecodeError
      end
  end.

(** ** [extract_and_parse_json] *)

(** The body of the [try] block: what [json.loads] is given, and what it
    returns or raises. *)
Definition candidate (raw_output : text) : text :=
  let json_str := match search_brace_group raw_output with
                  | Some g => g
                  | None => raw_output
                  end in
  let json_str := strip (re_sub fence_match json_str) in
  re_sub comma_match json_str.

Definition extract_body (raw_output : text) : res json :=
  loads (candidate raw_output).

(** What the function shows on the Streamlit page. *)
Inductive ui_event : Type :=
| StError (e : exn)                       (* st.error(...) naming the exception *)
| StTextArea (label : string) (body : text).

(** The function with the page as explicit state: the returned Python value
    (a failure returns [None]) and the page after the call. *)
Definition extract_and_parse_json (raw_output : text) (page : list ui_event)
  : json * list ui_event :=
  match extract_body raw_output with
  | Ok v => (v, page)
  | Raise JSONDecodeError =>
      (py_None, page ++ [StError JSONDecodeError;
                         StTextArea "Problematic JSON Output" raw_output])
  | Raise e => (py_None, page ++ [StError e])
  end.

Definition extracted (raw_output : text) : json :=
  fst (extract_and_parse_json raw_output []).

(** ** Predicates on texts used in the statements *)

(** [p] occurs in [s] as a substring. *)
Fixpoint occurs (p s : text) : bool :=
  match strip_prefix p s with
  | Some _ => true
  | None => match s with
            | [] => false
            | _ :: t => occurs p t
            end
  end.

(** [m] matches at no position of [s]; [nomatch comma_match s] says that
    [s] has no comma followed by optional whitespace and a closer. *)
Fixpoint nomatch (m : text -> option (text * text)) (s : text) : bool :=
  match s with
  | [] => true
  | _ :: t => match m s with
              | Some _ => false
              | None => nomatch m t
              end
  end.

(** [m] matches at no position of the prefix [a] of [a ++ r]. *)
Fixpoint nomatch_before (m : text -> option (text * text)) (a r : text) : bool :=
  match a with
  | [] => true
  | _ :: a' => match m (a ++ r) with
               | Some _ => false
               | None => nomatch_before m a' r
               end
  end.

(** ** Printing numbers: [int.__repr__] and [float.__repr__] *)

Definition digit_char (d : Z) : ascii := ascii_of_nat (Z.to_nat (48 + d)).

Fixpoint digits_go (fuel : nat) (n : Z) (acc : text) : text :=
  match fuel with
  | O => acc
  | S f => let acc' := digit_char (n mod 10) :: acc in
           if n <? 10 then acc' else digits_go f (n / 10) acc'
  end.

(** The decimal digits of a natural number [n]; the number of bits of [n]
    bounds the number of its digits. *)
Definition z_digits (n : Z) : text := digits_go (Pos.size_nat (Z.to_pos n)) n [].

Definition int_repr (n : Z) : text :=
  if n <? 0 then "-"%char :: z_digits (- n) else z_digits n.

(** [format_float_short] in mode ['r'] with [Py_DTSF_ADD_DOT_0]: the
    shortest digits [d1..dk] and the decimal point position [decpt];
    scientific notation when [decpt <= -4] or [decpt > 16], with a signed
    exponent of at least two digits. *)
Definition pad2 (ds : text) : text :=
  match ds with
  | [_] => "0"%char :: ds
  | _ => ds
  end.

Definition repr_dec (m e : Z) : text :=
  if m =? 0 then txt "0.0" else
  let sign := if m <? 0 then ["-"%char] else [] in
  let ds := z_digits (Z.abs m) in
  let k := Z.of_nat (List.length ds) in
  let decpt := k + e in
  sign ++
  (if (decpt <=? -4) || (16 <? decpt) then
     let x := decpt - 1 in
     firstn 1 ds ++ (if 1 <? k then "."%char :: skipn 1 ds else [])
     ++ "e"%char :: (if x <? 0 then "-"%char else "+"%char) :: pad2 (z_digits (Z.abs x))
   else if decpt <=? 0 then
     txt "0." ++ repeat "0"%char (Z.to_nat (- decpt)) ++ ds
   else if k <=? decpt then
     ds ++ repeat "0"%char (Z.to_nat (decpt - k)) ++ txt ".0"
   else
     firstn (Z.to_nat decpt) ds ++ "."%char :: skipn (Z.to_nat decpt) ds).

(** [str(x)] for a float. *)
Definition float_str (f : pyfloat) : text :=
  match f with
  | FDec m e => repr_dec m e
  | FInf => txt "inf"
  | FNegInf => txt "-inf"
  | FNaN => txt "nan"
  end.

(** ** [json.dumps(plan, indent=2)] *)

(** [encode_basestring_ascii] ([ensure_ascii=True]): the quote, the
    backslash and [\b \f \n \r \t] get their short escapes, the other
    characters outside [' '..'~'] become [\uXXXX] in lowercase hex, a code
    point past the BMP a surrogate pair. *)
Definition hex_char (d : Z) : ascii :=
  if d <? 10 then digit_char d else ascii_of_nat (Z.to_nat (87 + d)).

Definition u_escape (n : Z) : text :=
  [bslash; "u"%char; hex_char (n / 4096); hex_char ((n / 256) mod 16);
   hex_char ((n / 16) mod 16); hex_char (n mod 16)].

Definition escape_cp (c : Z) : text :=
  if c =? 92 then [bslash; bslash]
  else if c =? 34 then [bslash; dquote]
  else if c =? 8 then [bslash; "b"%char]
  else if c =? 12 then [bslash; "f"%char]
  else if c =? 10 then [bslash; "n"%char]
  else if c =? 13 then [bslash; "r"%char]
  else if c =? 9 then [bslash; "t"%char]
  else if (32 <=? c) && (c <=? 126) then [ascii_of_nat (Z.to_nat c)]
  else if c <? 65536 then u_escape c
  else
    let n := c - 65536 in
    let c2 := Z.lor 56320 (Z.land n 1023) in
    let c1 := Z.lor 55296 (Z.land (Z.shiftr n 10) 1023) in
    u_escape c1 ++ u_escape c2.

Definition encode_str (s : pystr) : text :=
  dquote :: flat_map escape_cp s ++ [dquote].

(** [_floatstr]. *)
Definition float_json (f : pyfloat) : text :=
  match f with
  | FDec m e => repr_dec m e
  | FInf => txt "Infinity"
  | FNegInf => txt "-Infinity"
  | FNaN => txt "NaN"
  end.

(** A new line followed by the indentation of nesting level [k]. *)
Definition nl_ind (k : nat) : text := "010"%char :: repeat " "%char (2 * k).

(** [_iterencode] of [_make_iterencode] with [indent=2] and the separators
    [','] and [': '] that [indent] selects; [lvl] is the current
    indentation level.  Empty containers print as [[]] and [{}]. *)
Fixpoint dumps_at (lvl : nat) (v : json) {struct v} : text :=
  match v with
  | JNull => txt "null"
  | JBool true => txt "true"
  | JBool false => txt "false"
  | JInt z => int_repr z
  | JFloat f => float_json f
  | JStr s => encode_str s
  | JArr [] => txt "[]"
  | JArr (x :: l) =>
      "["%char :: nl_ind (S lvl) ++ dumps_at (S lvl) x
      ++ flat_map (fun y => ","%char :: nl_ind (S lvl) ++ dumps_at (S lvl) y) l
      ++ nl_ind lvl ++ ["]"%char]
  | JObj [] => txt "{}"
  | JObj ((k, x) :: kvs) =>
      "{"%char :: nl_ind (S lvl) ++ encode_str k ++ txt ": " ++ dumps_at (S lvl) x
      ++ flat_map (fun kv => match kv with
                             | (k', y) => ","%char :: nl_ind (S lvl) ++ encode_str k'
                                          ++ txt ": " ++ dumps_at (S lvl) y
                             end) kvs
      ++ nl_ind lvl ++ ["}"%char]
  end.

Definition dumps (v : json) : text := dumps_at 0 v.

(** The JSON export of [display_plan], read back with [json.loads]. *)
Definition export_roundtrip (plan : json) : res json := loads (dumps plan).

(** ** Values [json.loads] can produce *)

(** A decimal in normal form: no trailing zero in the mantissa. *)
Definition normalized (m e : Z) : bool :=
  if m =? 0 then e =? 0 else negb (m mod 10 =? 0).

(** Code points of a [str] built by the scanner: in range, and no high
    surrogate right before a low one (the scanner joins such pairs). *)
Fixpoint str_wf (s : pystr) : bool :=
  match s with
  | [] => true
  | u :: r =>
      (0 <=? u) && (u <=? 1114111)
      && match r with
         | v :: _ => negb (is_high_surrogate u && is_low_surrogate v)
         | [] => true
         end
      && str_wf r
  end.

Definition pystr_eqb (a b : pystr) : bool :=
  if list_eq_dec Z.eq_dec a b then true else false.

Fixpoint keys_nodup (kvs : list (pystr * json)) : bool :=
  match kvs with
  | [] => true
  | (k, _) :: r => negb (existsb (fun kv => pystr_eqb k (fst kv)) r) && keys_nodup r
  end.

Fixpoint wf (v : json) : bool :=
  match v with
  | JFloat (FDec m e) => normalized m e
  | JStr s => str_wf s
  | JArr l => forallb wf l
  | JObj kvs =>
      forallb (fun kv => match kv with (k, x) => str_wf k && wf x end) kvs
      && keys_nodup kvs
  | _ => true
  end.

(** The nesting the scanner's fuel has to cover. *)
Fixpoint size (v : json) : nat :=
  match v with
  | JArr l => S (list_sum (map (fun x => S (size x)) l))
  | JObj kvs => S (list_sum (map (fun kv => match kv with (_, x) => S (size x) end) kvs))
  | _ => 1
  end.

(** ** Auxiliary definitions of the proofs *)

(** A list of decimal digit characters. *)
Definition all_digits (ds : text) : Prop := Forall (fun c => is_digit c = true) ds.

(** What can follow a value in the output of [dumps]: the end of the text,
    the comma before the next item, or the newline before the closer. *)
Definition stops (r : text) : Prop :=
  match r with [] => True | c :: _ => c = ","%char \/ c = "010"%char end.

(** A text that does not start with a digit. *)
Definition nd (r : text) : Prop :=
  match r with [] => True | c :: _ => is_digit c = false end.

(** A text that does not start with the [\\uXXXX] escape of a low surrogate. *)
Definition no_low_escape (t : text) : Prop :=
  forall g1 g2 g3 g4 t3 w,
    t = bslash :: "u"%char :: g1 :: g2 :: g3 :: g4 :: t3 ->
    hex4 g1 g2 g3 g4 = Some w -> is_low_surrogate w = false.

(** The roundtrip property of one value at every indentation level. *)
Definition RT (v : json) : Prop :=
  wf v = true -> forall lvl rest n, stops rest -> (size v <= n)%nat ->
  scan_once n (dumps_at lvl v ++ rest) = Ok (v, rest).

(** The text [dumps_at] prints for a member after the first one of an
    object. *)
Definition member_txt (L : nat) (kv : pystr * json) : text :=
  match kv with
  | (k', y) => ","%char :: nl_ind L ++ encode_str k' ++ txt ": " ++ dumps_at L y
  end.

(** What [scanstring] guarantees about its result [cs] read from [s]: it
    satisfies [str_wf], and a leading low surrogate comes from a [\\uXXXX]
    escape followed by more text. *)
Definition ss_inv (s : text) (cs : pystr) : Prop :=
  str_wf cs = true /\
  forall v cs', cs = v :: cs' -> is_low_surrogate v = true ->
  exists h1 h2 h3 h4 t, s = bslash :: "u"%char :: h1 :: h2 :: h3 :: h4 :: t
                        /\ hex4 h1 h2 h3 h4 = Some v /\ t <> [].

(** [wf] of one member of an object. *)
Definition pair_wf (kv : pystr * json) : bool :=
  match kv with (k, x) => str_wf k && wf x end.

(** An induction principle for [json] that goes through the elements of
    arrays and the member values of objects. *)
Section JsonInd.
Variable P : json -> Prop.
Hypothesis Hnull : P JNull.
Hypothesis Hbool : forall b, P (JBool b).
Hypothesis Hint : forall z, P (JInt z).
Hypothesis Hfloat : forall f, P (JFloat f).
Hypothesis Hstr : forall s, P (JStr s).
Hypothesis Harr : forall l, Forall P l -> P (JArr l).
Hypothesis Hobj : forall kvs, Forall (fun kv => P (snd kv)) kvs -> P (JObj kvs).

Fixpoint json_ind' (v : json) : P v :=
  match v with
  | JNull => Hnull
  | JBool b => Hbool b
  | JInt z => Hint z
  | JFloat f => Hfloat f
  | JStr s => Hstr s
  | JArr l =>
      Harr l ((fix go (l : list json) : Forall P l :=
                 match l with
                 | [] => Forall_nil _
                 | x :: r => Forall_cons x (json_ind' x) (go r)
                 end) l)
  | JObj kvs =>
      Hobj kvs ((fix go (kvs : list (pystr * json)) : Forall (fun kv => P (snd kv)) kvs :=
                   match kvs with
                   | [] => Forall_nil _
                   | kv :: r =>
                       Forall_cons kv (match kv as kv0 return P (snd kv0) with
                                       | (k, x) => json_ind' x
                                       end) (go r)
                   end) kvs)
  end.
End JsonInd.

(** A rewrite step whose replacement is made of characters of the matched
    text. *)
Definition shrinks (m : text -> option (text * text)) : Prop :=
  forall s r rest, m s = Some (r, rest) -> exists p, s = p ++ rest /\ incl r p.


(** A text made only of JSON whitespace. *)
Definition allws (t : text) : Prop := forallb is_json_ws t = true.

(** A scan result with [t] appended to what the scan left over. *)
Definition fr (t : text) (x : res (json * text)) : res (json * text) :=
  match x with Ok (v, r) => Ok (v, r ++ t) | Raise e => Raise e end.

(** [x] is [g ++ d :: r] with [P d]: the last character taken from [x]
    before the rest [r] satisfies [P]. *)
Definition ends_in (P : ascii -> bool) (x r : text) : Prop :=
  exists g d, x = g ++ d :: r /\ P d = true.

(** ** [create_prompt_template] and [format_prompt] *)

(** The dict built by [get_user_input]: [age] comes from an integer
    [number_input], [weight] and [height] from float ones, [duration] from
    the select box [[7, 14, 21, 28]]; the other fields are strings. *)
Record user_profile : Type := {
  name : text;
  age : Z;
  weight : pyfloat;
  height : pyfloat;
  activity_level : text;
  dietary_preferences : text;
  dietary_requirements : text;
  restrictions : text;
  goal : text;
  region : text;
  preferred_cuisines : text;
  budget : text;
  meal_frequency : text;
  duration : Z;
  secondary_goals : text
}.

(** The template of [create_prompt_template], character for character; the
    literal writes ['~'] for the double quote. *)
Definition template_text : text :=
  map (swap_char "~" dquote) (list_ascii_of_string
"
    You are NutriAI, an advanced AI nutritionist. Generate a personalized {duration}-day diet plan in VALID JSON format.

    === USER PROFILE ===
    - Name: {name}
    - Age: {age}
    - Weight: {weight} kg
    - Height: {height} cm
    - Activity: {activity_level}
    - Goals: {goal} (primary), {secondary_goals} (secondary)
    - Preferences: {dietary_preferences}
    - Requirements: {dietary_requirements}
    - Restrictions: {restrictions}
    - Region: {region}
    - Cuisines: {preferred_cuisines}
    - Budget: {budget}
    - Meal Frequency: {meal_frequency}

    === REGIONAL CONSIDERATIONS ===
    Incorporate authentic and regionally appropriate foods based on the user's region ({region}). Focus on locally available ingredients and traditional cooking methods common in that area. Adjust spice levels, cooking techniques, and meal compositions to align with regional dietary patterns.

    === OUTPUT FORMAT ===
    Return ONLY a JSON object with no other text around it. The JSON must follow this structure:
    {{
        ~metadata~: {{
            ~generated_at~: ~{timestamp}~,
            ~plan_duration~: {duration}
        }},
        ~user_profile~: {{
            ~bmi~: 22.1,
            ~bmr~: 1650,
            ~daily_calories~: 2200,
            ~macros~: {{
                ~protein~: {{~percent~: 30, ~grams~: 165}},
                ~carbs~: {{~percent~: 40, ~grams~: 220}},
                ~fats~: {{~percent~: 30, ~grams~: 73}}
            }},
            ~micro_nutrients~: [~iron~, ~vitamin D~],
            ~considerations~: []
        }},
        ~daily_plans~: {{
            ~day_1~: {{
                ~meals~: {{
                    ~breakfast~: {{
                        ~name~: ~Meal Name~,
                        ~desc~: ~Description~,
                        ~ingredients~: [~item1~, ~item2~],
                        ~nutrition~: {{
                            ~calories~: 350,
                            ~protein~: 20,
                            ~carbs~: 45,
                            ~fats~: 8,
                            ~fiber~: 5
                        }},
                        ~prep~: ~Preparation steps~,
                        ~time~: ~08:00~
                    }}
                }},
                ~snacks~: {{
                    ~morning_snack~: {{
                        ~name~: ~Snack Name~,
                        ~nutrition~: {{
                            ~calories~: 150,
                            ~protein~: 5,
                            ~carbs~: 20,
                            ~fats~: 5
                        }}
                    }}
                }},
                ~hydration~: {{
                    ~water~: ~2L minimum~,
                    ~other~: [~herbal tea~, ~electrolyte drink~]
                }}
            }}
        }},
        ~shopping_list~: {{
            ~proteins~: [~chicken~, ~tofu~],
            ~carbs~: [~quinoa~, ~sweet potatoes~],
            ~vegetables~: [~spinach~, ~broccoli~],
            ~fruits~: [~berries~, ~bananas~],
            ~other~: [~olive oil~, ~nuts~]
        }},
        ~recommendations~: {{
            ~general~: ~General advice~,
            ~supplements~: [~vitamin D~, ~omega-3~],
            ~tracking~: ~Progress tracking tips~
        }}
    }}

    IMPORTANT: Return ONLY the JSON - no explanation, no markdown code blocks, no additional text.
    ").

(** A template in the f-string style, as [string.Formatter] reads it:
    literal text, [{{] and [}}] for braces, [{name}] for a field. *)
Inductive segment : Type :=
| Lit (t : text)
| Field (field_name : text).

Definition cons_lit (c : ascii) (r : option (list segment)) : option (list segment) :=
  match r with
  | Some (Lit l :: segs) => Some (Lit (c :: l) :: segs)
  | Some segs => Some (Lit [c] :: segs)
  | None => None
  end.

(** [None] is the [ValueError] of an unmatched brace. *)
Fixpoint parse_template_go (fuel : nat) (s : text) : option (list segment) :=
  match fuel with
  | O => None
  | S f =>
      match s with
      | [] => Some []
      | c :: t =>
          if (c =? "{")%char then
            match t with
            | d :: t' =>
                if (d =? "{")%char then cons_lit "{" (parse_template_go f t')
                else match split_first "}" t with
                     | Some (fname, rest) =>
                         match parse_template_go f rest with
                         | Some segs => Some (Field fname :: segs)
                         | None => None
                         end
                     | None => None
                     end
            | [] => None
            end
          else if (c =? "}")%char then
            match t with
            | d :: t' => if (d =? "}")%char then cons_lit "}" (parse_template_go f t')
                         else None
            | [] => None
            end
          else cons_lit c (parse_template_go f t)
      end
  end.

Definition parse_template (s : text) : option (list segment) :=
  parse_template_go (S (List.length s)) s.

(** Filling the fields; a field without a value is a [KeyError]. *)
Fixpoint render (L : text -> option text) (segs : list segment) : option text :=
  match segs with
  | [] => Some []
  | Lit x :: r => match render L r with Some o => Some (x ++ o) | None => None end
  | Field n :: r =>
      match L n, render L r with
      | Some v, Some o => Some (v ++ o)
      | _, _ => None
      end
  end.

Definition text_eqb (a b : text) : bool :=
  if list_eq_dec Ascii.ascii_dec a b then true else false.

(** The keyword arguments of [format_prompt( **user_data)] and the
    [timestamp] bound by [.partial] when the template is created, each
    formatted by [str()]. *)
Definition profile_value (p : user_profile) (timestamp : text) (n : text) : option text :=
  if text_eqb n (txt "name") then Some (name p)
  else if text_eqb n (txt "age") then Some (int_repr (age p))
  else if text_eqb n (txt "weight") then Some (float_str (weight p))
  else if text_eqb n (txt "height") then Some (float_str (height p))
  else if text_eqb n (txt "activity_level") then Some (activity_level p)
  else if text_eqb n (txt "dietary_preferences") then Some (dietary_preferences p)
  else if text_eqb n (txt "dietary_requirements") then Some (dietary_requirements p)
  else if text_eqb n (txt "restrictions") then Some (restrictions p)
  else if text_eqb n (txt "goal") then Some (goal p)
  else if text_eqb n (txt "region") then Some (region p)
  else if text_eqb n (txt "preferred_cuisines") then Some (preferred_cuisines p)
  else if text_eqb n (txt "budget") then Some (budget p)
  else if text_eqb n (txt "meal_frequency") then Some (meal_frequency p)
  else if text_eqb n (txt "duration") then Some (int_repr (duration p))
  else if text_eqb n (txt "secondary_goals") then Some (secondary_goals p)
  else if text_eqb n (txt "timestamp") then Some timestamp
  else None.

Definition create_prompt_template : option (list segment) := parse_template template_text.

(** [create_prompt_template().format_prompt( **user_data)]: the text of the
    one message sent to the model. *)
Definition format_prompt (p : user_profile) (timestamp : text) : option text :=
  match create_prompt_template with
  | Some segs => render (profile_value p timestamp) segs
  | None => None
  end.

(** Finding a field between two literals, for reading off the prompt. *)
Definition prepend_ctx (sg : segment)
  (r : option (list segment * text * text * list segment))
  : option (list segment * text * text * list segment) :=
  match r with
  | Some (a, x, y, b) => Some (sg :: a, x, y, b)
  | None => None
  end.

Fixpoint find_ctx (n : text) (segs : list segment)
  : option (list segment * text * text * list segment) :=
  match segs with
  | [] => None
  | sg :: rest =>
      match sg, rest with
      | Lit x, Field m :: Lit y :: rest' =>
          if text_eqb m n then Some ([], x, y, rest')
          else prepend_ctx sg (find_ctx n rest)
      | _, _ => prepend_ctx sg (find_ctx n rest)
      end
  end.

Definition starts_with (p s : text) : bool :=
  match strip_prefix p s with Some _ => true | None => false end.

Definition ends_with (p s : text) : bool := starts_with (rev p) (rev s).

(** The first occurrence of field [n] with [pre] just before it and [post]
    just after it; the segments after it. *)
Definition ctx_ok (n pre post : text) (segs : list segment) : option (list segment) :=
  match find_ctx n segs with
  | Some (a, x, y, b) => if ends_with pre x && starts_with post y then Some b else None
  | None => None
  end.

Definition known_names : list text :=
  map txt ["name"; "age"; "weight"; "height"; "activity_level";
           "dietary_preferences"; "dietary_requirements"; "restrictions";
           "goal"; "region"; "preferred_cuisines"; "budget";
           "meal_frequency"; "duration"; "secondary_goals"; "timestamp"]%string.

Definition fields_known (segs : list segment) : bool :=
  forallb (fun sg => match sg with
                     | Lit _ => true
                     | Field n => existsb (text_eqb n) known_names
                     end) segs.

(** ** [get_user_input], [display_plan] and [main] *)

(** *** [get_user_input] *)

(** [sep.join(l)] on a list of [str]. *)
Fixpoint join_with (sep : text) (l : list text) : text :=
  match l with
  | [] => []
  | [x] => x
  | x :: r => x ++ sep ++ join_with sep r
  end.

(** [", ".join(l) if l else d]: an empty list is falsy. *)
Definition join_or_default (d : text) (l : list text) : text :=
  match l with
  | [] => d
  | _ :: _ => join_with (txt ", ") l
  end.

(** What the widgets of the form hold when it is submitted: the three
    [multiselect] widgets give lists of their options. *)
Record form_values : Type := {
  f_name : text;
  f_age : Z;
  f_weight : pyfloat;
  f_height : pyfloat;
  f_activity_level : text;
  f_dietary_preferences : list text;
  f_dietary_requirements : list text;
  f_restrictions : text;
  f_goal : text;
  f_region : text;
  f_preferred_cuisines : list text;
  f_budget : text;
  f_meal_frequency : text;
  f_duration : Z
}.

(** [get_user_input]: the dict it returns when the submit button was
    pressed in this run, [None] otherwise. *)
Definition get_user_input (submitted : bool) (f : form_values) : option user_profile :=
  if submitted then
    Some {| name := f_name f;
            age := f_age f;
            weight := f_weight f;
            height := f_height f;
            activity_level := f_activity_level f;
            dietary_preferences := join_or_default (txt "None") (f_dietary_preferences f);
            dietary_requirements := join_or_default (txt "None") (f_dietary_requirements f);
            restrictions := match f_restrictions f with
                            | [] => txt "None"
                            | _ :: _ => f_restrictions f
                            end;
            goal := f_goal f;
            region := f_region f;
            preferred_cuisines := join_or_default (txt "Any") (f_preferred_cuisines f);
            budget := f_budget f;
            meal_frequency := f_meal_frequency f;
            duration := f_duration f;
            secondary_goals := txt "None" |}
  else None.

(** *** [str] methods on the strings of a plan *)

Fixpoint zstrip_prefix (p s : pystr) : option pystr :=
  match p with
  | [] => Some s
  | a :: p' =>
      match s with
      | b :: s' => if Z.eqb a b then zstrip_prefix p' s' else None
      | [] => None
      end
  end.

(** [s.split(sep)] for a non-empty [sep]: the pieces between the
    occurrences of [sep] found from left to right.  Each step consumes a
    character, so [S (length s)] steps are enough. *)
Fixpoint split_go (fuel : nat) (sep s : pystr) : list pystr :=
  match fuel with
  | O => [s]
  | S f =>
      match s with
      | [] => [[]]
      | c :: t =>
          match zstrip_prefix sep s with
          | Some r => [] :: split_go f sep r
          | None =>
              match split_go f sep t with
              | p :: ps => (c :: p) :: ps
              | [] => [[c]]
              end
          end
      end
  end.

Definition py_split (sep s : pystr) : list pystr := split_go (S (List.length s)) sep s.

(** [sep.join(l)] on [str] values. *)
Fixpoint zjoin (sep : pystr) (l : list pystr) : pystr :=
  match l with
  | [] => []
  | [x] => x
  | x :: r => x ++ sep ++ zjoin sep r
  end.

(** [s.replace(old, new)] for a non-empty [old]: the occurrences of [old]
    found from left to right are replaced. *)
Fixpoint replace_go (fuel : nat) (old new s : pystr) : pystr :=
  match fuel with
  | O => s
  | S f =>
      match s with
      | [] => []
      | c :: t =>
          match zstrip_prefix old s with
          | Some r => new ++ replace_go f old new r
          | None => c :: replace_go f old new t
          end
      end
  end.

Definition py_replace (old new s : pystr) : pystr := replace_go (S (List.length s)) old new s.

(** [l[-1]]; [None] is the [IndexError] of an empty list. *)
Definition last_item {A : Type} (l : list A) : option A :=
  match rev l with
  | x :: _ => Some x
  | [] => None
  end.

(** The code points of an ASCII text. *)
Definition zs (t : text) : pystr := map (fun c => Z.of_nat (nat_of_ascii c)) t.

(** [str.isspace] on one code point: the characters [str.strip()] removes. *)
Definition is_py_space (c : Z) : bool :=
  ((9 <=? c) && (c <=? 13)) || ((28 <=? c) && (c <=? 32)) || (c =? 133) || (c =? 160)
  || (c =? 5760) || ((8192 <=? c) && (c <=? 8202)) || (c =? 8232) || (c =? 8233)
  || (c =? 8239) || (c =? 8287) || (c =? 12288).

Fixpoint zdrop_space (s : pystr) : pystr :=
  match s with
  | c :: t => if is_py_space c then zdrop_space t else s
  | [] => []
  end.

(** [s.strip()] *)
Definition zstrip (s : pystr) : pystr := rev (zdrop_space (rev (zdrop_space s))).

(** [s.endswith('.')] *)
Definition ends_with_dot (s : pystr) : bool :=
  match last_item s with
  | Some c => Z.eqb c 46
  | None => false
  end.

(** *** [display_plan]: the label of a day button *)

(** [day.split('_')[-1] if '_' in day else day.replace('day_', '')];
    [None] would be an [IndexError]. *)
Definition day_num (day : pystr) : option pystr :=
  if existsb (Z.eqb 95) day then last_item (py_split [95] day)
  else Some (py_replace (zs (txt "day_")) [] day).

(** [selected_day.split('_')[-1]] in the title of the schedule. *)
Definition schedule_num (selected_day : pystr) : option pystr :=
  last_item (py_split [95] selected_day).

(** *** [display_plan]: the preparation steps of a meal *)

(** The loop over [enumerate(meal['prep'].split('. '))]: for each
    non-empty step, its number [i + 1] and the text shown after it,
    stripped and ending with a full stop. *)
Fixpoint prep_go (i : nat) (steps : list pystr) : list (nat * pystr) :=
  match steps with
  | [] => []
  | step :: r =>
      match step with
      | [] => prep_go (S i) r
      | _ :: _ =>
          let step' := zstrip step in
          let step'' := if ends_with_dot step' then step' else step' ++ [46] in
          (S i, step'') :: prep_go (S i) r
      end
  end.

(** [meal['prep'].split('. ')] *)
Definition prep_pieces (prep : pystr) : list pystr := py_split [46; 32] prep.

Definition prep_steps (prep : pystr) : list (nat * pystr) := prep_go 0 (prep_pieces prep).

(** The markdown line [f"{i + 1}. {step}"]. *)
Definition prep_line (st : nat * pystr) : pystr :=
  zs (int_repr (Z.of_nat (fst st))) ++ [46; 32] ++ snd st.

Definition prep_lines (prep : pystr) : list pystr := map prep_line (prep_steps prep).

(** *** Python values as [display_plan] and [main] use them *)

(** Truth value of a [json] value: [None], [False], zero, and empty
    strings, lists and dicts are falsy; [nan] and the infinities are
    truthy. *)
Definition truthy (v : json) : bool :=
  match v with
  | JNull => false
  | JBool b => b
  | JInt z => negb (z =? 0)
  | JFloat (FDec m _) => negb (m =? 0)
  | JFloat _ => true
  | JStr s => match s with [] => false | _ => true end
  | JArr l => match l with [] => false | _ => true end
  | JObj l => match l with [] => false | _ => true end
  end.

(** The exceptions raised by the part of [display_plan] that is embedded.
    [StreamlitAPIException] is what [st.columns] raises for a column count
    that is not positive. *)
Inductive py_exn : Type :=
| KeyError (k : json)
| TypeError
| AttributeError
| IndexError
| StreamlitAPIException.

Inductive pres (A : Type) : Type :=
| POk (a : A)
| PRaise (e : py_exn).
Arguments POk {A} a.
Arguments PRaise {A} e.

Definition pbind {A B : Type} (m : pres A) (f : A -> pres B) : pres B :=
  match m with
  | POk a => f a
  | PRaise e => PRaise e
  end.

Notation "x <- m ;; k" := (pbind m (fun x => k)) (at level 61, m at next level, right associativity).

Fixpoint dict_lookup (d : list (pystr * json)) (k : pystr) : option json :=
  match d with
  | [] => None
  | (k', v) :: r => if list_eq_dec Z.eq_dec k k' then Some v else dict_lookup r k
  end.

(** [d[k]] for a key [k] of any type, [d] a dict from [json.loads] (its
    keys are [str]): a [str] key is looked up, a list or dict key is
    unhashable, any other key equals no [str] and is missing. *)
Definition dict_getitem (d : list (pystr * json)) (k : json) : pres json :=
  match k with
  | JStr s => match dict_lookup d s with
              | Some v => POk v
              | None => PRaise (KeyError k)
              end
  | JArr _ | JObj _ => PRaise TypeError
  | _ => PRaise (KeyError k)
  end.

(** [v['key']] with a [str] key: only a dict can be indexed by a [str]. *)
Definition getitem_str (v : json) (k : pystr) : pres json :=
  match v with
  | JObj d => dict_getitem d (JStr k)
  | _ => PRaise TypeError
  end.

(** [list(v.keys())]: only a dict has [keys]. *)
Definition py_keys (v : json) : pres (list pystr) :=
  match v with
  | JObj d => POk (map fst d)
  | _ => PRaise AttributeError
  end.

(** [st.session_state]: attribute names and their values, in insertion
    order. *)
Definition session := list (text * json).

Fixpoint sess_get (s : session) (k : text) : option json :=
  match s with
  | [] => None
  | (k', v) :: r => if text_eqb k k' then Some v else sess_get r k
  end.

(** [st.session_state.k = v] *)
Fixpoint sess_set (s : session) (k : text) (v : json) : session :=
  match s with
  | [] => [(k, v)]
  | (k', v') :: r => if text_eqb k k' then (k, v) :: r else (k', v') :: sess_set r k v
  end.

(** *** [main]: the session state *)

(** [if "k" not in st.session_state: st.session_state.k = default] for
    the five keys, in the order of [main]. *)
Definition session_defaults : list (text * json) :=
  [(txt "nutrition_plan", JNull); (txt "selected_day", JNull); (txt "water_count", JInt 0);
   (txt "show_share", JBool false); (txt "show_calendar", JBool false)].

Definition init_key (s : session) (kd : text * json) : session :=
  match sess_get s (fst kd) with
  | Some _ => s
  | None => sess_set s (fst kd) (snd kd)
  end.

Definition main_init (s : session) : session := fold_left init_key session_defaults s.

(** *** [display_plan]: choosing the day *)

(** [st.columns(n)] *)
Definition st_columns (n : nat) : pres nat :=
  match n with
  | O => PRaise StreamlitAPIException
  | S _ => POk n
  end.

(** The day buttons: [clicked] is the day whose button was pressed in the
    interaction that started this run, if any.  The selected day and the
    session after the loop. *)
Fixpoint day_buttons (clicked : option pystr) (days : list pystr) (sel : json) (s : session)
  : json * session :=
  match days with
  | [] => (sel, s)
  | day :: r =>
      match clicked with
      | Some d => if list_eq_dec Z.eq_dec d day
                  then day_buttons clicked r (JStr day) (sess_set s (txt "selected_day") (JStr day))
                  else day_buttons clicked r sel s
      | None => day_buttons clicked r sel s
      end
  end.

(** Lines 270 to 285 of [display_plan], from [days = list(...)] to
    [day_plan = plan['daily_plans'][selected_day]]: the selected day, the
    session and the plan of the day.  [days[0]] is evaluated before
    [.get] is called; the labels computed in the loop cannot fail. *)
Definition select_day (plan : json) (s : session) (clicked : option pystr)
  : pres (json * session * json) :=
  dp <- getitem_str plan (zs (txt "daily_plans")) ;;
  days <- py_keys dp ;;
  _ <- st_columns (Nat.min 7 (List.length days)) ;;
  first <- match days with
           | d :: _ => POk (JStr d)
           | [] => PRaise IndexError
           end ;;
  let sel0 := match sess_get s (txt "selected_day") with
              | Some v => v
              | None => first
              end in
  let '(sel, s') := day_buttons clicked days sel0 s in
  dp' <- getitem_str plan (zs (txt "daily_plans")) ;;
  day_plan <- match dp' with
              | JObj d => dict_getitem d sel
              | _ => PRaise TypeError
              end ;;
  POk (sel, s', day_plan).

(** *** [main]: generating the plan *)

(** What [client.invoke] on the messages of the prompt gives back: the
    content of the response, or the exception it raises, given by its
    [str]. *)
Inductive reply : Type :=
| Reply (content : text)
| Failure (message : text).

Inductive main_event : Type :=
| ExtractEvent (e : ui_event)            (* shown by extract_and_parse_json *)
| MainError (msg : text)                 (* st.error(...) *)
| MainWrite (msg : text).                (* st.write(...) *)

Definition nutrition_plan (s : session) : json :=
  match sess_get s (txt "nutrition_plan") with
  | Some v => v
  | None => JNull
  end.

Definition failed_msg : text := txt "Failed to generate valid nutrition plan. Please try again.".

(** Lines 571 to 587 of [main], run after [main_init], in a run where
    [init_groq_client()] returned a client (see [main_generate_step] for
    the other case): [call] stands for [client.invoke] on the messages of
    the prompt.  [format_prompt] succeeds on every profile (all the fields
    of the template are known, [template_checks]). *)
Definition main_generate (s : session) (user_data : option user_profile) (timestamp : text)
  (call : text -> reply) : session * list main_event :=
  match user_data with
  | None => (s, [])
  | Some p =>
      if truthy (nutrition_plan s) then (s, [])
      else
        match format_prompt p timestamp with
        | None => (s, [])
        | Some prompt =>
            match call prompt with
            | Failure msg =>
                (s, [MainError (txt "Error generating plan: " ++ msg);
                     MainWrite (txt "Please try again or check your Groq API key")])
            | Reply content =>
                let '(parsed, page) := extract_and_parse_json content [] in
                if truthy parsed
                then (sess_set s (txt "nutrition_plan") parsed, map ExtractEvent page)
                else (s, map ExtractEvent page ++ [MainError failed_msg])
            end
        end
  end.

(** [init_groq_client] either returns a client or shows its own error
    and calls [st.stop()].  The [StopException] raised there derives from
    [BaseException]: neither the [except Exception] of [init_groq_client]
    nor the one of [main] catches it, and the run of the script ends. *)
Inductive groq_init : Type :=
| GroqClient
| GroqStop (shown : text).

Definition cross_mark : text := ["226"%char; "157"%char; "140"%char].   (* U+274C in UTF-8 *)

(** Lines 16 to 31: [api_key] is [os.getenv("GROQ_API_KEY")];
    [construct] is what [ChatGroq(...)] does: [None] when it returns a
    client, [Some e] when it raises an exception whose [str] is [e]. *)
Definition init_groq_client (api_key : option text) (construct : option text) : groq_init :=
  match api_key with
  | None | Some [] => GroqStop (cross_mark ++ txt " GROQ_API_KEY not found in .env file")
  | Some _ =>
      match construct with
      | None => GroqClient
      | Some e => GroqStop (cross_mark ++ txt " Failed to initialize Groq client: " ++ e)
      end
  end.

(** Lines 571 to 587 of [main] with the creation of the client: the
    session, the page and whether the run was stopped. *)
Definition main_generate_step (s : session) (user_data : option user_profile) (timestamp : text)
  (api_key construct : option text) (call : text -> reply) : session * list main_event * bool :=
  match user_data with
  | None => (s, [], false)
  | Some _ =>
      if truthy (nutrition_plan s) then (s, [], false)
      else
        match init_groq_client api_key construct with
        | GroqStop shown => (s, [MainError shown], true)
        | GroqClient =>
            let '(s', ev) := main_generate s user_data timestamp call in (s', ev, false)
        end
  end.

(** ** Inputs of the scenarios of the specification *)

Definition nl : ascii := "010".

(** [Here is your plan:\n```json\n{"a":1,"b":[1,2,],}\n```\nEnjoy!] *)
Definition scenario_input : text :=
  txt "Here is your plan:" ++ [nl] ++ ticks ++ txt "json" ++ [nl]
  ++ dq "{'a':1,'b':[1,2,],}" ++ [nl] ++ ticks ++ [nl] ++ txt "Enjoy!".

(** [{"a":1,"b":[1,2]}] *)
Definition scenario_plan : json :=
  JObj [([97], JInt 1); ([98], JArr [JInt 1; JInt 2])].

(** ** Sample inputs of [get_user_input] and [main] *)

Definition sample_form : form_values :=
  {| f_name := txt "Alex Johnson"; f_age := 30; f_weight := FDec 700 (-1);
     f_height := FDec 1700 (-1); f_activity_level := txt "Sedentary (little to no exercise)";
     f_dietary_preferences := [txt "None"]; f_dietary_requirements := [];
     f_restrictions := []; f_goal := txt "Weight Loss"; f_region := txt "South Asia";
     f_preferred_cuisines := [txt "Indian"; txt "Asian"]; f_budget := txt "Low";
     f_meal_frequency := txt "3 meals"; f_duration := 7 |}.


Definition sample_profile : user_profile :=
  {| name := txt "Alex Johnson"; age := 30; weight := FDec 700 (-1);
     height := FDec 1700 (-1); activity_level := txt "Sedentary (little to no exercise)";
     dietary_preferences := txt "None"; dietary_requirements := txt "None";
     restrictions := txt "None"; goal := txt "Weight Loss"; region := txt "South Asia";
     preferred_cuisines := txt "Indian, Asian"; budget := txt "Low";
     meal_frequency := txt "3 meals"; duration := 7; secondary_goals := txt "None" |}.

Definition sample_timestamp : text := txt "2026-10-17T10:00:00".

Definition sample_reply : text :=
  ticks ++ txt "json" ++ [nl]
  ++ dq "{'daily_plans': {'day_1': {'meals': {}}, 'day_2': {'meals': {}},},}" ++ [nl] ++ ticks.

(** ** Lemmas on the text steps *)

Lemma strip_prefix_app (p s : text) : strip_prefix p (p ++ s) = Some s.
Proof. induction p as [|a p IH]; simpl; [reflexivity|]. now rewrite Ascii.eqb_refl. Qed.

Lemma strip_prefix_some (p s t : text) : strip_prefix p s = Some t -> s = p ++ t.
Proof.
  revert s; induction p as [|a p IH]; intros s H; simpl in *.
  - now inversion H.
  - destruct s as [|b s]; [discriminate|].
    destruct (Ascii.eqb_spec a b); [subst|discriminate]. f_equal. now apply IH.
Qed.

Lemma occurs_spec (p s : text) :
  occurs p s = true <-> exists y z, s = y ++ p ++ z.
Proof.
  split.
  - induction s as [|c s IH]; simpl; intros H.
    + destruct (strip_prefix p []) eqn:E; [|discriminate].
      exists [], t. simpl. now apply strip_prefix_some.
    + destruct (strip_prefix p (c :: s)) eqn:E.
      * exists [], t. simpl. now apply strip_prefix_some.
      * destruct (IH H) as (y & z & ->). now exists (c :: y), z.
  - intros (y & z & ->). induction y as [|c y IH]; simpl.
    + destruct p as [|a p]; [destruct z; reflexivity|]. simpl. now rewrite Ascii.eqb_refl, strip_prefix_app.
    + now destruct (strip_prefix p (c :: y ++ p ++ z)).
Qed.

Lemma occurs_false_cons (p : text) (c : ascii) (s : text) :
  occurs p (c :: s) = false -> occurs p s = false.
Proof.
  intros H. destruct (occurs p s) eqn:E; [|reflexivity].
  apply occurs_spec in E as (y & z & ->).
  rewrite <- H. symmetry. apply occurs_spec. now exists (c :: y), z.
Qed.

Lemma occurs_false_app_r (p a s : text) : occurs p (a ++ s) = false -> occurs p s = false.
Proof. induction a as [|c a IH]; simpl; [auto|]. intros H. apply IH. now apply occurs_false_cons in H. Qed.

Lemma occurs_false_prefix (p s : text) : occurs p s = false -> strip_prefix p s = None.
Proof. destruct s; simpl; now destruct (strip_prefix p _). Qed.

Lemma span_space_spec (s : text) :
  let (w, r) := span_space s in
  s = w ++ r /\ forallb is_space w = true /\
  match r with c :: _ => is_space c = false | [] => True end.
Proof.
  induction s as [|c s IH]; simpl; [auto|].
  destruct (is_space c) eqn:E.
  - destruct (span_space s) as [w r]. destruct IH as (-> & H1 & H2).
    simpl. rewrite E. auto.
  - simpl. auto.
Qed.

Lemma span_space_app (w s : text) :
  forallb is_space w = true ->
  match s with c :: _ => is_space c = false | [] => True end ->
  span_space (w ++ s) = (w, s).
Proof.
  intros Hw Hs. induction w as [|c w IH]; simpl in *.
  - destruct s as [|c s]; simpl; [reflexivity|]. now rewrite Hs.
  - apply andb_true_iff in Hw as [Hc Hw]. rewrite Hc, IH; auto.
Qed.

(** Every text is all spaces, or spaces then a character that is not one. *)
Lemma spaces_or_break (x : text) :
  forallb is_space x = true \/
  exists sp z x', x = sp ++ z :: x' /\ forallb is_space sp = true /\ is_space z = false.
Proof.
  induction x as [|c x IH]; simpl; [auto|].
  destruct (is_space c) eqn:E; simpl.
  - destruct IH as [H | (sp & z & x' & -> & H1 & H2)]; [auto|].
    right. exists (c :: sp), z, x'. simpl. now rewrite E, H1.
  - right. now exists [], c, x.
Qed.

Lemma fence_match_occurs (s r rest : text) :
  fence_match s = Some (r, rest) -> occurs ticks s = true.
Proof.
  unfold fence_match, fence_alt1, fence_alt2. intros H.
  destruct (strip_prefix ticks s) eqn:E.
  - apply strip_prefix_some in E as ->. apply occurs_spec. now exists [], t.
  - pose proof (span_space_spec s) as Hs.
    destruct (span_space s) as [w r'].
    destruct (strip_prefix ticks r') eqn:E2; [|discriminate].
    destruct Hs as (-> & _ & _). apply strip_prefix_some in E2 as ->.
    apply occurs_spec. now exists w, t.
Qed.

Lemma nomatch_fence (s : text) : occurs ticks s = false -> nomatch fence_match s = true.
Proof.
  induction s as [|c s IH]; simpl; [auto|]. intros H.
  destruct (fence_match (c :: s)) as [[r rest]|] eqn:E.
  - apply fence_match_occurs in E. simpl in E. congruence.
  - apply IH. now apply (occurs_false_cons _ c).
Qed.

Lemma nomatch_cons (m : text -> option (text * text)) (c : ascii) (s : text) :
  nomatch m (c :: s) = true -> m (c :: s) = None /\ nomatch m s = true.
Proof. simpl. destruct (m (c :: s)); [discriminate|auto]. Qed.

Lemma nomatch_app_r (m : text -> option (text * text)) (a s : text) :
  nomatch m (a ++ s) = true -> nomatch m s = true.
Proof. induction a as [|c a IH]; simpl; [auto|]. destruct (m _); [discriminate|auto]. Qed.

Lemma re_sub_go_nomatch (m : text -> option (text * text)) (f : nat) (s : text) :
  nomatch m s = true -> re_sub_go f m s = s.
Proof.
  revert s; induction f as [|f IH]; intros s H; simpl; [reflexivity|].
  destruct s as [|c s]; [reflexivity|].
  apply nomatch_cons in H as [-> H]. now rewrite IH.
Qed.

Lemma re_sub_nomatch (m : text -> option (text * text)) (s : text) :
  nomatch m s = true -> re_sub m s = s.
Proof. apply re_sub_go_nomatch. Qed.

Lemma re_sub_go_app (m : text -> option (text * text)) (a r : text) (f : nat) :
  nomatch_before m a r = true ->
  re_sub_go (List.length a + f) m (a ++ r) = a ++ re_sub_go f m r.
Proof.
  induction a as [|c a IH]; simpl; [reflexivity|].
  destruct (m (c :: a ++ r)); [discriminate|]. intros H. now rewrite IH.
Qed.

(** Matching at the prefix of [a ++ r2] is no more frequent than at the
    prefix of [a ++ r1] when every non-empty [x] that misses [r1] misses
    [r2]. *)
Lemma nomatch_transfer (m : text -> option (text * text)) (a r1 r2 : text) :
  (forall x, x <> [] -> m (x ++ r1) = None -> m (x ++ r2) = None) ->
  nomatch m (a ++ r1) = true -> nomatch_before m a r2 = true.
Proof.
  intros Hx. induction a as [|c a IH]; simpl; [auto|].
  destruct (m (c :: a ++ r1)) eqn:E; [discriminate|]. intros H.
  pose proof (Hx (c :: a) ltac:(discriminate) E) as E2. simpl in E2.
  rewrite E2. auto.
Qed.

Lemma split_first_app (c : ascii) (pre x : text) :
  ~ In c pre -> split_first c (pre ++ c :: x) = Some (pre, x).
Proof.
  induction pre as [|y pre IH]; simpl; intros H.
  - now rewrite Ascii.eqb_refl.
  - destruct (Ascii.eqb_spec y c) as [->|_]; [tauto|].
    rewrite IH; auto.
Qed.

Lemma split_first_none (c : ascii) (s : text) : ~ In c s -> split_first c s = None.
Proof.
  induction s as [|y s IH]; simpl; intros H; [reflexivity|].
  destruct (Ascii.eqb_spec y c) as [->|_]; [tauto|]. rewrite IH; auto.
Qed.

(** The group of the search is the text from the first ['{'] to the last
    ['}']. *)
Lemma search_brace_group_app (pre mid post : text) :
  ~ In "{"%char pre -> ~ In "}"%char post ->
  search_brace_group (pre ++ "{"%char :: mid ++ "}"%char :: post)
  = Some ("{"%char :: mid ++ ["}"%char]).
Proof.
  intros Hpre Hpost. unfold search_brace_group.
  rewrite split_first_app by exact Hpre.
  rewrite rev_app_distr. simpl. rewrite <- app_assoc. simpl.
  rewrite split_first_app.
  - now rewrite rev_involutive.
  - intros H. apply Hpost. now apply in_rev.
Qed.

Lemma search_brace_group_none (s : text) :
  ~ In "{"%char s -> search_brace_group s = None.
Proof. intros H. unfold search_brace_group. now rewrite split_first_none. Qed.

Lemma strip_braced (mid : text) :
  strip ("{"%char :: mid ++ ["}"%char]) = "{"%char :: mid ++ ["}"%char].
Proof.
  unfold strip, drop_space. simpl.
  rewrite rev_app_distr. simpl. rewrite rev_app_distr. simpl.
  now rewrite rev_involutive.
Qed.

(** A braced candidate free of fences and of trailing commas goes to
    [json.loads] unchanged. *)
Lemma candidate_of_group (raw mid : text) :
  let g := "{"%char :: mid ++ ["}"%char] in
  search_brace_group raw = Some g ->
  occurs ticks g = false -> nomatch comma_match g = true ->
  candidate raw = g.
Proof.
  intros g Hg Ht Hc. unfold candidate. rewrite Hg.
  rewrite (re_sub_nomatch fence_match g) by now apply nomatch_fence.
  unfold g. rewrite strip_braced. now apply re_sub_nomatch.
Qed.

(** A comma put into a text cannot create a fence. *)
Lemma occurs_ticks_insert_comma (a r : text) :
  occurs ticks (a ++ r) = false -> occurs ticks (a ++ ","%char :: r) = false.
Proof.
  intros H. destruct (occurs ticks (a ++ ","%char :: r)) eqn:E; [|reflexivity].
  exfalso. apply occurs_spec in E as (y & z & E).
  assert (Hin : forall l l', ticks <> l ++ ","%char :: l').
  { intros l l' Ht. assert (In ","%char ticks) as Hi
      by (rewrite Ht; apply in_or_app; right; now left).
    simpl in Hi. intuition discriminate. }
  assert (occurs ticks (a ++ r) = true); [|congruence].
  apply occurs_spec.
  apply app_eq_app in E as (l & [[-> E] | [-> E]]).
  - apply app_eq_app in E as (l2 & [[E1 E2] | [-> ->]]).
    + destruct l2 as [|x l2].
      * rewrite app_nil_r in E1. subst l. simpl in E2. subst z.
        exists y, r. now rewrite <- app_assoc.
      * simpl in E2. injection E2 as <- _. exfalso. exact (Hin l l2 E1).
    + exists y, (l2 ++ r). now rewrite <- !app_assoc.
  - destruct l as [|x l].
    + simpl in E. discriminate E.
    + simpl in E. injection E as _ ->. exists (a ++ l), z. now rewrite <- app_assoc.
Qed.

Lemma closer_not_space (c : ascii) : is_closer c = true -> is_space c = false.
Proof.
  unfold is_closer. intros H. apply orb_true_iff in H as [H|H];
  apply Ascii.eqb_eq in H; now subst.
Qed.

(** The comma repair deletes a trailing comma before a closer, and nothing
    else, when the text without that comma has no trailing comma. *)
Lemma re_sub_comma_delete (a w b : text) (c : ascii) :
  is_closer c = true -> forallb is_space w = true ->
  nomatch comma_match (a ++ w ++ c :: b) = true ->
  re_sub comma_match (a ++ ","%char :: w ++ c :: b) = a ++ w ++ c :: b.
Proof.
  intros Hc Hw Hn.
  assert (Hspan : span_space (w ++ c :: b) = (w, c :: b))
    by (apply span_space_app; [exact Hw | now apply closer_not_space]).
  unfold re_sub. rewrite length_app.
  rewrite re_sub_go_app.
  - simpl. rewrite Hspan, Hc.
    rewrite re_sub_go_nomatch.
    + now rewrite <- app_assoc.
    + apply (nomatch_app_r _ (a ++ w ++ [c])). now rewrite <- !app_assoc.
  - apply (nomatch_transfer _ _ (w ++ c :: b)); [|exact Hn].
    intros x Hx Hm. destruct x as [|y x']; [congruence|].
    simpl in *. destruct (Ascii.eqb y ",") eqn:Ey; [|reflexivity].
    destruct (spaces_or_break x') as [Hs | (sp & z & x'' & -> & Hsp & Hz)].
    + rewrite span_space_app by (auto; reflexivity). reflexivity.
    + rewrite <- !app_assoc in *. simpl in *.
      rewrite span_space_app in * by auto.
      destruct (is_closer z); [discriminate|reflexivity].
Qed.

Lemma braced_insert_comma (a w b mid : text) (c : ascii) :
  is_closer c = true -> forallb is_space w = true ->
  a ++ w ++ c :: b = "{"%char :: mid ++ ["}"%char] ->
  exists mid', a ++ ","%char :: w ++ c :: b = "{"%char :: mid' ++ ["}"%char].
Proof.
  intros Hc Hw E. destruct a as [|x a'].
  - exfalso. destruct w as [|x w']; simpl in E; injection E as E1 _; subst.
    + vm_compute in Hc. discriminate Hc.
    + simpl in Hw. discriminate Hw.
  - simpl in E. injection E as -> E.
    destruct (exists_last (l := c :: b) ltac:(discriminate)) as (l & y & Hl).
    rewrite Hl in E. rewrite !app_assoc in E.
    apply app_inj_tail in E as [_ ->].
    exists (a' ++ ","%char :: w ++ l). simpl. rewrite Hl.
    rewrite <- !app_assoc. simpl. now rewrite <- !app_assoc.
Qed.

(** ** Lemmas on [json.dumps] and [json.loads] *)

Lemma digit_char_val (d : Z) : 0 <= d <= 9 -> digit_val (digit_char d) = d.
Proof.
  intros Hd. unfold digit_val, digit_char, code.
  rewrite Ascii.nat_ascii_embedding by lia. lia.
Qed.

Lemma digit_char_digit (d : Z) : 0 <= d <= 9 -> is_digit (digit_char d) = true.
Proof.
  intros Hd. unfold is_digit, digit_char, code.
  rewrite Ascii.nat_ascii_embedding by lia.
  apply andb_true_intro; split; apply Nat.leb_le; lia.
Qed.

Lemma digit_val_range (c : ascii) : is_digit c = true -> 0 <= digit_val c <= 9.
Proof.
  unfold is_digit, digit_val. intros H.
  apply andb_true_iff in H as [H1 H2]. apply Nat.leb_le in H1, H2. lia.
Qed.

Lemma digits_value_fold (l : text) (a : Z) :
  fold_left (fun acc c => acc * 10 + digit_val c) l a
  = a * 10 ^ Z.of_nat (List.length l) + digits_value l.
Proof.
  revert a. induction l as [|c l IH]; intros a; [simpl; unfold digits_value; simpl; lia|].
  cbn [fold_left]. rewrite (IH (a * 10 + digit_val c)).
  change (digits_value (c :: l))
    with (fold_left (fun acc c0 => acc * 10 + digit_val c0) l (0 * 10 + digit_val c)).
  rewrite (IH (0 * 10 + digit_val c)).
  cbn [List.length]. rewrite Nat2Z.inj_succ, Z.pow_succ_r by lia. lia.
Qed.

Lemma digits_value_app (a b : text) :
  digits_value (a ++ b) = digits_value a * 10 ^ Z.of_nat (List.length b) + digits_value b.
Proof. unfold digits_value at 1. rewrite fold_left_app. apply digits_value_fold. Qed.

Lemma digits_value_cons (c : ascii) (l : text) :
  digits_value (c :: l) = digit_val c * 10 ^ Z.of_nat (List.length l) + digits_value l.
Proof. apply (digits_value_app [c] l). Qed.

Lemma digits_value_zeros (k : nat) (l : text) :
  digits_value (repeat "0"%char k ++ l) = digits_value l.
Proof.
  induction k as [|k IH]; simpl; [reflexivity|].
  rewrite digits_value_cons, IH. reflexivity.
Qed.

Lemma digits_value_bound (l : text) :
  all_digits l -> 0 <= digits_value l < 10 ^ Z.of_nat (List.length l).
Proof.
  induction l as [|c l IH]; intros H; [unfold digits_value; simpl; lia|].
  inversion H as [|? ? Hc Hl]; subst. rewrite digits_value_cons.
  specialize (IH Hl). apply digit_val_range in Hc.
  simpl List.length. rewrite Nat2Z.inj_succ, Z.pow_succ_r by lia. nia.
Qed.

Lemma digits_go_spec (f : nat) (n : Z) (acc : text) :
  (0 < f)%nat -> 0 <= n < 10 ^ Z.of_nat f ->
  exists c ds, digits_go f n acc = c :: ds ++ acc /\ all_digits (c :: ds) /\
    digits_value (c :: ds) = n /\ (c = "0"%char -> n = 0 /\ ds = []).
Proof.
  revert n acc. induction f as [|f IH]; intros n acc Hf Hn; [lia|].
  simpl. destruct (Z.ltb_spec n 10).
  - exists (digit_char (n mod 10)), []. rewrite Z.mod_small by lia.
    refine (conj eq_refl (conj _ (conj _ _))).
    + constructor; [apply digit_char_digit; lia|constructor].
    + unfold digits_value; simpl. rewrite digit_char_val by lia. reflexivity.
    + intros E. assert (digit_val (digit_char n) = 0) as V by (rewrite E; reflexivity).
      rewrite digit_char_val in V by lia. split; [exact V|reflexivity].
  - rewrite Nat2Z.inj_succ, Z.pow_succ_r in Hn by lia.
    destruct (IH (n / 10) (digit_char (n mod 10) :: acc)) as (c & ds & E & D & V & Z0).
    { destruct f; [simpl in Hn; lia|lia]. }
    { split; [apply Z.div_pos; lia|]. apply Z.div_lt_upper_bound; lia. }
    exists c, (ds ++ [digit_char (n mod 10)]). rewrite E.
    refine (conj _ (conj _ (conj _ _))).
    + rewrite <- app_assoc. reflexivity.
    + change (all_digits ((c :: ds) ++ [digit_char (n mod 10)])).
      apply Forall_app. split; [exact D|].
      constructor; [apply digit_char_digit; pose proof (Z.mod_pos_bound n 10); lia|constructor].
    + change (digits_value ((c :: ds) ++ [digit_char (n mod 10)]) = n).
      rewrite digits_value_app, V.
      change (digits_value [digit_char (n mod 10)]) with (0 * 10 + digit_val (digit_char (n mod 10))).
      change (10 ^ Z.of_nat (List.length [digit_char (n mod 10)])) with 10.
      rewrite digit_char_val by (pose proof (Z.mod_pos_bound n 10); lia).
      pose proof (Z.div_mod n 10). lia.
    + intros Ec. destruct (Z0 Ec). assert (n / 10 >= 1) by (apply Z.le_ge, Z.div_le_lower_bound; lia). lia.
Qed.

Lemma size_nat_bound (p : positive) : Z.pos p < 2 ^ Z.of_nat (Pos.size_nat p).
Proof.
  induction p as [p IH|p IH|]; cbn [Pos.size_nat].
  - rewrite Nat2Z.inj_succ, Z.pow_succ_r, Pos2Z.inj_xI by lia. lia.
  - rewrite Nat2Z.inj_succ, Z.pow_succ_r, Pos2Z.inj_xO by lia. lia.
  - reflexivity.
Qed.

Lemma z_digits_spec (n : Z) :
  0 <= n ->
  exists c ds, z_digits n = c :: ds /\ all_digits (c :: ds) /\
    digits_value (c :: ds) = n /\ (c = "0"%char -> n = 0 /\ ds = []).
Proof.
  intros Hn. unfold z_digits.
  destruct (digits_go_spec (Pos.size_nat (Z.to_pos n)) n []) as (c & ds & E & H).
  - destruct (Z.to_pos n); simpl; lia.
  - split; [exact Hn|].
    destruct n as [|p|p]; [simpl; lia| |lia].
    pose proof (size_nat_bound p). simpl Z.to_pos.
    assert (2 ^ Z.of_nat (Pos.size_nat p) <= 10 ^ Z.of_nat (Pos.size_nat p))
      by (apply Z.pow_le_mono_l; lia). lia.
  - exists c, ds. rewrite E, app_nil_r. exact (conj eq_refl H).
Qed.

Lemma stops_nd (r : text) : stops r -> nd r.
Proof. destruct r as [|c r]; simpl; [auto|]. intros [-> | ->]; reflexivity. Qed.

Lemma span_digits_app (ds r : text) :
  all_digits ds -> nd r -> span_digits (ds ++ r) = (ds, r).
Proof.
  intros D N. induction D as [|c ds Hc D IH]; simpl.
  - destruct r as [|c r]; [reflexivity|]. simpl in N. simpl. now rewrite N.
  - rewrite Hc, IH. reflexivity.
Qed.

Lemma int_part_ok (c : ascii) (t r : text) :
  is_digit c = true -> c <> "0"%char -> all_digits t -> nd r ->
  int_part (c :: t ++ r) = Some (c :: t, r).
Proof.
  intros Hc H0 D N. unfold int_part.
  destruct (Ascii.eqb_spec c "0"); [contradiction|]. rewrite Hc, span_digits_app by assumption.
  reflexivity.
Qed.

Lemma frac_part_ok (fs r : text) :
  fs <> [] -> all_digits fs -> nd r -> frac_part ("."%char :: fs ++ r) = (Some fs, r).
Proof.
  intros Hne D N. destruct fs as [|d fs]; [contradiction|].
  inversion D as [|? ? Hd D']; subst. simpl. rewrite Hd, span_digits_app by assumption.
  reflexivity.
Qed.

Lemma frac_part_none (c : ascii) (r : text) :
  c <> "."%char -> frac_part (c :: r) = (None, c :: r).
Proof.
  intros Hc. unfold frac_part. destruct r as [|d r]; [reflexivity|].
  destruct (Ascii.eqb_spec c "."); [contradiction|]. reflexivity.
Qed.

Lemma exp_part_none (c : ascii) (r : text) :
  c <> "e"%char -> c <> "E"%char -> exp_part (c :: r) = (None, c :: r).
Proof.
  intros He HE. unfold exp_part.
  destruct (Ascii.eqb_spec c "e"); [contradiction|].
  destruct (Ascii.eqb_spec c "E"); [contradiction|]. reflexivity.
Qed.

Lemma frac_part_stop (r : text) : stops r -> frac_part r = (None, r).
Proof.
  destruct r as [|c r]; [reflexivity|]. intros [-> | ->]; apply frac_part_none; discriminate.
Qed.

Lemma exp_part_stop (r : text) : stops r -> exp_part r = (None, r).
Proof.
  destruct r as [|c r]; [reflexivity|]. intros [-> | ->]; apply exp_part_none; discriminate.
Qed.

Lemma num_sign_digit (c : ascii) (t : text) :
  is_digit c = true -> num_sign (c :: t) = (false, c :: t).
Proof.
  intros Hc. unfold num_sign. destruct (Ascii.eqb_spec c "-") as [->|]; [discriminate|].
  reflexivity.
Qed.

Lemma num_sign_signed (neg : bool) (c : ascii) (t : text) :
  is_digit c = true ->
  num_sign ((if neg then ["-"%char] else []) ++ c :: t) = (neg, c :: t).
Proof. intros Hc. destruct neg; [reflexivity|]. now apply num_sign_digit. Qed.

Lemma pad2_spec (ds : text) :
  ds <> [] -> all_digits ds ->
  pad2 ds <> [] /\ all_digits (pad2 ds) /\ digits_value (pad2 ds) = digits_value ds.
Proof.
  intros Hne D. destruct ds as [|c [|d ds]]; [contradiction| |].
  - simpl. split; [discriminate|]. split; [constructor; [reflexivity|exact D]|].
    rewrite (digits_value_cons "0"%char). reflexivity.
  - simpl. split; [discriminate|]. split; [exact D|reflexivity].
Qed.

Lemma exp_part_ok (x : Z) (r : text) :
  nd r ->
  exp_part ("e"%char :: (if x <? 0 then "-"%char else "+"%char)
                     :: pad2 (z_digits (Z.abs x)) ++ r) = (Some x, r).
Proof.
  intros N. destruct (z_digits_spec (Z.abs x)) as (c & ds & E & D & V & _); [lia|].
  rewrite E. destruct (pad2_spec (c :: ds)) as (Hne & D' & V'); [discriminate|exact D|].
  destruct (pad2 (c :: ds)) as [|p ps] eqn:Ep; [contradiction|].
  unfold exp_part. cbn [Ascii.eqb orb].
  destruct (Z.ltb_spec x 0).
  - change (match span_digits ((p :: ps) ++ r) with
            | ([], _) => (None, "e"%char :: "-"%char :: (p :: ps) ++ r)
            | (es, r0) => (Some (-1 * digits_value es), r0) end = (Some x, r)).
    rewrite span_digits_app by assumption. rewrite V', V. f_equal. f_equal. lia.
  - change (match span_digits ((p :: ps) ++ r) with
            | ([], _) => (None, "e"%char :: "+"%char :: (p :: ps) ++ r)
            | (es, r0) => (Some (1 * digits_value es), r0) end = (Some x, r)).
    rewrite span_digits_app by assumption. rewrite V', V. f_equal. f_equal. lia.
Qed.

Lemma norm_dec_shift (k fuel : nat) (m e : Z) :
  m mod 10 <> 0 -> (k < fuel)%nat ->
  norm_dec fuel (m * 10 ^ Z.of_nat k) (e - Z.of_nat k) = (m, e).
Proof.
  intros Hm. revert fuel e. induction k as [|k IH]; intros fuel e Hk.
  - destruct fuel as [|f]; [lia|]. simpl. rewrite Z.mul_1_r, Z.sub_0_r.
    destruct (Z.eqb_spec m 0) as [->|]; [exfalso; apply Hm; reflexivity|].
    destruct (Z.eqb_spec (m mod 10) 0); [lia|]. reflexivity.
  - destruct fuel as [|f]; [lia|]. cbn [norm_dec].
    rewrite Nat2Z.inj_succ, Z.pow_succ_r by lia.
    assert (m <> 0) by (intros ->; apply Hm; reflexivity).
    assert (10 ^ Z.of_nat k > 0) by (apply Z.lt_gt, Z.pow_pos_nonneg; lia).
    destruct (Z.eqb_spec (m * (10 * 10 ^ Z.of_nat k)) 0); [nia|].
    replace (m * (10 * 10 ^ Z.of_nat k)) with ((m * 10 ^ Z.of_nat k) * 10) by ring.
    rewrite Z.mod_mul, Z.div_mul by lia. cbn [Z.eqb].
    replace (e - Z.succ (Z.of_nat k) + 1) with (e - Z.of_nat k) by lia.
    apply IH. lia.
Qed.

Lemma match_number_int (z : Z) (r : text) :
  stops r -> match_number (int_repr z ++ r) = Some (JInt z, r).
Proof.
  intros Hr. unfold int_repr.
  destruct (z_digits_spec (Z.abs z)) as (c & ds & E & D & V & Z0); [lia|].
  inversion D as [|? ? Hc Dt]; subst.
  assert (Hi : forall neg : bool,
    match_number ((if neg then ["-"%char] else []) ++ c :: ds ++ r)
    = Some (JInt ((if neg then -1 else 1) * Z.abs z), r)).
  { intros neg. unfold match_number. rewrite num_sign_signed by assumption.
    cbv beta iota zeta.
    destruct (Ascii.eqb_spec c "0") as [->|Hc0].
    - destruct (Z0 eq_refl) as [Ez ->]. rewrite app_nil_l. change (int_part ("0"%char :: r)) with (Some (["0"%char], r)).
      cbv beta iota zeta. rewrite frac_part_stop, exp_part_stop by exact Hr.
      cbv beta iota zeta. rewrite Ez. reflexivity.
    - rewrite int_part_ok by (auto using stops_nd).
      cbv beta iota zeta. rewrite frac_part_stop, exp_part_stop by exact Hr.
      cbv beta iota zeta. rewrite V. reflexivity. }
  destruct (Z.ltb_spec z 0).
  - rewrite Z.abs_neq in E by lia. rewrite E.
    etransitivity; [exact (Hi true)|]. cbv iota. repeat f_equal. lia.
  - rewrite Z.abs_eq in E by lia. rewrite E.
    etransitivity; [exact (Hi false)|]. cbv iota. repeat f_equal. lia.
Qed.

Lemma match_number_float_of (s s1 ids r1 r2 r3 fs : text) (neg : bool) (ex : option Z)
      (f : pyfloat) :
  num_sign s = (neg, s1) -> int_part s1 = Some (ids, r1) ->
  (frac_part r1 = (Some fs, r2) \/ (frac_part r1 = (None, r2) /\ fs = [] /\ ex <> None)) ->
  exp_part r2 = (ex, r3) ->
  mk_float ((if neg then -1 else 1) * digits_value (ids ++ fs))
           (match ex with Some x => x | None => 0 end - Z.of_nat (List.length fs))
           (List.length (ids ++ fs)) = f ->
  match_number s = Some (JFloat f, r3).
Proof.
  intros H1 H2 H3 H4 H5. unfold match_number. rewrite H1. cbv beta iota zeta.
  rewrite H2. cbv beta iota zeta.
  destruct H3 as [H3|(H3 & -> & Hex)]; rewrite H3; cbv beta iota zeta; rewrite H4;
    cbv beta iota zeta.
  - rewrite <- H5. destruct ex; reflexivity.
  - destruct ex as [x|]; [|contradiction]. rewrite <- H5. reflexivity.
Qed.

Lemma match_number_float_exp (s s1 ids r1 r2 r3 : text) (neg : bool) (x : Z)
      (f : pyfloat) :
  num_sign s = (neg, s1) -> int_part s1 = Some (ids, r1) ->
  frac_part r1 = (None, r2) -> exp_part r2 = (Some x, r3) ->
  mk_float ((if neg then -1 else 1) * digits_value (ids ++ []))
           (x - Z.of_nat (List.length (@nil ascii))) (List.length (ids ++ [])) = f ->
  match_number s = Some (JFloat f, r3).
Proof.
  intros H1 H2 H3 H4 H5. apply (match_number_float_of s s1 ids r1 r2 r3 [] neg (Some x));
    auto. right. repeat split; [exact H3|discriminate].
Qed.

Lemma mk_float_ok (m e dv E : Z) (K fuel : nat) :
  m mod 10 <> 0 -> (K < fuel)%nat -> dv = Z.abs m * 10 ^ Z.of_nat K -> E = e - Z.of_nat K ->
  mk_float ((if m <? 0 then -1 else 1) * dv) E fuel = FDec m e.
Proof.
  intros Hm HK -> ->. unfold mk_float.
  replace ((if m <? 0 then -1 else 1) * (Z.abs m * 10 ^ Z.of_nat K)) with (m * 10 ^ Z.of_nat K)
    by (destruct (Z.ltb_spec m 0); lia).
  rewrite norm_dec_shift by assumption. reflexivity.
Qed.

Lemma all_digits_zeros (k : nat) : all_digits (repeat "0"%char k).
Proof. induction k; constructor; auto. Qed.

Lemma all_digits_app (a b : text) : all_digits a -> all_digits b -> all_digits (a ++ b).
Proof. intros; apply Forall_app; auto. Qed.

Lemma nd_dot (r : text) : nd ("."%char :: r).
Proof. reflexivity. Qed.

Lemma nd_e (r : text) : nd ("e"%char :: r).
Proof. reflexivity. Qed.

Lemma int_part_ok2 (c : ascii) (t1 t2 r : text) :
  is_digit c = true -> c <> "0"%char -> all_digits t1 -> all_digits t2 -> nd r ->
  int_part (c :: t1 ++ t2 ++ r) = Some (c :: t1 ++ t2, r).
Proof.
  intros. rewrite app_assoc. apply int_part_ok; auto using all_digits_app.
Qed.

Lemma match_number_float (m e : Z) (r : text) :
  normalized m e = true -> stops r ->
  match_number (repr_dec m e ++ r) = Some (JFloat (FDec m e), r).
Proof.
  intros Hn Hr. unfold normalized in Hn. unfold repr_dec.
  destruct (Z.eqb_spec m 0) as [->|Hm0].
  - apply Z.eqb_eq in Hn. subst e.
    apply (match_number_float_of _ ("0"%char :: "."%char :: "0"%char :: r) ["0"%char]
             ("."%char :: "0"%char :: r) r r ["0"%char] false None).
    + reflexivity.
    + reflexivity.
    + left. apply (frac_part_ok ["0"%char] r); [discriminate|constructor; auto|now apply stops_nd].
    + now apply exp_part_stop.
    + reflexivity.
  - apply negb_true_iff, Z.eqb_neq in Hn.
    destruct (z_digits_spec (Z.abs m)) as (c & t & Eds & D & V & Z0); [lia|].
    cbv zeta. rewrite Eds.
    assert (Hc0 : c <> "0"%char) by (intros E; destruct (Z0 E); lia).
    inversion D as [|? ? Hc Dt]; subst.
    set (k := Z.of_nat (List.length (c :: t))).
    assert (Hk : k = 1 + Z.of_nat (List.length t)) by (unfold k; simpl List.length; lia).
    rewrite <- app_assoc.
    destruct ((k + e <=? -4) || (16 <? k + e)) eqn:Hx.
    { cbn [firstn skipn]. destruct t as [|d t'].
      - replace (1 <? k) with false by (symmetry; apply Z.ltb_ge; cbn [List.length] in Hk; lia).
        rewrite <- ?app_assoc. eapply match_number_float_exp.
        + apply num_sign_signed; exact Hc.
        + apply (int_part_ok c []); [exact Hc|exact Hc0|constructor|reflexivity].
        + apply frac_part_none; discriminate.
        + apply exp_part_ok. now apply stops_nd.
        + apply (mk_float_ok m e _ _ 0); [exact Hn|simpl; lia| |rewrite Hk; cbn [List.length Z.of_nat]; lia].
          rewrite app_nil_r, V. simpl. lia.
      - replace (1 <? k) with true by (symmetry; apply Z.ltb_lt; cbn [List.length] in Hk; lia).
        rewrite <- ?app_assoc. eapply match_number_float_of.
        + apply num_sign_signed; exact Hc.
        + apply (int_part_ok c []); [exact Hc|exact Hc0|constructor|reflexivity].
        + left. apply (frac_part_ok (d :: t')); [discriminate|exact Dt|reflexivity].
        + apply exp_part_ok. now apply stops_nd.
        + apply (mk_float_ok m e _ _ 0); [exact Hn|simpl; lia| |rewrite Hk; cbn [List.length Z.of_nat]; lia].
          simpl app. rewrite V. simpl. lia. }
    destruct (Z.leb_spec (k + e) 0) as [Hle|Hgt].
    { rewrite <- ?app_assoc. eapply match_number_float_of.
      + apply num_sign_signed; reflexivity.
      + reflexivity.
      + left. rewrite app_assoc. apply frac_part_ok.
        * intros E. apply app_eq_nil in E as [_ E]. discriminate.
        * apply all_digits_app; [apply all_digits_zeros|exact D].
        * now apply stops_nd.
      + now apply exp_part_stop.
      + apply (mk_float_ok m e _ _ 0); [exact Hn|simpl; lia| |].
        * cbn [app]. rewrite (digits_value_cons "0"%char).
          change (repeat "0"%char (Z.to_nat (- (k + e))) ++ c :: t)
            with (repeat "0"%char (Z.to_nat (- (k + e))) ++ (c :: t)).
          rewrite digits_value_zeros, V. change (digit_val "0"%char) with 0. simpl. lia.
        * rewrite length_app, repeat_length. cbn [List.length]. lia. }
    destruct (Z.leb_spec k (k + e)) as [Hke|Hke].
    { rewrite <- ?app_assoc. eapply match_number_float_of.
      + apply num_sign_signed; exact Hc.
      + apply int_part_ok2; [exact Hc|exact Hc0|exact Dt|apply all_digits_zeros|reflexivity].
      + left. apply (frac_part_ok ["0"%char] r); [discriminate|constructor; auto|].
        now apply stops_nd.
      + now apply exp_part_stop.
      + apply (mk_float_ok m e _ _ (S (Z.to_nat (k + e - k)))); [exact Hn| | |].
        * rewrite length_app. cbn [List.length]. rewrite length_app, repeat_length. lia.
        * change (c :: t ++ repeat "0"%char (Z.to_nat (k + e - k)))
            with ((c :: t) ++ repeat "0"%char (Z.to_nat (k + e - k))).
          rewrite digits_value_app, digits_value_app, V.
          pose proof (digits_value_zeros (Z.to_nat (k + e - k)) []) as Z1.
          rewrite app_nil_r in Z1. rewrite Z1. rewrite repeat_length.
          change (digits_value ["0"%char]) with 0.
          change (Z.of_nat (List.length ["0"%char])) with 1.
          change (digits_value []) with 0.
          rewrite Nat2Z.inj_succ, Z.pow_succ_r by lia. lia.
        * cbn [List.length]. lia. }
    destruct (Z.to_nat (k + e)) as [|d'] eqn:Ed; [lia|].
    cbn [firstn skipn]. rewrite <- ?app_assoc.
    pose proof (firstn_skipn d' t) as Ft.
    assert (Dft : all_digits (firstn d' t) /\ all_digits (skipn d' t)).
    { unfold all_digits in *. rewrite <- Ft in Dt. apply Forall_app in Dt. exact Dt. }
    assert (Ls : List.length (skipn d' t) = (List.length t - d')%nat) by apply length_skipn.
    eapply match_number_float_of.
    + apply num_sign_signed; exact Hc.
    + apply int_part_ok; [exact Hc|exact Hc0|apply Dft|reflexivity].
    + left. apply frac_part_ok; [|apply Dft|now apply stops_nd].
      intros E. rewrite E in Ls. simpl in Ls. lia.
    + now apply exp_part_stop.
    + apply (mk_float_ok m e _ _ 0); [exact Hn|simpl; lia| |].
      * change ((c :: firstn d' t) ++ skipn d' t) with (c :: firstn d' t ++ skipn d' t).
        rewrite Ft, V. simpl. lia.
      * rewrite Ls. lia.
Qed.

Lemma hex_char_val (d : Z) : 0 <= d < 16 -> hex_val (hex_char d) = Some d.
Proof.
  intros H.
  assert (d = 0 \/ d = 1 \/ d = 2 \/ d = 3 \/ d = 4 \/ d = 5 \/ d = 6 \/ d = 7 \/ d = 8 \/
          d = 9 \/ d = 10 \/ d = 11 \/ d = 12 \/ d = 13 \/ d = 14 \/ d = 15) by lia.
  repeat match goal with
         | H : _ \/ _ |- _ => destruct H as [->|H]
         | H : d = _ |- _ => subst d
         end; reflexivity.
Qed.

Lemma hex_val_range (c : ascii) (d : Z) : hex_val c = Some d -> 0 <= d < 16.
Proof.
  unfold hex_val. intros H.
  repeat match type of H with
         | context [if ?b then _ else _] =>
             let E := fresh "E" in destruct b eqn:E; [|]
         end; try discriminate; injection H as <-;
  repeat match goal with
         | E : (_ && _)%bool = true |- _ => apply andb_true_iff in E as [? ?]
         end;
  repeat match goal with
         | E : Nat.leb _ _ = true |- _ => apply Nat.leb_le in E
         end; lia.
Qed.

Lemma hex4_range (a b c d : ascii) (u : Z) : hex4 a b c d = Some u -> 0 <= u < 65536.
Proof.
  unfold hex4.
  destruct (hex_val a) eqn:Ea; [|discriminate]; destruct (hex_val b) eqn:Eb; [|discriminate];
  destruct (hex_val c) eqn:Ec; [|discriminate]; destruct (hex_val d) eqn:Ed; [|discriminate].
  apply hex_val_range in Ea, Eb, Ec, Ed. intros H. injection H as <-. lia.
Qed.

Lemma hex4_u_escape (n : Z) :
  0 <= n < 65536 ->
  hex4 (hex_char (n / 4096)) (hex_char ((n / 256) mod 16)) (hex_char ((n / 16) mod 16))
       (hex_char (n mod 16)) = Some n.
Proof.
  intros Hn. unfold hex4.
  rewrite !hex_char_val by (try apply Z.mod_pos_bound; try split;
                             try apply Z.div_pos; try apply Z.div_lt_upper_bound; lia).
  f_equal.
  replace (n / 4096) with (n / 16 / 16 / 16) by (rewrite !Z.div_div by lia; reflexivity).
  replace (n / 256) with (n / 16 / 16) by (rewrite !Z.div_div by lia; reflexivity).
  pose proof (Z.div_mod (n / 16 / 16) 16). pose proof (Z.div_mod (n / 16) 16).
  pose proof (Z.div_mod n 16). lia.
Qed.

Lemma lor_small (a x : Z) :
  0 <= a -> 0 <= x < 1024 -> Z.lor (a * 1024) x = a * 1024 + x.
Proof.
  intros Ha Hx.
  assert (Hl : Z.land (a * 1024) x = 0).
  { change 1024 with (2 ^ 10).
    assert (Ex : x = Z.land x (Z.ones 10))
      by (rewrite Z.land_ones by lia; rewrite Z.mod_small; [reflexivity|lia]).
    rewrite Ex, (Z.land_comm x), Z.land_assoc, Z.land_ones by lia.
    rewrite Z.mod_mul by lia. apply Z.land_0_l. }
  rewrite <- Z.lxor_lor by exact Hl. rewrite Z.add_nocarry_lxor by exact Hl. reflexivity.
Qed.

Lemma surrogate_parts (n : Z) :
  0 <= n < 1048576 ->
  Z.lor 55296 (Z.land (Z.shiftr n 10) 1023) = 55296 + n / 1024 /\
  Z.lor 56320 (Z.land n 1023) = 56320 + n mod 1024.
Proof.
  intros Hn. change 1023 with (Z.ones 10).
  rewrite !Z.land_ones, Z.shiftr_div_pow2 by lia. change (2 ^ 10) with 1024.
  rewrite (Z.mod_small (n / 1024)) by (split; [apply Z.div_pos|apply Z.div_lt_upper_bound]; lia).
  split.
  - change 55296 with (54 * 1024). apply lor_small; [lia|].
    split; [apply Z.div_pos|apply Z.div_lt_upper_bound]; lia.
  - change 56320 with (55 * 1024). apply lor_small; [lia|]. apply Z.mod_pos_bound. lia.
Qed.

Lemma escape_cp_cases (v : Z) :
  0 <= v <= 1114111 ->
  (exists e, escape_cp v = [bslash; e] /\ simple_escape e = Some v /\ e <> "u"%char)
  \/ (escape_cp v = [ascii_of_nat (Z.to_nat v)] /\ 32 <= v <= 126 /\ v <> 34 /\ v <> 92)
  \/ (escape_cp v = u_escape v /\ v < 65536)
  \/ (65536 <= v /\
      escape_cp v = u_escape (55296 + (v - 65536) / 1024)
                    ++ u_escape (56320 + (v - 65536) mod 1024)).
Proof.
  intros Hv. unfold escape_cp.
  destruct (Z.eqb_spec v 92) as [->|H92]; [left; exists bslash; split; [reflexivity|split; [reflexivity|discriminate]]|].
  destruct (Z.eqb_spec v 34) as [->|H34]; [left; exists dquote; split; [reflexivity|split; [reflexivity|discriminate]]|].
  destruct (Z.eqb_spec v 8) as [->|H8]; [left; exists "b"%char; split; [reflexivity|split; [reflexivity|discriminate]]|].
  destruct (Z.eqb_spec v 12) as [->|H12]; [left; exists "f"%char; split; [reflexivity|split; [reflexivity|discriminate]]|].
  destruct (Z.eqb_spec v 10) as [->|H10]; [left; exists "n"%char; split; [reflexivity|split; [reflexivity|discriminate]]|].
  destruct (Z.eqb_spec v 13) as [->|H13]; [left; exists "r"%char; split; [reflexivity|split; [reflexivity|discriminate]]|].
  destruct (Z.eqb_spec v 9) as [->|H9]; [left; exists "t"%char; split; [reflexivity|split; [reflexivity|discriminate]]|].
  destruct ((32 <=? v) && (v <=? 126)) eqn:Hp.
  { apply andb_true_iff in Hp as [H1 H2]. apply Z.leb_le in H1, H2.
    right; left. auto. }
  destruct (Z.ltb_spec v 65536); [right; right; left; auto|].
  right; right; right. split; [lia|]. cbv zeta.
  destruct (surrogate_parts (v - 65536)) as [-> ->]; [lia|]. reflexivity.
Qed.

(** Absence of a [\uXXXX] escape of a low surrogate at the head of a text. *)
Lemma scanstring_u_nojoin (h1 h2 h3 h4 : ascii) (u : Z) (t : text) :
  hex4 h1 h2 h3 h4 = Some u -> (is_high_surrogate u = true -> no_low_escape t) ->
  scanstring (bslash :: "u"%char :: h1 :: h2 :: h3 :: h4 :: t) = cons_str u (scanstring t).
Proof.
  intros Hh Hn. cbn [scanstring Ascii.eqb Bool.eqb bslash dquote andb]. rewrite Hh.
  destruct (is_high_surrogate u) eqn:Hu; [|reflexivity].
  specialize (Hn eq_refl).
  destruct t as [|b [|x [|g1 [|g2 [|g3 [|g4 [|y t3]]]]]]]; try reflexivity.
  destruct (Ascii.eqb_spec b bslash) as [->|]; [|reflexivity].
  destruct (Ascii.eqb_spec x "u") as [->|]; [|reflexivity]. cbn [andb].
  destruct (hex4 g1 g2 g3 g4) as [w|] eqn:Hw.
  - rewrite (Hn g1 g2 g3 g4 (y :: t3) w eq_refl Hw). reflexivity.
  - cbn [scanstring Ascii.eqb Bool.eqb bslash dquote andb]. rewrite Hw. reflexivity.
Qed.

Lemma scanstring_u_join (h1 h2 h3 h4 g1 g2 g3 g4 : ascii) (u w : Z) (t3 : text) :
  hex4 h1 h2 h3 h4 = Some u -> is_high_surrogate u = true ->
  hex4 g1 g2 g3 g4 = Some w -> is_low_surrogate w = true -> t3 <> [] ->
  scanstring (bslash :: "u"%char :: h1 :: h2 :: h3 :: h4 ::
              bslash :: "u"%char :: g1 :: g2 :: g3 :: g4 :: t3)
  = cons_str (join_surrogates u w) (scanstring t3).
Proof.
  intros Hh Hu Hg Hw Ht. cbn [scanstring Ascii.eqb Bool.eqb bslash dquote andb].
  rewrite Hh, Hu. destruct t3 as [|y t3]; [contradiction|].
  cbn [Ascii.eqb Bool.eqb andb]. rewrite Hg, Hw. reflexivity.
Qed.

Lemma scanstring_simple (e : ascii) (u : Z) (t : text) :
  simple_escape e = Some u -> e <> "u"%char ->
  scanstring (bslash :: e :: t) = cons_str u (scanstring t).
Proof.
  intros He Hu. cbn [scanstring Ascii.eqb Bool.eqb bslash dquote andb].
  destruct (Ascii.eqb_spec e "u"); [contradiction|]. rewrite He. reflexivity.
Qed.

Lemma scanstring_raw (c : ascii) (t : text) :
  c <> dquote -> c <> bslash -> (32 <= code c)%nat ->
  scanstring (c :: t) = cons_str (Z.of_nat (code c)) (scanstring t).
Proof.
  intros Hq Hb Hc. cbn [scanstring].
  destruct (Ascii.eqb_spec c dquote); [contradiction|].
  destruct (Ascii.eqb_spec c bslash); [contradiction|].
  destruct (Nat.ltb_spec (code c) 32); [lia|]. reflexivity.
Qed.

Lemma u_escape_hex (n : Z) (t : text) :
  0 <= n < 65536 ->
  exists h1 h2 h3 h4, u_escape n ++ t = bslash :: "u"%char :: h1 :: h2 :: h3 :: h4 :: t
                      /\ hex4 h1 h2 h3 h4 = Some n.
Proof.
  intros Hn. eexists _, _, _, _. split; [reflexivity|]. apply hex4_u_escape. exact Hn.
Qed.

Lemma escape_no_low (v : Z) (t : text) :
  0 <= v <= 1114111 -> is_low_surrogate v = false -> no_low_escape (escape_cp v ++ t).
Proof.
  intros Hv Hl g1 g2 g3 g4 t3 w E Hw.
  destruct (escape_cp_cases v Hv) as [(e & Ee & _ & Hu)|[(Ee & Hr & H34 & H92)|[(Ee & Hs)|(Hs & Ee)]]];
    rewrite Ee in E.
  - injection E. intros _ He. contradiction (Hu He).
  - injection E as Eb _. exfalso. apply H92.
    assert (code (ascii_of_nat (Z.to_nat v)) = code bslash) by now rewrite Eb.
    unfold code in H. rewrite Ascii.nat_ascii_embedding in H by lia.
    change (nat_of_ascii bslash) with 92%nat in H. lia.
  - destruct (u_escape_hex v t) as (h1 & h2 & h3 & h4 & E' & Hh); [lia|].
    rewrite E' in E. injection E as -> -> -> -> _. rewrite Hh in Hw. injection Hw as <-. exact Hl.
  - rewrite <- app_assoc in E.
    destruct (u_escape_hex (55296 + (v - 65536) / 1024)
                (u_escape (56320 + (v - 65536) mod 1024) ++ t)) as (h1 & h2 & h3 & h4 & E' & Hh).
    { assert (0 <= (v - 65536) / 1024 < 1024)
        by (split; [apply Z.div_pos|apply Z.div_lt_upper_bound]; lia). lia. }
    rewrite E' in E. clear E'. remember (u_escape (56320 + (v - 65536) mod 1024) ++ t) as T eqn:ET. clear ET.
    injection E as -> -> -> -> _. rewrite Hh in Hw.
    apply (f_equal (fun o => match o with Some x => x | None => 0 end)) in Hw.
    cbv beta iota in Hw. subst w.
    assert ((v - 65536) / 1024 < 1024) by (apply Z.div_lt_upper_bound; lia).
    unfold is_low_surrogate. rewrite (proj2 (Z.leb_gt _ _)) by lia. reflexivity.
Qed.

Lemma str_wf_cons (u : Z) (s : pystr) :
  str_wf (u :: s) = true ->
  0 <= u <= 1114111 /\
  (forall v s', s = v :: s' -> is_high_surrogate u && is_low_surrogate v = false) /\
  str_wf s = true.
Proof.
  simpl. intros H. apply andb_true_iff in H as [H Hs].
  apply andb_true_iff in H as [H Ha]. apply andb_true_iff in H as [H1 H2].
  apply Z.leb_le in H1, H2. split; [lia|]. split; [|exact Hs].
  intros v s' ->. apply negb_true_iff in Ha. exact Ha.
Qed.

Lemma scanstring_encode (s : pystr) (rest : text) :
  str_wf s = true -> scanstring (flat_map escape_cp s ++ dquote :: rest) = Some (s, rest).
Proof.
  induction s as [|u s IH]; intros Hwf; [reflexivity|].
  destruct (str_wf_cons u s Hwf) as (Hu & Hadj & Hs). specialize (IH Hs).
  cbn [flat_map]. rewrite <- app_assoc.
  assert (Hnl : is_high_surrogate u = true -> no_low_escape (flat_map escape_cp s ++ dquote :: rest)).
  { intros Hh. destruct s as [|v s'].
    - intros g1 g2 g3 g4 t3 w E. discriminate E.
    - destruct (str_wf_cons v s' Hs) as (Hv & _ & _).
      specialize (Hadj v s' eq_refl). rewrite Hh in Hadj. cbn [andb] in Hadj.
      cbn [flat_map]. rewrite <- app_assoc. apply escape_no_low; assumption. }
  remember (flat_map escape_cp s ++ dquote :: rest) as T eqn:ET.
  assert (HTne : T <> []) by (rewrite ET; intros E; apply app_eq_nil in E as [_ E]; discriminate).
  clear ET.
  destruct (escape_cp_cases u Hu) as [(e & Ee & Hse & Heu)|[(Ee & Hr & H34 & H92)|[(Ee & Hs')|(Hs' & Ee)]]];
    rewrite Ee.
  - change ([bslash; e] ++ T) with (bslash :: e :: T).
    rewrite (scanstring_simple e u T Hse Heu), IH. reflexivity.
  - change ([ascii_of_nat (Z.to_nat u)] ++ T) with (ascii_of_nat (Z.to_nat u) :: T).
    assert (Hc : code (ascii_of_nat (Z.to_nat u)) = Z.to_nat u)
      by (unfold code; apply Ascii.nat_ascii_embedding; lia).
    rewrite scanstring_raw, IH, Hc.
    + cbn [cons_str]. rewrite Z2Nat.id by lia. reflexivity.
    + intros E. apply H34. apply (f_equal code) in E. rewrite Hc in E.
      change (code dquote) with 34%nat in E. lia.
    + intros E. apply H92. apply (f_equal code) in E. rewrite Hc in E.
      change (code bslash) with 92%nat in E. lia.
    + rewrite Hc. lia.
  - destruct (u_escape_hex u T) as (h1 & h2 & h3 & h4 & E' & Hh); [lia|].
    rewrite E', (scanstring_u_nojoin h1 h2 h3 h4 u T Hh Hnl), IH. reflexivity.
  - rewrite <- app_assoc.
    set (q := (u - 65536) / 1024). set (r := (u - 65536) mod 1024).
    assert (Hq : 0 <= q < 1024) by (split; [apply Z.div_pos|apply Z.div_lt_upper_bound]; lia).
    assert (Hr : 0 <= r < 1024) by (apply Z.mod_pos_bound; lia).
    destruct (u_escape_hex (56320 + r) T) as (g1 & g2 & g3 & g4 & E2 & Hg); [lia|].
    rewrite E2.
    destruct (u_escape_hex (55296 + q) (bslash :: "u"%char :: g1 :: g2 :: g3 :: g4 :: T))
      as (h1 & h2 & h3 & h4 & E1 & Hh); [lia|].
    rewrite E1. rewrite (scanstring_u_join h1 h2 h3 h4 g1 g2 g3 g4 (55296 + q) (56320 + r) T Hh).
    + rewrite IH. cbn [cons_str]. do 3 f_equal. unfold join_surrogates.
      pose proof (Z.div_mod (u - 65536) 1024). unfold q, r. lia.
    + unfold is_high_surrogate. apply andb_true_iff. split; apply Z.leb_le; lia.
    + exact Hg.
    + unfold is_low_surrogate. apply andb_true_iff. split; apply Z.leb_le; lia.
    + exact HTne.
Qed.

Lemma skip_ws_spaces (k : nat) (s : text) : skip_ws (repeat " "%char k ++ s) = skip_ws s.
Proof. induction k as [|k IH]; [reflexivity|]. exact IH. Qed.

Lemma skip_ws_nl_ind (k : nat) (s : text) : skip_ws (nl_ind k ++ s) = skip_ws s.
Proof. exact (skip_ws_spaces (2 * k) s). Qed.

Lemma skip_ws_nonws (c : ascii) (s : text) : is_json_ws c = false -> skip_ws (c :: s) = c :: s.
Proof. intros H. simpl. rewrite H. reflexivity. Qed.

Lemma digit_neq (c : ascii) (d : ascii) : is_digit c = true -> is_digit d = false -> c <> d.
Proof. intros Hc Hd ->. congruence. Qed.

Lemma digit_not_ws (c : ascii) : is_digit c = true -> is_json_ws c = false.
Proof.
  intros Hc. unfold is_json_ws.
  destruct (Ascii.eqb_spec c " ") as [->|]; [discriminate|].
  destruct (Ascii.eqb_spec c "009") as [->|]; [discriminate|].
  destruct (Ascii.eqb_spec c "010") as [->|]; [discriminate|].
  destruct (Ascii.eqb_spec c "013") as [->|]; [discriminate|]. reflexivity.
Qed.

Lemma match_number_head (s r : text) (v : json) :
  match_number s = Some (v, r) ->
  exists c t, s = c :: t /\ ((c = "-"%char /\ exists d t', t = d :: t' /\ is_digit d = true)
                             \/ is_digit c = true).
Proof.
  unfold match_number.
  assert (Hip : forall s1 x, int_part s1 = Some x ->
                 exists d t', s1 = d :: t' /\ is_digit d = true).
  { intros s1 x. unfold int_part. destruct s1 as [|d t']; [discriminate|].
    destruct (Ascii.eqb_spec d "0") as [->|]; [eauto|].
    destruct (is_digit d) eqn:Hd; [eauto|discriminate]. }
  destruct s as [|c t]; [simpl; intros H; discriminate|].
  unfold num_sign. destruct (Ascii.eqb_spec c "-") as [->|Hc].
  - destruct (int_part t) as [x|] eqn:Ei; [|discriminate]. intros _.
    exists "-"%char, t. split; [reflexivity|]. left. split; [reflexivity|]. eapply Hip; eauto.
  - destruct (int_part (c :: t)) as [x|] eqn:Ei; [|discriminate]. intros _.
    destruct (Hip _ _ Ei) as (d & t' & E & Hd). injection E as -> ->.
    exists d, t'. auto.
Qed.

Lemma strip_txt_neq (str rest : string) (a c : ascii) (t : text) :
  str = String a rest -> a <> c -> strip_prefix (txt str) (c :: t) = None.
Proof.
  intros -> Hac. cbn [txt list_ascii_of_string strip_prefix].
  destruct (Ascii.eqb_spec a c); [contradiction|reflexivity].
Qed.

Lemma strip_txt_eq (rest : string) (a : ascii) (t : text) :
  strip_prefix (txt (String a rest)) (a :: t) = strip_prefix (txt rest) t.
Proof. cbn [txt list_ascii_of_string strip_prefix]. rewrite Ascii.eqb_refl. reflexivity. Qed.

Lemma scan_once_other (n : nat) (c : ascii) (t : text) :
  c <> dquote -> c <> "{"%char -> c <> "["%char -> c <> "n"%char -> c <> "t"%char ->
  c <> "f"%char -> c <> "N"%char -> c <> "I"%char -> c <> "-"%char ->
  scan_once (S n) (c :: t)
  = match match_number (c :: t) with
    | Some (v, r) => Ok (v, r)
    | None => Raise JSONDecodeError
    end.
Proof.
  intros H1 H2 H3 H4 H5 H6 H7 H8 H9. cbn [scan_once].
  destruct (Ascii.eqb_spec c dquote); [contradiction|].
  destruct (Ascii.eqb_spec c "{"); [contradiction|].
  destruct (Ascii.eqb_spec c "["); [contradiction|].
  rewrite (strip_txt_neq "null" "ull" "n"), (strip_txt_neq "true" "rue" "t"),
    (strip_txt_neq "false" "alse" "f"), (strip_txt_neq "NaN" "aN" "N"),
    (strip_txt_neq "Infinity" "nfinity" "I"), (strip_txt_neq "-Infinity" "Infinity" "-");
    try reflexivity; congruence.
Qed.

Lemma scan_once_number (n : nat) (s r : text) (v : json) :
  match_number s = Some (v, r) -> scan_once (S n) s = Ok (v, r).
Proof.
  intros H. destruct (match_number_head s r v H) as (c & t & -> & Hc).
  destruct Hc as [(-> & d & t' & -> & Hd)|Hc].
  - change (scan_once (S n) ("-"%char :: d :: t'))
      with (match strip_prefix (txt "Infinity") (d :: t') with
            | Some r => Ok (JFloat FNegInf, r)
            | None => match match_number ("-"%char :: d :: t') with
                      | Some (v, r) => Ok (v, r)
                      | None => Raise JSONDecodeError
                      end
            end).
    rewrite (strip_txt_neq "Infinity" "nfinity" "I"); [|reflexivity|].
    + rewrite H. reflexivity.
    + apply not_eq_sym, digit_neq; [exact Hd|reflexivity].
  - rewrite scan_once_other; [rewrite H; reflexivity| | | | | | | | |];
      apply digit_neq; try exact Hc; reflexivity.
Qed.

Lemma scan_once_S_arr (n : nat) (s : text) :
  scan_once (S n) ("["%char :: s)
  = match skip_ws s with
    | d :: r => if (d =? "]")%char then Ok (JArr [], r) else parse_elements n [] (d :: r)
    | [] => Raise JSONDecodeError
    end.
Proof. reflexivity. Qed.

Lemma scan_once_S_obj (n : nat) (s : text) :
  scan_once (S n) ("{"%char :: s)
  = match skip_ws s with
    | d :: r => if (d =? "}")%char then Ok (JObj [], r) else parse_members n [] (d :: r)
    | [] => Raise JSONDecodeError
    end.
Proof. reflexivity. Qed.

Lemma scan_once_S_str (n : nat) (s : text) :
  scan_once (S n) (dquote :: s)
  = match scanstring s with
    | Some (cs, r) => Ok (JStr cs, r)
    | None => Raise JSONDecodeError
    end.
Proof. reflexivity. Qed.

Lemma parse_elements_S (n : nat) (acc : list json) (s : text) :
  parse_elements (S n) acc s
  = match scan_once n s with
    | Raise e => Raise e
    | Ok (v, r) =>
        match skip_ws r with
        | c :: r' =>
            if (c =? "]")%char then Ok (JArr (rev (v :: acc)), r')
            else if (c =? ",")%char then parse_elements n (v :: acc) (skip_ws r')
            else Raise JSONDecodeError
        | [] => Raise JSONDecodeError
        end
    end.
Proof. reflexivity. Qed.

Lemma parse_members_S_quote (n : nat) (acc : list (pystr * json)) (t : text) :
  parse_members (S n) acc (dquote :: t)
  = match scanstring t with
    | None => Raise JSONDecodeError
    | Some (k, r) =>
        match skip_ws r with
        | c2 :: r2 =>
            if (c2 =? ":")%char then
              match scan_once n (skip_ws r2) with
              | Raise e => Raise e
              | Ok (v, r3) =>
                  let acc' := dict_set acc k v in
                  match skip_ws r3 with
                  | c4 :: r4 =>
                      if (c4 =? "}")%char then Ok (JObj acc', r4)
                      else if (c4 =? ",")%char then parse_members n acc' (skip_ws r4)
                      else Raise JSONDecodeError
                  | [] => Raise JSONDecodeError
                  end
              end
            else Raise JSONDecodeError
        | [] => Raise JSONDecodeError
        end
    end.
Proof. reflexivity. Qed.

Lemma dict_set_new (d : list (pystr * json)) (k : pystr) (v : json) :
  ~ In k (map fst d) -> dict_set d k v = d ++ [(k, v)].
Proof.
  induction d as [|[k' v'] d IH]; intros Hn; [reflexivity|].
  simpl. destruct (list_eq_dec Z.eq_dec k k') as [->|]; [exfalso; apply Hn; now left|].
  rewrite IH; [reflexivity|]. intros H. apply Hn. now right.
Qed.

Lemma keys_nodup_spec (kvs : list (pystr * json)) :
  keys_nodup kvs = true -> NoDup (map fst kvs).
Proof.
  induction kvs as [|[k v] r IH]; simpl; intros H; [constructor|].
  apply andb_true_iff in H as [H1 H2]. constructor; [|auto].
  intros Hin. apply negb_true_iff in H1.
  apply in_map_iff in Hin as ([k' v'] & Ek & Hin). simpl in Ek. subst k'.
  assert (existsb (fun kv => pystr_eqb k (fst kv)) r = true) as Hc.
  { apply existsb_exists. exists (k, v'). split; [exact Hin|].
    unfold pystr_eqb. cbn [fst]. destruct (list_eq_dec Z.eq_dec k k); [reflexivity|contradiction]. }
  congruence.
Qed.

Lemma dumps_head_num (s : text) (v : json) :
  match_number (s ++ []) = Some (v, []) ->
  exists c t, s = c :: t /\ is_json_ws c = false /\ c <> "]"%char /\ c <> "}"%char.
Proof.
  rewrite app_nil_r. intros H. destruct (match_number_head _ _ _ H) as (c & t & -> & Hc).
  exists c, t. split; [reflexivity|].
  destruct Hc as [(-> & _)|Hc]; [split; [reflexivity|split; discriminate]|].
  split; [now apply digit_not_ws|]. split; apply digit_neq; auto.
Qed.

Lemma dumps_head (lvl : nat) (v : json) :
  wf v = true ->
  exists c t, dumps_at lvl v = c :: t /\ is_json_ws c = false /\ c <> "]"%char /\ c <> "}"%char.
Proof.
  intros Hw. destruct v as [|[]|z|[m e| | |]|s|[|x l]|[|[k x] kvs]];
    try (eexists _, _; split; [reflexivity|split; [reflexivity|split; discriminate]]).
  - apply (dumps_head_num (int_repr z) (JInt z)). apply match_number_int. exact I.
  - apply (dumps_head_num (repr_dec m e) (JFloat (FDec m e))).
    apply match_number_float; [exact Hw|exact I].
Qed.

Lemma skip_ws_dumps (lvl : nat) (v : json) (r : text) :
  wf v = true -> skip_ws (dumps_at lvl v ++ r) = dumps_at lvl v ++ r.
Proof.
  intros Hw. destruct (dumps_head lvl v Hw) as (c & t & E & Hc & _). rewrite E.
  cbn [app skip_ws]. rewrite Hc. reflexivity.
Qed.

Lemma txt_colon (r : text) : txt ": " ++ r = ":"%char :: " "%char :: r.
Proof. reflexivity. Qed.

Lemma skip_ws_space (r : text) : skip_ws (" "%char :: r) = skip_ws r.
Proof. reflexivity. Qed.

Lemma skip_ws_encode (k : pystr) (r : text) : skip_ws (encode_str k ++ r) = encode_str k ++ r.
Proof. reflexivity. Qed.

Lemma stops_nl (k : nat) (r : text) : stops (nl_ind k ++ r).
Proof. right. reflexivity. Qed.

Lemma parse_elements_ok (L lvl : nat) (rest : text) (l : list json) :
  forall x acc n, Forall RT (x :: l) -> forallb wf (x :: l) = true ->
  (S (size x) + list_sum (map (fun y => S (size y)) l) <= n)%nat ->
  parse_elements n acc
    (dumps_at L x ++ flat_map (fun y => ","%char :: nl_ind L ++ dumps_at L y) l
       ++ nl_ind lvl ++ "]"%char :: rest)
  = Ok (JArr (rev acc ++ x :: l), rest).
Proof.
  induction l as [|y l IH]; intros x acc n HF Hw Hn; (destruct n as [|n]; [lia|]);
    rewrite parse_elements_S; inversion HF as [|? ? RTx HFl]; subst;
    cbn [forallb] in Hw; apply andb_true_iff in Hw as [Hwx Hwl].
  - cbn [flat_map app]. rewrite (RTx Hwx L _ n (stops_nl _ _)) by lia.
    rewrite skip_ws_nl_ind. reflexivity.
  - cbn [flat_map]. rewrite <- !app_assoc. cbn [map] in Hn; change (list_sum (?a :: ?r)) with (a + list_sum r)%nat in Hn.
    rewrite (RTx Hwx L _ n) by (lia || (left; reflexivity)).
    cbn [app]. rewrite skip_ws_nonws by reflexivity. cbv iota.
    replace ((","%char =? "]"%char)%char) with false by reflexivity.
    replace ((","%char =? ","%char)%char) with true by reflexivity.
    cbv iota. rewrite <- app_assoc, skip_ws_nl_ind.
    apply andb_true_iff in Hwl as [Hwy Hwl].
    rewrite skip_ws_dumps by exact Hwy.
    rewrite (IH y (x :: acc) n HFl) by first [cbn [forallb]; rewrite Hwy, Hwl; reflexivity | lia].
    cbn [rev]. rewrite <- app_assoc. reflexivity.
Qed.

Lemma encode_str_app (k : pystr) (r : text) :
  encode_str k ++ r = dquote :: flat_map escape_cp k ++ dquote :: r.
Proof. unfold encode_str. cbn [app]. rewrite <- app_assoc. reflexivity. Qed.

Lemma parse_members_ok (L lvl : nat) (rest : text) (kvs : list (pystr * json)) :
  forall k x acc n,
  Forall (fun kv => RT (snd kv)) ((k, x) :: kvs) ->
  forallb (fun kv => match kv with (k, x) => str_wf k && wf x end) ((k, x) :: kvs) = true ->
  NoDup (map fst (acc ++ (k, x) :: kvs)) ->
  (S (size x) + list_sum (map (fun kv => match kv with (_, x) => S (size x) end) kvs) <= n)%nat ->
  parse_members n acc
    (encode_str k ++ txt ": " ++ dumps_at L x ++ flat_map (member_txt L) kvs
       ++ nl_ind lvl ++ "}"%char :: rest)
  = Ok (JObj (acc ++ (k, x) :: kvs), rest).
Proof.
  induction kvs as [|[k' y] kvs IH]; intros k x acc n HF Hw Hnd Hn;
    (destruct n as [|n]; [lia|]);
    inversion HF as [|? ? RTx HFl]; subst; cbn [snd] in RTx;
    cbn [forallb] in Hw; apply andb_true_iff in Hw as [Hkx Hwl];
    apply andb_true_iff in Hkx as [Hk Hwx];
    rewrite encode_str_app, parse_members_S_quote, scanstring_encode by exact Hk;
    rewrite txt_colon, skip_ws_nonws by reflexivity; cbv iota;
    rewrite Ascii.eqb_refl, skip_ws_space, skip_ws_dumps by exact Hwx;
    (assert (Hnew : ~ In k (map fst acc))
      by (rewrite map_app in Hnd; cbn [map fst] in Hnd;
          intros Hin; apply (NoDup_remove_2 _ _ _ Hnd); apply in_or_app; now left));
    cbv zeta.
  - cbn [flat_map app]. rewrite (RTx Hwx L _ n (stops_nl _ _)) by lia.
    rewrite skip_ws_nl_ind, (dict_set_new acc k x Hnew). reflexivity.
  - cbn [flat_map]. unfold member_txt at 1. cbn [app]. rewrite <- !app_assoc.
    cbn [map] in Hn. change (list_sum (?a :: ?r)) with (a + list_sum r)%nat in Hn.
    rewrite (RTx Hwx L _ n) by (lia || (left; reflexivity)).
    cbn [app]. rewrite skip_ws_nonws by reflexivity. cbv iota.
    replace ((","%char =? "}"%char)%char) with false by reflexivity.
    replace ((","%char =? ","%char)%char) with true by reflexivity.
    cbv iota. rewrite skip_ws_nl_ind, skip_ws_encode, (dict_set_new acc k x Hnew).
    cbn [forallb] in Hwl. apply andb_true_iff in Hwl as [Hky Hwl].
    assert (Hw' : forallb (fun kv => match kv with (k, x) => str_wf k && wf x end)
                    ((k', y) :: kvs) = true)
      by (cbn [forallb]; rewrite Hky, Hwl; reflexivity).
    assert (Hn' : (S (size y) + list_sum (map (fun kv => match kv with (_, x) => S (size x) end) kvs) <= n)%nat)
      by lia.
    assert (Hnd' : NoDup (map fst ((acc ++ [(k, x)]) ++ (k', y) :: kvs)))
      by (rewrite <- app_assoc; exact Hnd).
    rewrite (IH k' y (acc ++ [(k, x)]) n HFl Hw' Hnd' Hn').
    rewrite <- app_assoc. reflexivity.
Qed.

Lemma dumps_roundtrip (v : json) : RT v.
Proof.
  induction v as [| b | z | f | s | l HF | kvs HF] using json_ind';
    unfold RT; intros Hw lvl rest n Hr Hn;
    (destruct n as [|n]; [cbn [size] in Hn; lia|]).
  - reflexivity.
  - destruct b; reflexivity.
  - apply scan_once_number, match_number_int, Hr.
  - destruct f as [m e| | |]; [|reflexivity..].
    apply scan_once_number, match_number_float; [exact Hw|exact Hr].
  - cbn [dumps_at]. rewrite encode_str_app, scan_once_S_str, scanstring_encode by exact Hw.
    reflexivity.
  - destruct l as [|x l]; [reflexivity|].
    cbn [wf forallb] in Hw. pose proof Hw as Hwl. apply andb_true_iff in Hw as [Hwx _].
    cbn [dumps_at app]. rewrite <- !app_assoc. cbn [app].
    rewrite scan_once_S_arr, skip_ws_nl_ind, skip_ws_dumps by exact Hwx.
    destruct (dumps_head (S lvl) x Hwx) as (c & t & E & _ & Hc & _).
    rewrite E. cbn [app].
    destruct (Ascii.eqb_spec c "]"%char) as [Ec|_]; [contradiction|].
    change (c :: t ++ ?R) with ((c :: t) ++ R). rewrite <- E.
    cbn [size map] in Hn. change (list_sum (?a :: ?r)) with (a + list_sum r)%nat in Hn.
    apply (parse_elements_ok (S lvl) lvl rest l x [] n HF Hwl). lia.
  - destruct kvs as [|[k x] kvs]; [reflexivity|].
    cbn [wf] in Hw. apply andb_true_iff in Hw as [Hwl Hnd].
    cbn [dumps_at app]. rewrite <- !app_assoc. cbn [app].
    rewrite scan_once_S_obj, skip_ws_nl_ind, skip_ws_encode, encode_str_app. cbv iota.
    replace ((dquote =? "}"%char)%char) with false by reflexivity. cbv iota.
    rewrite <- encode_str_app.
    cbn [size map] in Hn. change (list_sum (?a :: ?r)) with (a + list_sum r)%nat in Hn.
    apply (parse_members_ok (S lvl) lvl rest kvs k x [] n HF Hwl (keys_nodup_spec _ Hnd)). lia.
Qed.

Lemma cons_str_inv (u : Z) (o : option (pystr * text)) (cs : pystr) (r : text) :
  cons_str u o = Some (cs, r) -> exists cs', o = Some (cs', r) /\ cs = u :: cs'.
Proof.
  destruct o as [[cs' r']|]; cbn [cons_str]; intros H; [|discriminate].
  injection H as <- <-. eauto.
Qed.

Lemma scanstring_some_ne (t : text) (p : pystr * text) : scanstring t = Some p -> t <> [].
Proof. intros H ->. discriminate. Qed.

Lemma high_small (u : Z) : u < 55296 -> is_high_surrogate u = false.
Proof. intros H. unfold is_high_surrogate. rewrite (proj2 (Z.leb_gt _ _)) by lia. reflexivity. Qed.

Lemma low_small (u : Z) : u < 56320 -> is_low_surrogate u = false.
Proof. intros H. unfold is_low_surrogate. rewrite (proj2 (Z.leb_gt _ _)) by lia. reflexivity. Qed.

Lemma high_large (u : Z) : 56319 < u -> is_high_surrogate u = false.
Proof. intros H. unfold is_high_surrogate. rewrite (proj2 (Z.leb_gt u _)) by lia. apply andb_false_r. Qed.

Lemma low_large (u : Z) : 57343 < u -> is_low_surrogate u = false.
Proof. intros H. unfold is_low_surrogate. rewrite (proj2 (Z.leb_gt u _)) by lia. apply andb_false_r. Qed.

Lemma high_range (u : Z) : is_high_surrogate u = true -> 55296 <= u <= 56319.
Proof. unfold is_high_surrogate. intros H. apply andb_true_iff in H as [H1 H2]. lia. Qed.

Lemma low_range (u : Z) : is_low_surrogate u = true -> 56320 <= u <= 57343.
Proof. unfold is_low_surrogate. intros H. apply andb_true_iff in H as [H1 H2]. lia. Qed.

Lemma ss_cons (s : text) (u : Z) (cs : pystr) (X : text) :
  ss_inv X cs -> 0 <= u <= 1114111 ->
  (is_high_surrogate u = true -> forall v cs', cs = v :: cs' -> is_low_surrogate v = false) ->
  (is_low_surrogate u = true ->
   exists h1 h2 h3 h4 t, s = bslash :: "u"%char :: h1 :: h2 :: h3 :: h4 :: t
                         /\ hex4 h1 h2 h3 h4 = Some u /\ t <> []) ->
  ss_inv s (u :: cs).
Proof.
  intros [Hwf _] Hr Hh Hl. split.
  - cbn [str_wf]. rewrite Hwf, (proj2 (Z.leb_le 0 u)), (proj2 (Z.leb_le u 1114111)) by lia.
    destruct cs as [|v cs']; [reflexivity|].
    destruct (is_high_surrogate u) eqn:Eh; [|reflexivity].
    rewrite (Hh eq_refl v cs' eq_refl). reflexivity.
  - intros v cs' E Hv. injection E as <- <-. auto.
Qed.

Lemma ss_low_long (T : text) (v : Z) (cs : pystr) :
  ss_inv T (v :: cs) -> is_low_surrogate v = true ->
  exists h1 h2 h3 h4 t, T = bslash :: "u"%char :: h1 :: h2 :: h3 :: h4 :: t
                        /\ hex4 h1 h2 h3 h4 = Some v /\ t <> [].
Proof. intros [_ H] Hv. exact (H v cs eq_refl Hv). Qed.

Section ScanstringInv.
Variable n : nat.
Hypothesis IHn : forall s cs r, (List.length s <= n)%nat -> scanstring s = Some (cs, r) -> ss_inv s cs.

Lemma ss_hex (h1 h2 h3 h4 : ascii) (u : Z) (T : text) (cs : pystr) (r : text) :
  (List.length T <= n)%nat -> hex4 h1 h2 h3 h4 = Some u ->
  (is_high_surrogate u = true -> forall v cs', ss_inv T (v :: cs') -> is_low_surrogate v = true -> False) ->
  cons_str u (scanstring T) = Some (cs, r) ->
  ss_inv (bslash :: "u"%char :: h1 :: h2 :: h3 :: h4 :: T) cs.
Proof.
  intros Hlen Eh Hh H. apply cons_str_inv in H as (cs' & H & ->).
  pose proof (IHn _ _ _ Hlen H) as Hi. pose proof (hex4_range _ _ _ _ _ Eh).
  apply (ss_cons _ _ _ T Hi); [lia| |].
  - intros Hu v cs'' -> . destruct (is_low_surrogate v) eqn:Hv; [|reflexivity].
    exfalso. exact (Hh Hu v cs'' Hi Hv).
  - intros _. exists h1, h2, h3, h4, T. split; [reflexivity|]. split; [exact Eh|].
    exact (scanstring_some_ne _ _ H).
Qed.

Lemma ss_small (s : text) (u : Z) (T : text) (cs : pystr) (r : text) :
  (List.length T <= n)%nat -> 0 <= u < 55296 ->
  cons_str u (scanstring T) = Some (cs, r) -> ss_inv s cs.
Proof.
  intros Hlen Hu H. apply cons_str_inv in H as (cs' & H & ->).
  apply (ss_cons _ _ _ T (IHn _ _ _ Hlen H)); [lia| |].
  - rewrite high_small by lia. discriminate.
  - rewrite low_small by lia. discriminate.
Qed.

End ScanstringInv.

Lemma simple_escape_range (e : ascii) (u : Z) : simple_escape e = Some u -> 0 <= u < 55296.
Proof.
  unfold simple_escape.
  repeat match goal with |- context [if ?b then _ else _] => destruct b end;
    intros H; try discriminate; injection H as <-; lia.
Qed.

Lemma scanstring_inv (n : nat) :
  forall s cs r, (List.length s <= n)%nat -> scanstring s = Some (cs, r) -> ss_inv s cs.
Proof.
  induction n as [|n IHn]; intros s cs r Hlen H;
    (destruct s as [|c t]; [discriminate|]); [cbn [List.length] in Hlen; lia|].
  cbn [List.length] in Hlen. cbn [scanstring] in H.
  destruct (Ascii.eqb_spec c dquote) as [->|Hq].
  { injection H as <- <-. split; [reflexivity|intros; discriminate]. }
  destruct (Ascii.eqb_spec c bslash) as [->|Hb].
  - destruct t as [|e t']; [discriminate|].
    destruct (Ascii.eqb_spec e "u"%char) as [->|Hu].
    + destruct t' as [|h1 [|h2 [|h3 [|h4 t'']]]]; try discriminate.
      destruct (hex4 h1 h2 h3 h4) as [u|] eqn:Eh; [|discriminate].
      cbn [List.length] in Hlen.
      destruct (is_high_surrogate u) eqn:Ehi.
      * destruct t'' as [|b [|x [|g1 [|g2 [|g3 [|g4 [|y t4]]]]]]]; cbv iota beta in H;
          try (apply (ss_hex n IHn h1 h2 h3 h4 u _ cs r); [cbn [List.length] in *; lia|exact Eh| |exact H];
               intros _ v cs' Hi Hv; destruct (ss_low_long _ _ _ Hi Hv) as (? & ? & ? & ? & ? & E & _ & Hne);
               first [discriminate E | injection E; intros; subst; contradiction]).
        destruct ((b =? bslash)%char && (x =? "u")%char) eqn:Ebx.
        -- apply andb_true_iff in Ebx as [Eb Ex].
           apply Ascii.eqb_eq in Eb, Ex. subst b x.
           try rewrite !Ascii.eqb_refl in H. cbv iota beta in H.
           destruct (hex4 g1 g2 g3 g4) as [u2|] eqn:Eg; [|discriminate].
           destruct (is_low_surrogate u2) eqn:Elo.
           ++ apply cons_str_inv in H as (cs' & H & ->).
              cbn [List.length] in Hlen.
              assert (Hi : ss_inv (y :: t4) cs') by (apply (IHn _ _ r); [cbn [List.length] in *; lia|exact H]).
              pose proof (high_range _ Ehi). pose proof (low_range _ Elo).
              unfold join_surrogates.
              apply (ss_cons _ _ _ _ Hi); [lia| |];
                rewrite ?high_large, ?low_large by lia; discriminate.
           ++ apply (ss_hex n IHn h1 h2 h3 h4 u _ cs r); [cbn [List.length] in *; lia|exact Eh| |exact H].
              intros _ v cs' Hi Hv. destruct (ss_low_long _ _ _ Hi Hv) as (? & ? & ? & ? & ? & E & Ev & _).
              injection E as <- <- <- <- _. congruence.
        -- try rewrite Ebx in H. cbv iota beta in H.
           apply (ss_hex n IHn h1 h2 h3 h4 u _ cs r); [cbn [List.length] in *; lia|exact Eh| |exact H].
           intros _ v cs' Hi Hv. destruct (ss_low_long _ _ _ Hi Hv) as (? & ? & ? & ? & ? & E & _).
           injection E as Eb Ex _ _ _ _ _. subst b x. rewrite !Ascii.eqb_refl in Ebx. discriminate.
      * apply (ss_hex n IHn h1 h2 h3 h4 u _ cs r); [cbn [List.length] in *; lia|exact Eh| |exact H].
        intros Hc. congruence.
    + destruct (simple_escape e) as [u|] eqn:Es; [|discriminate].
      apply (ss_small n IHn _ u t' cs r); [cbn [List.length] in *; lia|exact (simple_escape_range _ _ Es)|exact H].
  - destruct (code c <? 32)%nat; [discriminate|].
    apply (ss_small n IHn _ (Z.of_nat (code c)) t cs r); [lia| |exact H].
    pose proof (Ascii.nat_ascii_bounded c). unfold code. lia.
Qed.

Lemma scanstring_wf (s : text) (cs : pystr) (r : text) :
  scanstring s = Some (cs, r) -> str_wf cs = true.
Proof. intros H. exact (proj1 (scanstring_inv (List.length s) s cs r (le_n _) H)). Qed.

Lemma norm_dec_normalized (f : nat) :
  forall m e, Z.abs m < 10 ^ Z.of_nat (S f) ->
  normalized (fst (norm_dec (S f) m e)) (snd (norm_dec (S f) m e)) = true.
Proof.
  induction f as [|f IH]; intros m e Hm; cbn [norm_dec];
    destruct (Z.eqb_spec m 0) as [->|Hm0]; try reflexivity;
    destruct (Z.eqb_spec (m mod 10) 0) as [Hmod|Hmod];
    try (cbn [fst snd]; unfold normalized;
         rewrite (proj2 (Z.eqb_neq m 0) Hm0), (proj2 (Z.eqb_neq _ 0) Hmod); reflexivity).
  - exfalso. pose proof (Z.div_mod m 10 ltac:(lia)). cbn in Hm. lia.
  - apply IH. pose proof (Z.div_mod m 10 ltac:(lia)).
    rewrite Nat2Z.inj_succ, Z.pow_succ_r in Hm by lia.
    assert (0 < 10 ^ Z.of_nat (S f)) by (apply Z.pow_pos_nonneg; lia). lia.
Qed.

Lemma span_digits_all (s ds r : text) : span_digits s = (ds, r) -> all_digits ds.
Proof.
  revert ds r. induction s as [|c t IH]; intros ds r H; cbn [span_digits] in H.
  - injection H as <- _. constructor.
  - destruct (is_digit c) eqn:Hc.
    + destruct (span_digits t) as [ds' r'] eqn:E. injection H as <- _.
      constructor; [exact Hc|exact (IH _ _ eq_refl)].
    + injection H as <- _. constructor.
Qed.

Lemma int_part_digits (s ids r : text) :
  int_part s = Some (ids, r) -> all_digits ids /\ ids <> [].
Proof.
  unfold int_part. destruct s as [|c t]; [discriminate|].
  destruct (Ascii.eqb_spec c "0"%char) as [->|_].
  - intros H. injection H as <- _. split; [constructor; [reflexivity|constructor]|discriminate].
  - destruct (is_digit c) eqn:Hc; [|discriminate].
    destruct (span_digits t) as [ds r'] eqn:E. intros H. injection H as <- _.
    split; [constructor; [exact Hc|exact (span_digits_all _ _ _ E)]|discriminate].
Qed.

Lemma frac_part_digits (s fs r : text) : frac_part s = (Some fs, r) -> all_digits fs.
Proof.
  unfold frac_part. destruct s as [|p [|d t]]; try discriminate.
  destruct ((p =? ".")%char && is_digit d) eqn:Hp; [|discriminate].
  apply andb_true_iff in Hp as [_ Hd].
  destruct (span_digits t) as [ds r'] eqn:E. intros H. injection H as <- _.
  constructor; [exact Hd|exact (span_digits_all _ _ _ E)].
Qed.

Lemma all_digits_app' (a b : text) : all_digits a -> all_digits b -> all_digits (a ++ b).
Proof. unfold all_digits. intros. apply Forall_app. auto. Qed.

Lemma match_number_wf (s r : text) (v : json) : match_number s = Some (v, r) -> wf v = true.
Proof.
  unfold match_number. destruct (num_sign s) as [neg s1].
  destruct (int_part s1) as [[ids r1]|] eqn:Ei; [|discriminate].
  destruct (frac_part r1) as [fds r2] eqn:Ef. destruct (exp_part r2) as [ex r3].
  destruct (int_part_digits _ _ _ Ei) as [Di Ne].
  assert (Dfs : all_digits (match fds with Some f => f | None => [] end))
    by (destruct fds as [f|]; [exact (frac_part_digits _ _ _ Ef)|constructor]).
  set (fs := match fds with Some f => f | None => [] end) in *.
  assert (Hlen : exists f, List.length (ids ++ fs) = S f)
    by (destruct ids; [contradiction|eexists; reflexivity]).
  destruct Hlen as [f Hf].
  assert (Hb : Z.abs ((if neg then -1 else 1) * digits_value (ids ++ fs)) < 10 ^ Z.of_nat (S f)).
  { rewrite <- Hf. pose proof (digits_value_bound _ (all_digits_app' _ _ Di Dfs)).
    destruct neg; lia. }
  intros H. cbv zeta in H. destruct fds, ex; injection H as <- _; try reflexivity;
    cbn [wf]; unfold mk_float; rewrite Hf;
    match goal with |- context [norm_dec (S f) ?M ?E] =>
      pose proof (norm_dec_normalized f M E Hb) as Hn; destruct (norm_dec (S f) M E) end;
    exact Hn.
Qed.

Lemma keys_nodup_of_NoDup (kvs : list (pystr * json)) :
  NoDup (map fst kvs) -> keys_nodup kvs = true.
Proof.
  induction kvs as [|[k v] r IH]; cbn [map fst keys_nodup]; intros H; [reflexivity|].
  inversion H as [|? ? Hn Hr]; subst. rewrite (IH Hr), andb_true_r.
  apply negb_true_iff. destruct (existsb _ r) eqn:E; [|reflexivity].
  apply existsb_exists in E as ([k' v'] & Hin & Ek).
  unfold pystr_eqb in Ek. cbn [fst] in Ek.
  destruct (list_eq_dec Z.eq_dec k k') as [->|]; [|discriminate].
  exfalso. apply Hn. apply in_map_iff. exists (k', v'). auto.
Qed.

Lemma dict_set_in_fst (d : list (pystr * json)) (k : pystr) (v : json) (x : pystr) :
  In x (map fst (dict_set d k v)) -> x = k \/ In x (map fst d).
Proof.
  induction d as [|[k' v'] d IH]; cbn [dict_set map fst In].
  - intros [->|[]]. now left.
  - destruct (list_eq_dec Z.eq_dec k k') as [->|]; cbn [map fst In].
    + intros [->|H]; [now left|right; now right].
    + intros [->|H]; [right; now left|]. destruct (IH H) as [->|H']; [now left|right; now right].
Qed.

Lemma dict_set_nodup (d : list (pystr * json)) (k : pystr) (v : json) :
  NoDup (map fst d) -> NoDup (map fst (dict_set d k v)).
Proof.
  induction d as [|[k' v'] d IH]; cbn [dict_set map fst]; intros H.
  - constructor; [intros []|constructor].
  - inversion H as [|? ? Hn Hr]; subst.
    destruct (list_eq_dec Z.eq_dec k k') as [->|Hne]; cbn [map fst]; [exact H|].
    constructor; [|exact (IH Hr)].
    intros Hin. destruct (dict_set_in_fst _ _ _ _ Hin) as [->|Hin']; [now apply Hne|now apply Hn].
Qed.

Lemma dict_set_pairs (d : list (pystr * json)) (k : pystr) (v : json) :
  forallb pair_wf d = true -> pair_wf (k, v) = true -> forallb pair_wf (dict_set d k v) = true.
Proof.
  induction d as [|[k' v'] d IH]; cbn [dict_set forallb]; intros Hd Hkv.
  - rewrite Hkv. reflexivity.
  - apply andb_true_iff in Hd as [H1 H2].
    destruct (list_eq_dec Z.eq_dec k k'); cbn [forallb]; rewrite ?Hkv, ?H1, ?H2, ?IH; auto.
Qed.

Lemma forallb_rev {A : Type} (f : A -> bool) (l : list A) :
  forallb f l = true -> forallb f (rev l) = true.
Proof.
  intros H. apply forallb_forall. intros x Hx. apply (proj1 (forallb_forall f l) H).
  apply in_rev. exact Hx.
Qed.

Lemma scan_wf (n : nat) :
  (forall s v r, scan_once n s = Ok (v, r) -> wf v = true) /\
  (forall acc s v r, forallb pair_wf acc = true -> keys_nodup acc = true ->
                     parse_members n acc s = Ok (v, r) -> wf v = true) /\
  (forall acc s v r, forallb wf acc = true -> parse_elements n acc s = Ok (v, r) -> wf v = true).
Proof.
  induction n as [|n (IS & IM & IE)];
    [split; [|split]; intros; discriminate|].
  split; [|split].
  - intros [|c t] v r; [discriminate|]. cbn [scan_once].
    destruct (c =? dquote)%char.
    { destruct (scanstring t) as [[cs r']|] eqn:E; intros H; [|discriminate].
      injection H as <- _. exact (scanstring_wf _ _ _ E). }
    destruct (c =? "{")%char.
    { destruct (skip_ws t) as [|d r']; [discriminate|].
      destruct (d =? "}")%char; intros H; [injection H as <- _; reflexivity|].
      exact (IM [] _ _ _ eq_refl eq_refl H). }
    destruct (c =? "[")%char.
    { destruct (skip_ws t) as [|d r']; [discriminate|].
      destruct (d =? "]")%char; intros H; [injection H as <- _; reflexivity|].
      exact (IE [] _ _ _ eq_refl H). }
    repeat (destruct (strip_prefix _ _); [intros H; injection H as <- _; reflexivity|]).
    destruct (match_number (c :: t)) as [[v' r']|] eqn:E; intros H; [|discriminate].
    injection H as <- _. exact (match_number_wf _ _ _ E).
  - intros acc [|c t] v r Hp Hk; [discriminate|]. cbn [parse_members].
    destruct (c =? dquote)%char; [|discriminate].
    destruct (scanstring t) as [[k r1]|] eqn:Ek; [|discriminate].
    destruct (skip_ws r1) as [|c2 r2]; [discriminate|].
    destruct (c2 =? ":")%char; [|discriminate].
    destruct (scan_once n (skip_ws r2)) as [[x r3]|] eqn:Ex; [|discriminate].
    pose proof (IS _ _ _ Ex) as Hx.
    assert (Hp' : forallb pair_wf (dict_set acc k x) = true)
      by (apply dict_set_pairs; [exact Hp|cbn [pair_wf]; rewrite (scanstring_wf _ _ _ Ek), Hx; reflexivity]).
    assert (Hk' : keys_nodup (dict_set acc k x) = true)
      by (apply keys_nodup_of_NoDup, dict_set_nodup, keys_nodup_spec, Hk).
    cbv zeta. destruct (skip_ws r3) as [|c4 r4]; [discriminate|].
    destruct (c4 =? "}")%char.
    + intros H. injection H as <- _. cbn [wf]. apply andb_true_iff. split; [exact Hp'|exact Hk'].
    + destruct (c4 =? ",")%char; [|discriminate]. apply (IM _ _ _ _ Hp' Hk').
  - intros acc s v r Ha. cbn [parse_elements].
    destruct (scan_once n s) as [[x r1]|] eqn:Ex; [|discriminate].
    pose proof (IS _ _ _ Ex) as Hx.
    destruct (skip_ws r1) as [|c r']; [discriminate|].
    destruct (c =? "]")%char.
    + intros H. injection H as <- _. cbn [wf]. apply (forallb_rev wf (x :: acc)). cbn [forallb]. rewrite Hx, Ha. reflexivity.
    + destruct (c =? ",")%char; [|discriminate]. apply IE. cbn [forallb]. rewrite Hx, Ha. reflexivity.
Qed.

Lemma loads_wf (s : text) (v : json) : loads s = Ok v -> wf v = true.
Proof.
  unfold loads. destruct (scan_once _ _) as [[v' r]|] eqn:E; [|discriminate].
  destruct (skip_ws r); [|discriminate]. intros H. injection H as <-.
  exact (proj1 (scan_wf _) _ _ _ E).
Qed.

Lemma length_nl_ind (k : nat) : List.length (nl_ind k) = S (2 * k).
Proof. unfold nl_ind. cbn [List.length]. rewrite repeat_length. reflexivity. Qed.

Lemma length_flat_map {A B : Type} (f : A -> list B) (l : list A) :
  List.length (flat_map f l) = list_sum (map (fun y => List.length (f y)) l).
Proof.
  induction l as [|y l IH]; [reflexivity|]. cbn [flat_map map].
  rewrite length_app, IH. reflexivity.
Qed.

Lemma list_sum_map_le {A : Type} (f g : A -> nat) (l : list A) :
  Forall (fun y => (f y <= g y)%nat) l -> (list_sum (map f l) <= list_sum (map g l))%nat.
Proof.
  induction 1 as [|y l Hy _ IH]; [reflexivity|]. cbn [map].
  change (list_sum (?a :: ?r)) with (a + list_sum r)%nat. lia.
Qed.

Lemma dumps_at_arr (lvl : nat) (x : json) (l : list json) :
  dumps_at lvl (JArr (x :: l))
  = "["%char :: nl_ind (S lvl) ++ dumps_at (S lvl) x
      ++ flat_map (fun y => ","%char :: nl_ind (S lvl) ++ dumps_at (S lvl) y) l
      ++ nl_ind lvl ++ ["]"%char].
Proof. reflexivity. Qed.

Lemma dumps_at_obj (lvl : nat) (k : pystr) (x : json) (kvs : list (pystr * json)) :
  dumps_at lvl (JObj ((k, x) :: kvs))
  = "{"%char :: nl_ind (S lvl) ++ encode_str k ++ txt ": " ++ dumps_at (S lvl) x
      ++ flat_map (member_txt (S lvl)) kvs ++ nl_ind lvl ++ ["}"%char].
Proof. reflexivity. Qed.

Lemma size_le_dumps (v : json) :
  forall lvl, wf v = true -> (size v <= List.length (dumps_at lvl v))%nat.
Proof.
  induction v as [| b | z | f | s | l HF | kvs HF] using json_ind'; intros lvl Hw;
    try (destruct (dumps_head lvl _ Hw) as (c & t & E & _); rewrite E; cbn [size List.length]; lia).
  - destruct l as [|x l]; [cbn; lia|].
    rewrite dumps_at_arr. cbn [wf forallb] in Hw. apply andb_true_iff in Hw as [Hwx Hwl].
    inversion HF as [|? ? Hx Hl]; subst.
    cbn [size map]. change (list_sum (?a :: ?r)) with (a + list_sum r)%nat.
    cbn [List.length]. rewrite !length_app, length_flat_map, !length_nl_ind.
    pose proof (Hx (S lvl) Hwx).
    assert (list_sum (map (fun y => S (size y)) l)
            <= list_sum (map (fun y => List.length (","%char :: nl_ind (S lvl) ++ dumps_at (S lvl) y)) l))%nat.
    { apply list_sum_map_le. clear - Hl Hwl. induction Hl as [|y l Hy _ IH]; [constructor|].
      cbn [forallb] in Hwl. apply andb_true_iff in Hwl as [Hwy Hwl].
      constructor; [|exact (IH Hwl)].
      cbn [List.length]. rewrite length_app, length_nl_ind. pose proof (Hy (S lvl) Hwy). lia. }
    lia.
  - destruct kvs as [|[k x] kvs]; [cbn; lia|].
    rewrite dumps_at_obj. cbn [wf forallb] in Hw.
    apply andb_true_iff in Hw as [Hw _]. apply andb_true_iff in Hw as [Hkx Hwl].
    apply andb_true_iff in Hkx as [_ Hwx].
    inversion HF as [|? ? Hx Hl]; subst. cbn [snd] in Hx.
    cbn [size map]. change (list_sum (?a :: ?r)) with (a + list_sum r)%nat.
    cbn [List.length]. rewrite !length_app, length_flat_map, !length_nl_ind.
    pose proof (Hx (S lvl) Hwx).
    assert (list_sum (map (fun kv => match kv with (_, x) => S (size x) end) kvs)
            <= list_sum (map (fun kv => List.length (member_txt (S lvl) kv)) kvs))%nat.
    { apply list_sum_map_le. clear - Hl Hwl. induction Hl as [|[k' y] kvs Hy _ IH]; [constructor|].
      cbn [forallb] in Hwl. apply andb_true_iff in Hwl as [Hky Hwl].
      apply andb_true_iff in Hky as [_ Hwy]. cbn [snd] in Hy.
      constructor; [|exact (IH Hwl)].
      unfold member_txt. cbn [List.length]. rewrite !length_app, length_nl_ind.
      pose proof (Hy (S lvl) Hwy). lia. }
    lia.
Qed.

Lemma loads_dumps (v : json) : wf v = true -> loads (dumps v) = Ok v.
Proof.
  intros Hw. unfold loads, dumps.
  pose proof (skip_ws_dumps 0%nat v [] Hw) as Hs. rewrite app_nil_r in Hs. rewrite Hs.
  pose proof (dumps_roundtrip v Hw 0%nat [] (S (List.length (dumps_at 0%nat v))) I) as R.
  rewrite app_nil_r in R. rewrite R; [reflexivity|].
  pose proof (size_le_dumps v 0%nat Hw). lia.
Qed.

(** ** What a successful [json.loads] consumes

    Appending JSON whitespace to a text changes a scan only by what it
    leaves over ([scan_once_app_ws]); a successful scan needs no more fuel
    than the characters it consumes ([fuel_all]), starts and ends with a
    character that is not a space, and ends with [}] when it reads a dict
    ([scan_first], [scan_last_all]).  So a text [json.loads] accepts is its
    value's text between JSON whitespace ([loads_ok_core]). *)

Lemma allws_cons (c : ascii) (t : text) : allws (c :: t) -> is_json_ws c = true /\ allws t.
Proof. unfold allws. cbn [forallb]. now rewrite andb_true_iff. Qed.

Lemma ws_cases (c : ascii) : is_json_ws c = true ->
  c = " "%char \/ c = "009"%char \/ c = "010"%char \/ c = "013"%char.
Proof.
  unfold is_json_ws. intros H.
  repeat (apply orb_true_iff in H as [H|H]); apply Ascii.eqb_eq in H; auto.
Qed.

Lemma skip_ws_allws (t : text) : allws t -> skip_ws t = [].
Proof.
  induction t as [|c t IH]; [reflexivity|]. intros H. apply allws_cons in H as [Hc Ht].
  cbn [skip_ws]. rewrite Hc. auto.
Qed.

Lemma skip_ws_app_ws (s t : text) : allws t ->
  skip_ws (s ++ t) = match skip_ws s with [] => [] | c :: r => c :: r ++ t end.
Proof.
  intros Ht. induction s as [|c s IH]; cbn [app skip_ws].
  - now apply skip_ws_allws.
  - destruct (is_json_ws c); [exact IH|reflexivity].
Qed.

Lemma strip_prefix_app_ws (p s t : text) :
  forallb (fun c => negb (is_json_ws c)) p = true -> allws t ->
  strip_prefix p (s ++ t) = option_map (fun r => r ++ t) (strip_prefix p s).
Proof.
  intros Hp Ht. revert s. induction p as [|a p IH]; intros s; [reflexivity|].
  cbn [forallb] in Hp. apply andb_true_iff in Hp as [Ha Hp].
  destruct s as [|b s]; cbn [app strip_prefix].
  - destruct t as [|b t]; [reflexivity|]. apply allws_cons in Ht as [Hb _].
    destruct (Ascii.eqb_spec a b) as [->|]; [|reflexivity].
    rewrite Hb in Ha. discriminate.
  - destruct (a =? b)%char; [now apply IH|reflexivity].
Qed.

Lemma span_digits_app_ws (s t : text) : allws t ->
  span_digits (s ++ t) = (fst (span_digits s), snd (span_digits s) ++ t).
Proof.
  intros Ht. induction s as [|c s IH]; cbn [app span_digits].
  - destruct t as [|c t]; [reflexivity|]. apply allws_cons in Ht as [Hc _].
    cbn [span_digits]. destruct (is_digit c) eqn:Hd; [|reflexivity].
    pose proof (digit_not_ws c Hd). congruence.
  - destruct (is_digit c); [|reflexivity].
    rewrite IH. destruct (span_digits s). reflexivity.
Qed.

Lemma ws_not (c : ascii) (d : ascii) : is_json_ws c = true -> is_json_ws d = false -> (c =? d)%char = false.
Proof. intros Hc Hd. destruct (Ascii.eqb_spec c d) as [->|]; [congruence|reflexivity]. Qed.

Lemma ws_not_digit (c : ascii) : is_json_ws c = true -> is_digit c = false.
Proof.
  intros Hc. destruct (is_digit c) eqn:E; [|reflexivity].
  pose proof (digit_not_ws c E). congruence.
Qed.

Lemma num_sign_app_ws (s t : text) : allws t ->
  num_sign (s ++ t) = (fst (num_sign s), snd (num_sign s) ++ t).
Proof.
  intros Ht. destruct s as [|c s]; cbn [app num_sign].
  - destruct t as [|c t]; [reflexivity|]. apply allws_cons in Ht as [Hc _].
    cbn [num_sign]. rewrite (ws_not c "-"); [reflexivity|exact Hc|reflexivity].
  - destruct (c =? "-")%char; reflexivity.
Qed.

Lemma int_part_app_ws (s t : text) : allws t ->
  int_part (s ++ t) = option_map (fun '(ids, r) => (ids, r ++ t)) (int_part s).
Proof.
  intros Ht. destruct s as [|c s]; cbn [app int_part].
  - destruct t as [|c t]; [reflexivity|]. apply allws_cons in Ht as [Hc _].
    cbn [int_part]. rewrite (ws_not c "0"), (ws_not_digit c Hc) by (assumption || reflexivity). reflexivity.
  - destruct (c =? "0")%char; [reflexivity|]. destruct (is_digit c); [|reflexivity].
    rewrite (span_digits_app_ws s t Ht). destruct (span_digits s). reflexivity.
Qed.

Lemma frac_part_app_ws (s t : text) : allws t ->
  frac_part (s ++ t) = (fst (frac_part s), snd (frac_part s) ++ t).
Proof.
  intros Ht. destruct s as [|p [|d s]]; cbn [app frac_part].
  - destruct t as [|c [|d t]]; [reflexivity|reflexivity|].
    apply allws_cons in Ht as [Hc _]. cbn [frac_part]. rewrite (ws_not c "."); [reflexivity|exact Hc|reflexivity].
  - destruct t as [|c t]; [reflexivity|]. apply allws_cons in Ht as [Hc _].
    cbn [frac_part]. rewrite (ws_not_digit c Hc), andb_false_r. reflexivity.
  - destruct ((p =? ".")%char && is_digit d); [|reflexivity].
    rewrite (span_digits_app_ws s t Ht). destruct (span_digits s). reflexivity.
Qed.

Lemma exp_part_app_ws (s t : text) : allws t ->
  exp_part (s ++ t) = (fst (exp_part s), snd (exp_part s) ++ t).
Proof.
  intros Ht. destruct s as [|e s]; cbn [app exp_part].
  - destruct t as [|c t]; [reflexivity|]. apply allws_cons in Ht as [Hc _].
    cbn [exp_part]. rewrite (ws_not c "e"), (ws_not c "E") by (assumption || reflexivity). reflexivity.
  - destruct ((e =? "e")%char || (e =? "E")%char); [|reflexivity].
    destruct s as [|x0 s].
    + destruct t as [|c t]; [reflexivity|].
      pose proof Ht as Ht'. apply allws_cons in Ht' as [Hc _].
      cbn [app]. rewrite (ws_not c "-"), (ws_not c "+") by (assumption || reflexivity).
      cbn [span_digits]. rewrite (ws_not_digit c Hc). reflexivity.
    + cbn [app]. destruct (x0 =? "-")%char; [|destruct (x0 =? "+")%char];
          [| |change (x0 :: s ++ t) with ((x0 :: s) ++ t)];
          rewrite span_digits_app_ws by exact Ht;
          match goal with |- context [span_digits ?y] => destruct (span_digits y) as [[|z zs] r] end;
          reflexivity.
Qed.

Lemma match_number_app_ws (s t : text) : allws t ->
  match_number (s ++ t) = option_map (fun '(v, r) => (v, r ++ t)) (match_number s).
Proof.
  intros Ht. unfold match_number. rewrite num_sign_app_ws by exact Ht.
  destruct (num_sign s) as [neg s1]. cbn [fst snd].
  rewrite int_part_app_ws by exact Ht.
  destruct (int_part s1) as [[ids r1]|]; cbn [option_map]; [|reflexivity].
  rewrite frac_part_app_ws by exact Ht. destruct (frac_part r1) as [fds r2]. cbn [fst snd].
  rewrite exp_part_app_ws by exact Ht. destruct (exp_part r2) as [ex r3]. cbn [fst snd].
  destruct fds, ex; reflexivity.
Qed.

Lemma hex_val_ws (c : ascii) : is_json_ws c = true -> hex_val c = None.
Proof. intros H. destruct (ws_cases c H) as [E|[E|[E|E]]]; subst c; reflexivity. Qed.

Lemma simple_escape_ws (c : ascii) : is_json_ws c = true -> simple_escape c = None.
Proof. intros H. destruct (ws_cases c H) as [E|[E|[E|E]]]; subst c; reflexivity. Qed.

Lemma scanstring_ws (t : text) : allws t -> scanstring t = None.
Proof.
  induction t as [|c t IH]; [reflexivity|]. intros H. apply allws_cons in H as [Hc Ht].
  destruct (ws_cases c Hc) as [E|[E|[E|E]]]; subst c; cbn [scanstring]; try reflexivity.
  rewrite IH by exact Ht. reflexivity.
Qed.

Lemma cons_str_map (u : Z) (t : text) (o : option (pystr * text)) :
  cons_str u (option_map (fun '(cs, r) => (cs, r ++ t)) o)
  = option_map (fun '(cs, r) => (cs, r ++ t)) (cons_str u o).
Proof. destruct o as [[cs r]|]; reflexivity. Qed.

Lemma low_not_high (u : Z) : is_low_surrogate u = true -> is_high_surrogate u = false.
Proof.
  unfold is_low_surrogate, is_high_surrogate. intros H.
  apply andb_true_iff in H as [H1 H2]. apply Z.leb_le in H1.
  destruct (u <=? 56319) eqn:E; [apply Z.leb_le in E; lia|]. now rewrite andb_false_r.
Qed.

Ltac ws_facts :=
  repeat match goal with H : allws (_ :: _) |- _ => apply allws_cons in H as [? ?] end.

Ltac ws_rw :=
  repeat match goal with
         | Hw : is_json_ws ?w = true |- context [hex_val ?w] => rewrite (hex_val_ws w Hw)
         | Hw : is_json_ws ?w = true |- context [(?w =? ?d)%char] =>
             rewrite (ws_not w d Hw) by reflexivity
         end.

Ltac allws_solve :=
  unfold allws; cbn [forallb];
  repeat match goal with Hw : is_json_ws ?w = true |- context [is_json_ws ?w] => rewrite Hw end;
  cbn [andb]; assumption.

Section ScanstringFrame.
Variable (w : ascii) (t0 : text).
Hypothesis Ht : allws (w :: t0).


Lemma scanstring_app_ws_aux (n : nat) : forall s, (List.length s <= n)%nat ->
  scanstring (s ++ w :: t0) = option_map (fun '(cs, r) => (cs, r ++ w :: t0)) (scanstring s).
Proof.
  induction n as [|n IH]; intros s Hs.
  { destruct s; [|cbn in Hs; lia]. cbn [app]. now rewrite scanstring_ws. }
  destruct s as [|c s0]; [cbn [app]; now rewrite scanstring_ws|].
  cbn [List.length] in Hs. cbn [app scanstring].
  destruct (c =? dquote)%char; [reflexivity|].
  destruct (c =? bslash)%char.
  2:{ destruct (code c <? 32)%nat; [reflexivity|]. rewrite IH by lia. apply cons_str_map. }
  pose proof Ht as Hw. apply allws_cons in Hw as [Hw Ht0].
  destruct s0 as [|e s1].
  { cbn [app]. rewrite (ws_not w "u") by (assumption || reflexivity).
    rewrite simple_escape_ws by exact Hw. reflexivity. }
  cbn [app List.length] in *.
  destruct (e =? "u")%char.
  2:{ destruct (simple_escape e); [|reflexivity]. rewrite IH by lia. apply cons_str_map. }
  destruct s1 as [|h1 [|h2 [|h3 [|h4 s2]]]]; cbn [app List.length] in *.
  1-4: destruct t0 as [|w2 [|w3 [|w4 t0']]]; ws_facts; ws_rw; try reflexivity;
       unfold hex4; ws_rw;
       repeat match goal with |- context [hex_val ?x] => destruct (hex_val x) end;
       reflexivity.
  destruct (hex4 h1 h2 h3 h4) as [u|]; [|reflexivity].
  destruct (is_high_surrogate u) eqn:Hu.
  2:{ rewrite IH by lia. apply cons_str_map. }
  pose proof (IH s2 ltac:(lia)) as Hs2.
  destruct s2 as [|b [|x [|g1 [|g2 [|g3 [|g4 [|y s3]]]]]]]; cbn [app List.length] in *.
  8:{ destruct ((b =? bslash)%char && (x =? "u")%char);
       [destruct (hex4 g1 g2 g3 g4) as [u2|]; [destruct (is_low_surrogate u2)|]|];
       try reflexivity; try (rewrite Hs2; apply cons_str_map).
     change (y :: s3 ++ w :: t0) with ((y :: s3) ++ w :: t0).
     rewrite IH by (cbn [List.length]; lia). apply cons_str_map. }
  all: destruct t0 as [|w2 [|w3 [|w4 [|w5 [|w6 [|w7 t0']]]]]]; ws_facts; ws_rw;
       try (rewrite Hs2; apply cons_str_map).
  all: try rewrite andb_false_r; try (rewrite Hs2; apply cons_str_map).
  all: repeat match goal with
         |- context [(?a =? ?d)%char] => is_var a;
           destruct (Ascii.eqb_spec a d) as [Ea|Ea]; [subst a|]
       end; cbn [andb]; try (rewrite Hs2; apply cons_str_map).
  all: repeat match goal with
         |- context [scanstring ?l] => rewrite (scanstring_ws l) by allws_solve
       end.
  all: try (unfold hex4; ws_rw;
            repeat match goal with |- context [hex_val ?x] => destruct (hex_val x) end;
            cbn; reflexivity).
  all: destruct (hex4 g1 g2 g3 g4) as [u2|] eqn:Eh;
       [destruct (is_low_surrogate u2) eqn:El;
        [|rewrite Hs2; apply cons_str_map]|];
       cbn -[hex4 is_high_surrogate]; rewrite Eh; try rewrite (low_not_high u2 El); reflexivity.
Qed.

Lemma scanstring_app_ws (s : text) :
  scanstring (s ++ w :: t0) = option_map (fun '(cs, r) => (cs, r ++ w :: t0)) (scanstring s).
Proof. now apply (scanstring_app_ws_aux (List.length s)). Qed.
End ScanstringFrame.

Lemma scanstring_app_ws' (s t : text) : allws t ->
  scanstring (s ++ t) = option_map (fun '(cs, r) => (cs, r ++ t)) (scanstring s).
Proof.
  intros Ht. destruct t as [|w t0].
  - rewrite app_nil_r. destruct (scanstring s) as [[cs r]|]; [|reflexivity]. cbn. now rewrite app_nil_r.
  - now apply scanstring_app_ws.
Qed.

Lemma ws_not_r (c d : ascii) : is_json_ws c = true -> is_json_ws d = false -> (d =? c)%char = false.
Proof. intros Hc Hd. rewrite Ascii.eqb_sym. now apply ws_not. Qed.

Lemma scan_once_ws_head (n : nat) (w : ascii) (r : text) : is_json_ws w = true ->
  scan_once (S n) (w :: r) = Raise JSONDecodeError.
Proof. intros H. destruct (ws_cases w H) as [E|[E|[E|E]]]; subst w; reflexivity. Qed.

Lemma scan_once_nil_raise (n : nat) : exists e, scan_once n [] = Raise e.
Proof. destruct n; eexists; reflexivity. Qed.

Lemma parse_members_nil_raise (n : nat) acc : exists e, parse_members n acc [] = Raise e.
Proof. destruct n; eexists; reflexivity. Qed.

Lemma parse_elements_nil_raise (n : nat) acc : exists e, parse_elements n acc [] = Raise e.
Proof.
  destruct n as [|n]; [eexists; reflexivity|]. cbn [parse_elements].
  destruct (scan_once_nil_raise n) as [e ->]. eexists; reflexivity.
Qed.

Section ScanFrame.
Variable t : text.
Hypothesis Ht : allws t.

Lemma skip_frame (G : text -> res (json * text)) (r : text) :
  (forall s, G (s ++ t) = fr t (G s)) -> (exists e, G [] = Raise e) ->
  G (skip_ws (r ++ t)) = fr t (G (skip_ws r)).
Proof.
  intros HG [e He]. rewrite skip_ws_app_ws by exact Ht.
  destruct (skip_ws r) as [|c r']; [now rewrite He|].
  exact (HG (c :: r')).
Qed.

Lemma scan_frame_all (n : nat) :
  (forall s, scan_once n (s ++ t) = fr t (scan_once n s)) /\
  (forall acc s, parse_members n acc (s ++ t) = fr t (parse_members n acc s)) /\
  (forall acc s, parse_elements n acc (s ++ t) = fr t (parse_elements n acc s)).
Proof.
  induction n as [|n [IHs [IHm IHe]]]; [repeat split; reflexivity|].
  assert (Hs : forall s, scan_once (S n) (s ++ t) = fr t (scan_once (S n) s)).
  { intros [|c s0].
    - cbn [app]. destruct t as [|w t0] eqn:Et; [reflexivity|].
      pose proof Ht as Hw. apply allws_cons in Hw as [Hw _].
      now rewrite scan_once_ws_head.
    - cbn [app scan_once].
      destruct (c =? dquote)%char.
      { rewrite scanstring_app_ws' by exact Ht. destruct (scanstring s0) as [[cs r]|]; reflexivity. }
      destruct (c =? "{")%char.
      { rewrite skip_ws_app_ws by exact Ht. destruct (skip_ws s0) as [|d r]; [reflexivity|].
        cbn [app]. destruct (d =? "}")%char; [reflexivity|]. exact (IHm [] (d :: r)). }
      destruct (c =? "[")%char.
      { rewrite skip_ws_app_ws by exact Ht. destruct (skip_ws s0) as [|d r]; [reflexivity|].
        cbn [app]. destruct (d =? "]")%char; [reflexivity|]. exact (IHe [] (d :: r)). }
      change (c :: s0 ++ t) with ((c :: s0) ++ t).
      repeat (rewrite strip_prefix_app_ws by (reflexivity || exact Ht)).
      rewrite match_number_app_ws by exact Ht.
      destruct (strip_prefix (txt "null") (c :: s0)); [reflexivity|].
      destruct (strip_prefix (txt "true") (c :: s0)); [reflexivity|].
      destruct (strip_prefix (txt "false") (c :: s0)); [reflexivity|].
      destruct (strip_prefix (txt "NaN") (c :: s0)); [reflexivity|].
      destruct (strip_prefix (txt "Infinity") (c :: s0)); [reflexivity|].
      destruct (strip_prefix (txt "-Infinity") (c :: s0)); [reflexivity|].
      destruct (match_number (c :: s0)) as [[v r]|]; reflexivity. }
  assert (Hm : forall acc s, parse_members (S n) acc (s ++ t) = fr t (parse_members (S n) acc s)).
  { intros acc [|c s0].
    - cbn [app]. destruct t as [|w t0] eqn:Et; [reflexivity|].
      pose proof Ht as Hw. apply allws_cons in Hw as [Hw _].
      cbn [parse_members]. now rewrite (ws_not w dquote Hw).
    - cbn [app parse_members]. destruct (c =? dquote)%char; [|reflexivity].
      rewrite scanstring_app_ws' by exact Ht. destruct (scanstring s0) as [[k r]|]; [|reflexivity].
      cbn [option_map]. rewrite skip_ws_app_ws by exact Ht.
      destruct (skip_ws r) as [|c2 r2]; [reflexivity|]. cbn [app].
      destruct (c2 =? ":")%char; [|reflexivity].
      rewrite (skip_frame (scan_once n) r2 IHs (scan_once_nil_raise n)).
      destruct (scan_once n (skip_ws r2)) as [[v r3]|e]; [|reflexivity]. cbn [fr].
      rewrite skip_ws_app_ws by exact Ht.
      destruct (skip_ws r3) as [|c4 r4]; [reflexivity|]. cbn [app].
      destruct (c4 =? "}")%char; [reflexivity|].
      destruct (c4 =? ",")%char; [|reflexivity].
      apply (skip_frame _ r4 (IHm _) (parse_members_nil_raise n _)). }
  assert (He : forall acc s, parse_elements (S n) acc (s ++ t) = fr t (parse_elements (S n) acc s)).
  { intros acc s. cbn [parse_elements]. rewrite IHs.
    destruct (scan_once n s) as [[v r]|e]; [|reflexivity]. cbn [fr].
    rewrite skip_ws_app_ws by exact Ht.
    destruct (skip_ws r) as [|c r']; [reflexivity|]. cbn [app].
    destruct (c =? "]")%char; [reflexivity|].
    destruct (c =? ",")%char; [|reflexivity].
    apply (skip_frame _ r' (IHe _) (parse_elements_nil_raise n _)). }
  auto.
Qed.

Lemma scan_once_app_ws (n : nat) (s : text) : scan_once n (s ++ t) = fr t (scan_once n s).
Proof. apply scan_frame_all. Qed.
End ScanFrame.

(** Lengths of what the scanners leave over. *)
Lemma skip_ws_len (s : text) : (List.length (skip_ws s) <= List.length s)%nat.
Proof. induction s as [|c s IH]; cbn [skip_ws List.length]; [lia|]. destruct (is_json_ws c); cbn [List.length]; lia. Qed.

Lemma span_digits_len (s : text) : (List.length (snd (span_digits s)) <= List.length s)%nat.
Proof.
  induction s as [|c s IH]; cbn [span_digits]; [cbn; lia|].
  destruct (is_digit c); [|cbn; lia]. destruct (span_digits s) as [ds r]. cbn [snd List.length] in *. lia.
Qed.

Lemma num_sign_len (s : text) : (List.length (snd (num_sign s)) <= List.length s)%nat.
Proof. destruct s as [|c t]; cbn; [lia|]. destruct (c =? "-")%char; cbn; lia. Qed.

Lemma int_part_len (s ids r : text) : int_part s = Some (ids, r) -> (List.length r < List.length s)%nat.
Proof.
  destruct s as [|c t]; cbn [int_part]; [discriminate|].
  destruct (c =? "0")%char; [intros H; injection H as _ <-; cbn; lia|].
  destruct (is_digit c); [|discriminate]. pose proof (span_digits_len t) as Hsd.
  destruct (span_digits t) as [ds r']. intros H; injection H as _ <-. cbn [snd List.length] in *. lia.
Qed.

Lemma frac_part_len (s : text) : (List.length (snd (frac_part s)) <= List.length s)%nat.
Proof.
  destruct s as [|p [|d t]]; cbn [frac_part]; try (cbn; lia).
  destruct ((p =? ".")%char && is_digit d); [|cbn; lia]. pose proof (span_digits_len t).
  destruct (span_digits t) as [fs r]. cbn [snd List.length] in *. lia.
Qed.

Lemma exp_part_len (s : text) : (List.length (snd (exp_part s)) <= List.length s)%nat.
Proof.
  destruct s as [|e t]; cbn [exp_part]; [cbn; lia|].
  destruct ((e =? "e")%char || (e =? "E")%char); [|cbn; lia].
  assert (Ht1 : (List.length (snd match t with
                 | x :: t' => if (x =? "-")%char then ((-1)%Z, t') else if (x =? "+")%char then (1%Z, t') else (1%Z, t)
                 | [] => (1%Z, t) end) <= List.length t)%nat).
  { destruct t as [|x t']; [cbn; lia|]. destruct (x =? "-")%char; [cbn; lia|].
    destruct (x =? "+")%char; cbn; lia. }
  destruct (match t with
            | x :: t' => if (x =? "-")%char then ((-1)%Z, t') else if (x =? "+")%char then (1%Z, t') else (1%Z, t)
            | [] => (1%Z, t) end) as [sg t1]. cbn [snd] in Ht1.
  pose proof (span_digits_len t1). destruct (span_digits t1) as [[|d es] r]; cbn [snd List.length] in *; lia.
Qed.

Lemma match_number_len (s r : text) (v : json) :
  match_number s = Some (v, r) -> (List.length r < List.length s)%nat.
Proof.
  unfold match_number. pose proof (num_sign_len s). destruct (num_sign s) as [neg s1]. cbn [snd] in *.
  destruct (int_part s1) as [[ids r1]|] eqn:Ei; [|discriminate]. pose proof (int_part_len _ _ _ Ei).
  pose proof (frac_part_len r1). destruct (frac_part r1) as [fds r2]. cbn [snd] in *.
  pose proof (exp_part_len r2). destruct (exp_part r2) as [ex r3]. cbn [snd] in *.
  destruct fds, ex; intros Hm; injection Hm as _ <-; lia.
Qed.

Lemma strip_prefix_len (p s r : text) : strip_prefix p s = Some r -> p <> [] -> (List.length r < List.length s)%nat.
Proof.
  intros H Hp. apply strip_prefix_some in H. subst s. rewrite length_app.
  destruct p; [congruence|cbn; lia].
Qed.

Lemma scanstring_len_aux (n : nat) :
  forall s cs r, (List.length s <= n)%nat -> scanstring s = Some (cs, r) -> (List.length r < List.length s)%nat.
Proof.
  induction n as [|n IHn]; intros s cs r Hlen H;
    (destruct s as [|c t]; [discriminate|]); [cbn [List.length] in Hlen; lia|].
  cbn [List.length] in *. cbn [scanstring] in H.
  destruct (c =? dquote)%char; [injection H as _ <-; lia|].
  assert (Hc : forall u x k, cons_str u (scanstring x) = Some (cs, r) ->
                 (List.length x + k <= List.length t)%nat -> (List.length r < S (List.length t))%nat).
  { intros u x k Hx Hk. apply cons_str_inv in Hx as (cs' & Hx & _).
    apply IHn in Hx; lia. }
  destruct (c =? bslash)%char.
  2:{ destruct (code c <? 32)%nat; [discriminate|]. exact (Hc _ t 0%nat H ltac:(lia)). }
  destruct t as [|e t']; [discriminate|].
  destruct (e =? "u")%char.
  2:{ destruct (simple_escape e); [|discriminate]. exact (Hc _ t' 1%nat H ltac:(cbn; lia)). }
  destruct t' as [|h1 [|h2 [|h3 [|h4 t'']]]]; try discriminate.
  destruct (hex4 h1 h2 h3 h4) as [u|]; [|discriminate].
  destruct (is_high_surrogate u).
  2:{ exact (Hc _ t'' 5%nat H ltac:(cbn; lia)). }
  destruct t'' as [|b [|x [|g1 [|g2 [|g3 [|g4 [|y t4]]]]]]]; cbv iota beta in H;
    try exact (Hc _ _ 5%nat H ltac:(cbn; lia)).
  destruct ((b =? bslash)%char && (x =? "u")%char); [|exact (Hc _ _ 5%nat H ltac:(cbn; lia))].
  destruct (hex4 g1 g2 g3 g4) as [u2|]; [|discriminate].
  destruct (is_low_surrogate u2); [exact (Hc _ _ 11%nat H ltac:(cbn; lia))|exact (Hc _ _ 5%nat H ltac:(cbn; lia))].
Qed.

Lemma scanstring_len (s : text) (cs : pystr) (r : text) :
  scanstring s = Some (cs, r) -> (List.length r < List.length s)%nat.
Proof. apply (scanstring_len_aux (List.length s)). lia. Qed.

Ltac fuel_lit :=
  let E := fresh "Ep" in
  match goal with H : context [strip_prefix ?p ?s] |- _ =>
    destruct (strip_prefix p s) as [r0|] eqn:E;
    [ cbv iota beta in H; injection H as <- <-;
    pose proof (strip_prefix_len _ _ _ E ltac:(discriminate));
    split; [assumption|]; intros m Hm; destruct m as [|m]; [cbn [List.length] in *; lia|];
    cbn [scan_once]; repeat match goal with Hx : _ = _ |- _ => rewrite Hx end; reflexivity
    | cbv iota beta in H ] end.

Lemma fuel_all (n : nat) :
  (forall s v r, scan_once n s = Ok (v, r) ->
     (List.length r < List.length s)%nat /\
     forall m, (List.length s - List.length r <= m)%nat -> scan_once m s = Ok (v, r)) /\
  (forall acc s v r, parse_members n acc s = Ok (v, r) ->
     (List.length r < List.length s)%nat /\
     forall m, (List.length s - List.length r <= m)%nat -> parse_members m acc s = Ok (v, r)) /\
  (forall acc s v r, parse_elements n acc s = Ok (v, r) ->
     (List.length r < List.length s)%nat /\
     forall m, (List.length s - List.length r <= m)%nat -> parse_elements m acc s = Ok (v, r)).
Proof.
  induction n as [|n [IHs [IHm IHe]]]; [repeat split; intros; discriminate|].
  split; [|split].
  - intros s v r H. destruct s as [|c t]; [discriminate|]. cbn [scan_once] in H.
    destruct (c =? dquote)%char eqn:E1.
    { destruct (scanstring t) as [[cs r0]|] eqn:Es; [|discriminate]. injection H as <- <-.
      pose proof (scanstring_len _ _ _ Es). split; [cbn [List.length]; lia|].
      intros m Hm. destruct m as [|m]; [cbn [List.length] in *; lia|].
      cbn [scan_once]. rewrite E1, Es. reflexivity. }
    destruct (c =? "{")%char eqn:E2.
    { destruct (skip_ws t) as [|d r0] eqn:Ew; [discriminate|].
      pose proof (skip_ws_len t) as Lw. rewrite Ew in Lw.
      destruct (d =? "}")%char eqn:E3.
      - injection H as <- <-. split; [cbn [List.length] in *; lia|].
        intros m Hm. destruct m as [|m]; [cbn [List.length] in *; lia|].
        cbn [scan_once]. rewrite E1, E2, Ew, E3. reflexivity.
      - apply IHm in H as [L Hf]. split; [cbn [List.length] in *; lia|].
        intros m Hm. destruct m as [|m]; [cbn [List.length] in *; lia|].
        cbn [scan_once]. rewrite E1, E2, Ew, E3. apply Hf. cbn [List.length] in *; lia. }
    destruct (c =? "[")%char eqn:E3.
    { destruct (skip_ws t) as [|d r0] eqn:Ew; [discriminate|].
      pose proof (skip_ws_len t) as Lw. rewrite Ew in Lw.
      destruct (d =? "]")%char eqn:E4.
      - injection H as <- <-. split; [cbn [List.length] in *; lia|].
        intros m Hm. destruct m as [|m]; [cbn [List.length] in *; lia|].
        cbn [scan_once]. rewrite E1, E2, E3, Ew, E4. reflexivity.
      - apply IHe in H as [L Hf]. split; [cbn [List.length] in *; lia|].
        intros m Hm. destruct m as [|m]; [cbn [List.length] in *; lia|].
        cbn [scan_once]. rewrite E1, E2, E3, Ew, E4. apply Hf. cbn [List.length] in *; lia. }
    do 6 fuel_lit.
    destruct (match_number (c :: t)) as [[v0 r0]|] eqn:En; [|discriminate].
    injection H as <- <-. pose proof (match_number_len _ _ _ En).
    split; [assumption|]. intros m Hm. destruct m as [|m]; [cbn [List.length] in *; lia|].
    cbn [scan_once]. repeat match goal with Hx : _ = _ |- _ => rewrite Hx end; reflexivity.
  - intros acc s v r H. destruct s as [|c t]; [discriminate|]. cbn [parse_members] in H.
    destruct (c =? dquote)%char eqn:E1; [|discriminate].
    destruct (scanstring t) as [[k r0]|] eqn:Es; [|discriminate].
    pose proof (scanstring_len _ _ _ Es) as L0.
    destruct (skip_ws r0) as [|c2 r2] eqn:Ew; [discriminate|].
    pose proof (skip_ws_len r0) as L1. rewrite Ew in L1.
    destruct (c2 =? ":")%char eqn:E2; [|discriminate].
    destruct (scan_once n (skip_ws r2)) as [[v0 r3]|e] eqn:Ev; [|discriminate].
    apply IHs in Ev as [L2 F2]. pose proof (skip_ws_len r2) as L3.
    destruct (skip_ws r3) as [|c4 r4] eqn:Ew2; [discriminate|].
    pose proof (skip_ws_len r3) as L4. rewrite Ew2 in L4.
    destruct (c4 =? "}")%char eqn:E3.
    + injection H as <- <-. split; [cbn [List.length] in *; lia|].
      intros m Hm. destruct m as [|m]; [cbn [List.length] in *; lia|].
      cbn [parse_members]. rewrite E1, Es, Ew, E2.
      rewrite F2 by (cbn [List.length] in *; lia). rewrite Ew2, E3. reflexivity.
    + destruct (c4 =? ",")%char eqn:E4; [|discriminate].
      apply IHm in H as [L5 F5]. pose proof (skip_ws_len r4) as L6.
      split; [cbn [List.length] in *; lia|].
      intros m Hm. destruct m as [|m]; [cbn [List.length] in *; lia|].
      cbn [parse_members]. rewrite E1, Es, Ew, E2.
      rewrite F2 by (cbn [List.length] in *; lia). rewrite Ew2, E3, E4.
      apply F5. cbn [List.length] in *; lia.
  - intros acc s v r H. cbn [parse_elements] in H.
    destruct (scan_once n s) as [[v0 r0]|e] eqn:Ev; [|discriminate].
    apply IHs in Ev as [L0 F0].
    destruct (skip_ws r0) as [|c r'] eqn:Ew; [discriminate|].
    pose proof (skip_ws_len r0) as L1. rewrite Ew in L1.
    destruct (c =? "]")%char eqn:E1.
    + injection H as <- <-. split; [cbn [List.length] in *; lia|].
      intros m Hm. destruct m as [|m]; [cbn [List.length] in *; lia|].
      cbn [parse_elements]. rewrite F0 by (cbn [List.length] in *; lia). rewrite Ew, E1. reflexivity.
    + destruct (c =? ",")%char eqn:E2; [|discriminate].
      apply IHe in H as [L5 F5]. pose proof (skip_ws_len r') as L6.
      split; [cbn [List.length] in *; lia|].
      intros m Hm. destruct m as [|m]; [cbn [List.length] in *; lia|].
      cbn [parse_elements]. rewrite F0 by (cbn [List.length] in *; lia). rewrite Ew, E1, E2.
      apply F5. cbn [List.length] in *; lia.
Qed.

Lemma ends_in_trans (P : ascii -> bool) (x y r : text) :
  ends_in P x y -> ends_in P y r -> ends_in P x r.
Proof.
  intros (g & d & -> & _) (g' & d' & -> & Hd'). exists (g ++ d :: g'), d'.
  split; [now rewrite <- app_assoc|exact Hd'].
Qed.

Lemma ends_in_pre (P : ascii -> bool) (p x r : text) : ends_in P x r -> ends_in P (p ++ x) r.
Proof. intros (g & d & -> & Hd). exists (p ++ g), d. split; [now rewrite <- app_assoc|exact Hd]. Qed.

Lemma span_digits_split (t ds r : text) :
  span_digits t = (ds, r) -> t = ds ++ r /\ forallb is_digit ds = true.
Proof.
  revert ds r. induction t as [|c t IH]; intros ds r H; cbn [span_digits] in H.
  - injection H as <- <-. auto.
  - destruct (is_digit c) eqn:Hc; [|injection H as <- <-; auto].
    destruct (span_digits t) as [ds' r'] eqn:E. injection H as <- <-.
    destruct (IH _ _ eq_refl) as [-> Hd]. cbn [app forallb]. rewrite Hc, Hd. auto.
Qed.

Lemma digits_last (c : ascii) (ds r : text) :
  is_digit c = true -> forallb is_digit ds = true -> ends_in is_digit (c :: ds ++ r) r.
Proof.
  revert c. induction ds as [|c' ds IH]; intros c Hc Hds.
  - exists [], c. auto.
  - cbn [forallb] in Hds. apply andb_true_iff in Hds as [Hc' Hds].
    destruct (IH c' Hc' Hds) as (g & d & E & Hd). exists (c :: g), d.
    cbn [app]. rewrite <- E. auto.
Qed.

Lemma int_part_last (s ids r : text) : int_part s = Some (ids, r) -> ends_in is_digit s r.
Proof.
  destruct s as [|c t]; cbn [int_part]; [discriminate|].
  destruct (Ascii.eqb_spec c "0") as [->|_].
  - intros H; injection H as _ <-. exists [], "0"%char. auto.
  - destruct (is_digit c) eqn:Hc; [|discriminate].
    destruct (span_digits t) as [ds r'] eqn:E. intros H; injection H as _ <-.
    destruct (span_digits_split _ _ _ E) as [-> Hd]. now apply digits_last.
Qed.

Lemma frac_part_last (s r : text) (o : option text) :
  frac_part s = (o, r) -> r = s \/ ends_in is_digit s r.
Proof.
  destruct s as [|p [|d t]]; cbn [frac_part]; try (intros H; injection H as _ <-; auto).
  destruct ((p =? ".")%char && is_digit d) eqn:Hp; [|intros H; injection H as _ <-; auto].
  apply andb_true_iff in Hp as [_ Hd].
  destruct (span_digits t) as [fs r'] eqn:E. intros H; injection H as _ <-. right.
  destruct (span_digits_split _ _ _ E) as [-> Hf]. apply (ends_in_pre _ [p]). now apply digits_last.
Qed.

Lemma exp_part_last (s r : text) (o : option Z) :
  exp_part s = (o, r) -> r = s \/ ends_in is_digit s r.
Proof.
  destruct s as [|e t]; cbn [exp_part]; [intros H; injection H as _ <-; auto|].
  destruct ((e =? "e")%char || (e =? "E")%char); [|intros H; injection H as _ <-; auto].
  assert (Ht : exists p sg t1, t = p ++ t1 /\
    match t with
    | x :: t' => if (x =? "-")%char then ((-1)%Z, t') else if (x =? "+")%char then (1%Z, t') else (1%Z, t)
    | [] => (1%Z, t) end = (sg, t1)).
  { destruct t as [|x t']; [exists [], 1%Z, []; auto|].
    destruct (x =? "-")%char; [exists [x], (-1)%Z, t'; auto|].
    destruct (x =? "+")%char; [exists [x], 1%Z, t'; auto|exists [], 1%Z, (x :: t'); auto]. }
  destruct Ht as (p & sg & t1 & Et & ->).
  destruct (span_digits t1) as [[|d es] r'] eqn:E; intros H; injection H as _ <-; [auto|].
  right. destruct (span_digits_split _ _ _ E) as [-> Hd]. cbn [forallb] in Hd.
  apply andb_true_iff in Hd as [Hd Hes]. subst t. apply (ends_in_pre _ (e :: p)).
  now apply digits_last.
Qed.

Lemma match_number_last (s r : text) (v : json) :
  match_number s = Some (v, r) -> ends_in is_digit s r /\ forall d, v <> JObj d.
Proof.
  unfold match_number.
  assert (Hs : exists p, s = p ++ snd (num_sign s)).
  { destruct s as [|c t]; [exists []; auto|]. cbn [num_sign].
    destruct (c =? "-")%char; [exists [c]; auto|exists []; auto]. }
  destruct (num_sign s) as [neg s1]. cbn [snd] in Hs. destruct Hs as [p ->].
  destruct (int_part s1) as [[ids r1]|] eqn:Ei; [|discriminate].
  pose proof (int_part_last _ _ _ Ei) as L1.
  destruct (frac_part r1) as [fds r2] eqn:Ef. pose proof (frac_part_last r1 r2 fds Ef) as L2.
  destruct (exp_part r2) as [ex r3] eqn:Ee. pose proof (exp_part_last r2 r3 ex Ee) as L3.
  assert (L : ends_in is_digit s1 r3).
  { destruct L2 as [->|L2]; destruct L3 as [->|L3]; eauto using ends_in_trans. }
  intros H. split.
  - destruct fds, ex; injection H as _ <-; now apply ends_in_pre.
  - destruct fds, ex; injection H as <- _; discriminate.
Qed.

Lemma scanstring_last_aux (n : nat) :
  forall s cs r, (List.length s <= n)%nat -> scanstring s = Some (cs, r) -> exists g, s = g ++ dquote :: r.
Proof.
  induction n as [|n IHn]; intros s cs r Hlen H;
    (destruct s as [|c t]; [discriminate|]); [cbn [List.length] in Hlen; lia|].
  cbn [List.length] in *. cbn [scanstring] in H.
  destruct (Ascii.eqb_spec c dquote) as [->|_]; [injection H as _ <-; exists []; auto|].
  assert (Hc : forall u p x, cons_str u (scanstring x) = Some (cs, r) -> t = p ++ x ->
                 exists g, c :: t = g ++ dquote :: r).
  { intros u p x Hx ->. apply cons_str_inv in Hx as (cs' & Hx & _).
    apply IHn in Hx as [g ->]; [|rewrite length_app in Hlen; lia].
    exists (c :: p ++ g). cbn [app]. now rewrite <- app_assoc. }
  destruct (c =? bslash)%char.
  2:{ destruct (code c <? 32)%nat; [discriminate|]. exact (Hc _ [] t H eq_refl). }
  destruct t as [|e t']; [discriminate|].
  destruct (e =? "u")%char.
  2:{ destruct (simple_escape e); [|discriminate]. exact (Hc _ [e] t' H eq_refl). }
  destruct t' as [|h1 [|h2 [|h3 [|h4 t'']]]]; try discriminate.
  destruct (hex4 h1 h2 h3 h4) as [u|]; [|discriminate].
  destruct (is_high_surrogate u).
  2:{ exact (Hc _ [e; h1; h2; h3; h4] t'' H eq_refl). }
  destruct t'' as [|b [|x [|g1 [|g2 [|g3 [|g4 [|y t4]]]]]]]; cbv iota beta in H;
    try exact (Hc _ [e; h1; h2; h3; h4] _ H eq_refl).
  destruct ((b =? bslash)%char && (x =? "u")%char); [|exact (Hc _ [e; h1; h2; h3; h4] _ H eq_refl)].
  destruct (hex4 g1 g2 g3 g4) as [u2|]; [|discriminate].
  destruct (is_low_surrogate u2).
  - exact (Hc _ [e; h1; h2; h3; h4; b; x; g1; g2; g3; g4] _ H eq_refl).
  - exact (Hc _ [e; h1; h2; h3; h4] _ H eq_refl).
Qed.

Lemma scanstring_last (s : text) (cs : pystr) (r : text) :
  scanstring s = Some (cs, r) -> exists g, s = g ++ dquote :: r.
Proof. apply (scanstring_last_aux (List.length s)). lia. Qed.

Lemma skip_ws_pre (s : text) : exists w, allws w /\ s = w ++ skip_ws s.
Proof.
  induction s as [|c s [w [Hw E]]]; [exists []; split; reflexivity|]. cbn [skip_ws].
  destruct (is_json_ws c) eqn:Hc; [|exists []; split; reflexivity].
  exists (c :: w). split; [unfold allws in *; cbn [forallb]; now rewrite Hc, Hw|]. cbn [app]. now rewrite <- E.
Qed.

Ltac app_norm := repeat (rewrite <- app_assoc || rewrite <- app_comm_cons); reflexivity.

Ltac last_lit lst :=
  match goal with H : context [strip_prefix ?p ?s] |- _ =>
    let E := fresh "Ep" in
    destruct (strip_prefix p s) as [r0|] eqn:E;
    [ cbv iota beta in H; injection H as <- <-; apply strip_prefix_some in E;
      rewrite E; exists (removelast p), lst; split; [reflexivity|];
      split; [reflexivity|]; intros [d0 Hd0]; discriminate
    | cbv iota beta in H ] end.

Lemma scan_last_all (n : nat) :
  (forall s v r, scan_once n s = Ok (v, r) ->
     exists g c, s = g ++ c :: r /\ is_space c = false /\
       ((exists d, v = JObj d) -> c = "}"%char /\ exists mid, g = "{"%char :: mid)) /\
  (forall acc s v r, parse_members n acc s = Ok (v, r) -> exists mid, s = mid ++ "}"%char :: r) /\
  (forall acc s v r, parse_elements n acc s = Ok (v, r) ->
     (exists l, v = JArr l) /\ exists mid, s = mid ++ "]"%char :: r).
Proof.
  induction n as [|n [IHs [IHm IHe]]]; [repeat split; intros; discriminate|].
  split; [|split].
  - intros s v r H. destruct s as [|c t]; [discriminate|]. cbn [scan_once] in H.
    destruct (Ascii.eqb_spec c dquote) as [->|_].
    { destruct (scanstring t) as [[cs r0]|] eqn:Es; [|discriminate]. injection H as <- <-.
      destruct (scanstring_last _ _ _ Es) as [g ->]. exists (dquote :: g), dquote.
      split; [reflexivity|]. split; [reflexivity|]. intros [d Hd]; discriminate. }
    destruct (Ascii.eqb_spec c "{") as [->|_].
    { destruct (skip_ws_pre t) as (w & _ & Ew).
      destruct (skip_ws t) as [|d r0] eqn:Es; [discriminate|].
      destruct (Ascii.eqb_spec d "}") as [->|_].
      - injection H as <- <-. exists ("{"%char :: w), "}"%char. rewrite Ew.
        repeat split; eauto.
      - apply IHm in H as [mid E]. exists ("{"%char :: w ++ mid), "}"%char. rewrite Ew, E.
        split; [cbn [app]; now rewrite <- app_assoc|]. repeat split; eauto. }
    destruct (Ascii.eqb_spec c "[") as [->|_].
    { destruct (skip_ws_pre t) as (w & _ & Ew).
      destruct (skip_ws t) as [|d r0] eqn:Es; [discriminate|].
      destruct (Ascii.eqb_spec d "]") as [->|_].
      - injection H as <- <-. exists ("["%char :: w), "]"%char. rewrite Ew.
        split; [reflexivity|]. split; [reflexivity|]. intros [d Hd]; discriminate.
      - apply IHe in H as [[l ->] [mid E]]. exists ("["%char :: w ++ mid), "]"%char. rewrite Ew, E.
        split; [cbn [app]; now rewrite <- app_assoc|]. split; [reflexivity|]. intros [d0 Hd0]; discriminate. }
    last_lit "l"%char. last_lit "e"%char. last_lit "e"%char. last_lit "N"%char.
    last_lit "y"%char. last_lit "y"%char.
    destruct (match_number (c :: t)) as [[v0 r0]|] eqn:En; [|discriminate].
    injection H as <- <-. destruct (match_number_last _ _ _ En) as [(g & d & E & Hd) Hv].
    exists g, d. split; [exact E|]. split.
    + destruct (is_space d) eqn:Hs; [|reflexivity].
      unfold is_digit, is_space in *. apply andb_true_iff in Hd as [Hd1 Hd2].
      apply Nat.leb_le in Hd1, Hd2.
      repeat match goal with Hx : _ |- _ => revert Hx end. intros.
      apply orb_true_iff in Hs as [Hs|Hs]; apply andb_true_iff in Hs as [Hs1 Hs2];
        apply Nat.leb_le in Hs1, Hs2; lia.
    + intros [d' Hd']. exfalso. exact (Hv d' Hd').
  - intros acc s v r H. destruct s as [|c t]; [discriminate|]. cbn [parse_members] in H.
    destruct (Ascii.eqb_spec c dquote) as [->|_]; [|discriminate].
    destruct (scanstring t) as [[k r0]|] eqn:Es; [|discriminate].
    destruct (scanstring_last _ _ _ Es) as [g1 E1].
    destruct (skip_ws_pre r0) as (w1 & _ & Ew1).
    destruct (skip_ws r0) as [|c2 r2] eqn:Ew; [discriminate|].
    destruct (c2 =? ":")%char; [|discriminate].
    destruct (skip_ws_pre r2) as (w2 & _ & Ew2).
    destruct (scan_once n (skip_ws r2)) as [[v0 r3]|e] eqn:Ev; [|discriminate].
    destruct (IHs _ _ _ Ev) as (g3 & c3 & E3 & _).
    destruct (skip_ws_pre r3) as (w3 & _ & Ew3).
    destruct (skip_ws r3) as [|c4 r4] eqn:Ew4; [discriminate|].
    assert (Pre : exists p, dquote :: t = p ++ c4 :: r4).
    { exists (dquote :: g1 ++ dquote :: w1 ++ c2 :: w2 ++ g3 ++ c3 :: w3).
      rewrite E1, Ew1, Ew2, E3, Ew3. app_norm. }
    destruct Pre as [p Ep]. rewrite Ep.
    destruct (Ascii.eqb_spec c4 "}") as [->|_].
    + injection H as <- <-. exists p. reflexivity.
    + destruct (c4 =? ",")%char; [|discriminate].
      destruct (skip_ws_pre r4) as (w4 & _ & Ew5).
      apply IHm in H as [mid E]. exists (p ++ c4 :: w4 ++ mid).
      rewrite Ew5, E. app_norm.
  - intros acc s v r H. cbn [parse_elements] in H.
    destruct (scan_once n s) as [[v0 r0]|e] eqn:Ev; [|discriminate].
    destruct (IHs _ _ _ Ev) as (g0 & c0 & E0 & _).
    destruct (skip_ws_pre r0) as (w0 & _ & Ew0).
    destruct (skip_ws r0) as [|c r'] eqn:Ew; [discriminate|].
    assert (Pre : s = (g0 ++ c0 :: w0) ++ c :: r').
    { rewrite E0, Ew0. app_norm. }
    destruct (Ascii.eqb_spec c "]") as [->|_].
    + injection H as <- <-. split; [eauto|]. eauto.
    + destruct (c =? ",")%char; [|discriminate].
      destruct (skip_ws_pre r') as (w1 & _ & Ew1).
      apply IHe in H as [Hl [mid E]]. split; [exact Hl|].
      exists ((g0 ++ c0 :: w0) ++ c :: w1 ++ mid). rewrite Pre, Ew1, E. app_norm.
Qed.

Lemma digit_not_space (c : ascii) : is_digit c = true -> is_space c = false.
Proof.
  unfold is_digit, is_space. intros Hd. apply andb_true_iff in Hd as [Hd1 Hd2].
  apply Nat.leb_le in Hd1, Hd2.
  destruct (9 <=? code c)%nat eqn:E1, (code c <=? 13)%nat eqn:E2,
           (28 <=? code c)%nat eqn:E3, (code c <=? 32)%nat eqn:E4; try reflexivity;
    repeat match goal with Hx : (_ <=? _)%nat = true |- _ => apply Nat.leb_le in Hx end; lia.
Qed.

Lemma ws_space (c : ascii) : is_json_ws c = true -> is_space c = true.
Proof. intros H. destruct (ws_cases c H) as [E|[E|[E|E]]]; subst c; reflexivity. Qed.

Lemma allws_space (w : text) : allws w -> forallb is_space w = true.
Proof.
  induction w as [|c w IH]; [reflexivity|]. intros H. apply allws_cons in H as [Hc Hw].
  cbn [forallb]. rewrite ws_space, IH; auto.
Qed.

Lemma skip_ws_nil_allws (r : text) : skip_ws r = [] -> allws r.
Proof.
  induction r as [|c r IH]; [reflexivity|]. cbn [skip_ws].
  destruct (is_json_ws c) eqn:Hc; [|discriminate]. intros H.
  unfold allws in *. cbn [forallb]. rewrite Hc. auto.
Qed.

Lemma scan_first (n : nat) (s r : text) (v : json) :
  scan_once n s = Ok (v, r) -> exists c t, s = c :: t /\ is_space c = false.
Proof.
  intros H. destruct n as [|n]; [discriminate|]. destruct s as [|c t]; [discriminate|].
  exists c, t. split; [reflexivity|]. cbn [scan_once] in H.
  destruct (Ascii.eqb_spec c dquote) as [->|_]; [reflexivity|].
  destruct (Ascii.eqb_spec c "{") as [->|_]; [reflexivity|].
  destruct (Ascii.eqb_spec c "[") as [->|_]; [reflexivity|].
  destruct (strip_prefix (txt "null") (c :: t)) as [r0|] eqn:E;
    [apply strip_prefix_some in E; cbn [txt list_ascii_of_string app] in E;
     injection E as -> _; reflexivity|clear E].
  destruct (strip_prefix (txt "true") (c :: t)) as [r0|] eqn:E;
    [apply strip_prefix_some in E; cbn [txt list_ascii_of_string app] in E;
     injection E as -> _; reflexivity|clear E].
  destruct (strip_prefix (txt "false") (c :: t)) as [r0|] eqn:E;
    [apply strip_prefix_some in E; cbn [txt list_ascii_of_string app] in E;
     injection E as -> _; reflexivity|clear E].
  destruct (strip_prefix (txt "NaN") (c :: t)) as [r0|] eqn:E;
    [apply strip_prefix_some in E; cbn [txt list_ascii_of_string app] in E;
     injection E as -> _; reflexivity|clear E].
  destruct (strip_prefix (txt "Infinity") (c :: t)) as [r0|] eqn:E;
    [apply strip_prefix_some in E; cbn [txt list_ascii_of_string app] in E;
     injection E as -> _; reflexivity|clear E].
  destruct (strip_prefix (txt "-Infinity") (c :: t)) as [r0|] eqn:E;
    [apply strip_prefix_some in E; cbn [txt list_ascii_of_string app] in E;
     injection E as -> _; reflexivity|clear E].
  destruct (match_number (c :: t)) as [[v0 r0]|] eqn:En; [|discriminate].
  destruct (match_number_head _ _ _ En) as (c' & t' & E & Hc).
  injection E as Ec Et. subst c'.
  destruct Hc as [[Ec _]|Hd]; [subst c; reflexivity|]. now apply digit_not_space.
Qed.

Lemma loads_ok_core (s : text) (v : json) :
  loads s = Ok v ->
  exists w1 x w2, s = w1 ++ x ++ w2 /\ allws w1 /\ allws w2 /\ loads x = Ok v /\
    (exists c t, x = c :: t /\ is_space c = false) /\
    (exists g c, x = g ++ [c] /\ is_space c = false) /\
    ((exists d, v = JObj d) -> exists mid, x = "{"%char :: mid ++ ["}"%char]).
Proof.
  unfold loads. intros H.
  destruct (scan_once (S (List.length s)) (skip_ws s)) as [[v0 r]|e] eqn:Hs; [|discriminate].
  destruct (skip_ws r) eqn:Er; [|discriminate]. injection H as <-.
  apply skip_ws_nil_allws in Er.
  destruct (skip_ws_pre s) as (w1 & Hw1 & Es).
  destruct (proj1 (scan_last_all _) _ _ _ Hs) as (g & c & Eg & Hc & Hobj).
  set (x := g ++ [c]).
  assert (Ex : skip_ws s = x ++ r) by (rewrite Eg; unfold x; app_norm).
  rewrite Ex, scan_once_app_ws in Hs by exact Er.
  destruct (scan_once (S (List.length s)) x) as [[v1 r1]|e] eqn:Hx; [|discriminate].
  cbn [fr] in Hs. injection Hs as -> Hr.
  assert (r1 = []) as -> by (apply (app_inv_tail r r1 []); exact Hr).
  destruct (proj1 (fuel_all _) _ _ _ Hx) as [_ Hf].
  pose proof (Hf (S (List.length x)) ltac:(cbn [List.length]; lia)) as Hx'.
  destruct (scan_first _ _ _ _ Hx) as (c0 & t0 & E0 & Hc0).
  exists w1, x, r. split; [rewrite Es at 1; now rewrite Ex|].
  split; [exact Hw1|]. split; [exact Er|]. split.
  { unfold loads. rewrite E0 in Hx' |- *. rewrite skip_ws_nonws.
    - rewrite Hx'. reflexivity.
    - destruct (is_json_ws c0) eqn:Hw; [|reflexivity]. rewrite ws_space in Hc0 by exact Hw. discriminate. }
  split; [eauto|]. split; [exists g, c; auto|].
  intros Hd. destruct (Hobj Hd) as [-> [mid ->]]. exists mid. reflexivity.
Qed.

Lemma allws_not_in (c : ascii) (w : text) : allws w -> is_json_ws c = false -> ~ In c w.
Proof.
  intros Hw Hc Hin. unfold allws in Hw. rewrite forallb_forall in Hw.
  rewrite (Hw c Hin) in Hc. discriminate.
Qed.

Lemma strip_prefix_app_some (p x y t : text) :
  strip_prefix p x = Some t -> strip_prefix p (x ++ y) = Some (t ++ y).
Proof. intros H. apply strip_prefix_some in H. subst x. rewrite <- app_assoc. apply strip_prefix_app. Qed.

Lemma occurs_false_app_l (p x y : text) : occurs p (x ++ y) = false -> occurs p x = false.
Proof.
  induction x as [|a x IH]; intros H.
  - cbn [occurs]. cbn [app] in H. destruct (strip_prefix p []) as [t|] eqn:E; [|reflexivity].
    pose proof (strip_prefix_app_some p [] y t E) as E'. cbn [app] in E'.
    destruct y as [|b y]; cbn [occurs] in H; rewrite E' in H; discriminate.
  - cbn [app] in H. cbn [occurs] in H |- *.
    destruct (strip_prefix p (a :: x)) as [t|] eqn:E.
    + pose proof (strip_prefix_app_some p (a :: x) y t E) as E'. cbn [app] in E'.
      rewrite E' in H. discriminate.
    + destruct (strip_prefix p (a :: x ++ y)); [discriminate|]. auto.
Qed.

Lemma comma_match_app (z y a b : text) :
  comma_match z = Some (a, b) -> comma_match (z ++ y) = Some (a, b ++ y).
Proof.
  destruct z as [|c t]; [discriminate|]. cbn [comma_match app].
  destruct (c =? ",")%char; [|discriminate].
  pose proof (span_space_spec t) as Hsp.
  destruct (span_space t) as [w r] eqn:Es. destruct Hsp as (-> & Hw & Hr).
  destruct r as [|d r']; [discriminate|]. destruct (is_closer d) eqn:Ecl; [|discriminate].
  intros H; injection H as <- <-.
  rewrite <- app_assoc. cbn [app]. rewrite (span_space_app w (d :: r' ++ y) Hw Hr), Ecl. reflexivity.
Qed.

Lemma nomatch_comma_app_l (x y : text) :
  nomatch comma_match (x ++ y) = true -> nomatch comma_match x = true.
Proof.
  induction x as [|a x IH]; intros H; [reflexivity|].
  cbn [app nomatch] in H |- *.
  destruct (comma_match (a :: x)) as [[p q]|] eqn:E.
  - pose proof (comma_match_app (a :: x) y p q E) as E'. cbn [app] in E'.
    rewrite E' in H. discriminate.
  - destruct (comma_match (a :: x ++ y)); [discriminate|]. auto.
Qed.

Lemma forallb_rev_space (w : text) : forallb is_space w = true -> forallb is_space (rev w) = true.
Proof.
  rewrite !forallb_forall. intros H c Hc. apply H. now apply in_rev.
Qed.

Lemma strip_around (w1 x w2 : text) :
  forallb is_space w1 = true -> forallb is_space w2 = true ->
  (exists c t, x = c :: t /\ is_space c = false) ->
  (exists g c, x = g ++ [c] /\ is_space c = false) ->
  strip (w1 ++ x ++ w2) = x.
Proof.
  intros H1 H2 (c & t & Ex & Hc) (g & d & Eg & Hd). unfold strip, drop_space.
  rewrite Ex at 1. cbn [app]. rewrite (span_space_app w1 (c :: t ++ w2) H1 Hc). cbn [snd].
  change (c :: t ++ w2) with ((c :: t) ++ w2). rewrite <- Ex, Eg, rev_app_distr, rev_unit.
  rewrite (span_space_app (rev w2) (d :: rev g) (forallb_rev_space _ H2) Hd). cbn [snd].
  cbn [rev]. now rewrite rev_involutive.
Qed.

Lemma extract_body_loads_ok (s : text) (v : json) :
  loads s = Ok v -> occurs ticks s = false -> nomatch comma_match s = true ->
  (exists d, v = JObj d) \/ ~ In "{"%char s ->
  extract_body s = Ok v.
Proof.
  intros Hl Ht Hn Hcase.
  destruct (loads_ok_core s v Hl) as (w1 & x & w2 & Es & Hw1 & Hw2 & Hx & Hfirst & Hlast & Hobj).
  assert (Htx : occurs ticks x = false).
  { rewrite Es in Ht. apply occurs_false_app_r in Ht. exact (occurs_false_app_l _ _ _ Ht). }
  assert (Hnx : nomatch comma_match x = true).
  { rewrite Es in Hn. apply nomatch_app_r in Hn. exact (nomatch_comma_app_l _ _ Hn). }
  unfold extract_body. destruct Hcase as [Hd|Hno].
  - destruct (Hobj Hd) as [mid Em]. rewrite <- Hx. f_equal.
    rewrite Em in Htx, Hnx. rewrite Em.
    apply candidate_of_group; [|exact Htx|exact Hnx].
    rewrite Es, Em. cbn [app]. rewrite <- app_assoc. cbn [app].
    apply search_brace_group_app.
    + apply allws_not_in; [exact Hw1|reflexivity].
    + apply allws_not_in; [exact Hw2|reflexivity].
  - rewrite <- Hx. f_equal. unfold candidate.
    rewrite (search_brace_group_none s Hno).
    rewrite (re_sub_nomatch fence_match s (nomatch_fence s Ht)).
    rewrite Es, strip_around by (auto using allws_space).
    exact (re_sub_nomatch comma_match x Hnx).
Qed.

Lemma not_in_of_existsb (c : ascii) (l : text) :
  existsb (Ascii.eqb c) l = false -> ~ In c l.
Proof.
  intros H Hin. assert (existsb (Ascii.eqb c) l = true); [|congruence].
  apply existsb_exists. exists c. split; [exact Hin|apply Ascii.eqb_refl].
Qed.

(** ** The claims *)

(** *** C1 *)

(** C1 (counterexample).  The valid JSON text [[{"a":1},{"b":2}]] is not
    parsed as itself: the candidate runs from its first ['{'] to its last
    ['}'], [{"a":1},{"b":2}], which [json.loads] refuses. *)
Lemma C1_counterexample :
  loads (dq "[{'a':1},{'b':2}]") = Ok (JArr [JObj [([97], JInt 1)]; JObj [([98], JInt 2)]])
  /\ extract_body (dq "[{'a':1},{'b':2}]") = Raise JSONDecodeError
  /\ extracted (dq "[{'a':1},{'b':2}]") = py_None.
Proof. vm_compute. auto. Qed.

(** C1 (amended).  A text that [json.loads] accepts, with no triple
    backtick and no comma followed by optional whitespace and a closer, is
    extracted as exactly the value [json.loads] gives, with nothing shown
    on the page, when that value is a dict or the text has no ['{'].  JSON
    whitespace around the value is allowed. *)
Theorem C1_loads_value_extracted (s : text) (v : json) (page : list ui_event) :
  loads s = Ok v -> occurs ticks s = false -> nomatch comma_match s = true ->
  (exists d, v = JObj d) \/ ~ In "{"%char s ->
  extract_body s = Ok v /\ extract_and_parse_json s page = (v, page).
Proof.
  intros Hl Ht Hc Hcase.
  assert (Hb : extract_body s = Ok v) by exact (extract_body_loads_ok s v Hl Ht Hc Hcase).
  split; [exact Hb|]. unfold extract_and_parse_json. now rewrite Hb.
Qed.

Lemma C1_loads_value_extracted_witness :
  extract_and_parse_json (" "%char :: dq "{'a':1}" ++ [nl]) [] = (JObj [([97], JInt 1)], [])
  /\ extract_and_parse_json (txt "[1,2]" ++ [nl]) [] = (JArr [JInt 1; JInt 2], []).
Proof.
  split.
  - refine (proj2 (C1_loads_value_extracted _ _ [] _ _ _ _));
      [vm_compute; reflexivity|vm_compute; reflexivity|vm_compute; reflexivity|].
    left. eexists. reflexivity.
  - refine (proj2 (C1_loads_value_extracted _ _ [] _ _ _ _));
      [vm_compute; reflexivity|vm_compute; reflexivity|vm_compute; reflexivity|].
    right. apply not_in_of_existsb. vm_compute. reflexivity.
Defined.

(** *** C2 *)

(** C2 (counterexample).  Leading prose with braces of its own moves the
    start of the candidate: [Plan for {user}:] before a fenced [{"a":1}]
    makes extraction fail, though the fenced object parses. *)
Lemma C2_counterexample :
  let pre := txt "Plan for {user}:" ++ [nl] ++ ticks ++ txt "json" ++ [nl] in
  let j := dq "{'a':1}" in
  let post := [nl] ++ ticks ++ [nl] in
  loads j = Ok (JObj [([97], JInt 1)]) /\
  extract_body (pre ++ j ++ post) = Raise JSONDecodeError.
Proof. vm_compute. auto. Qed.

(** C2 (amended).  Whatever comes before the object (prose, a fence with or
    without the [json] tag) without a ['{'], and whatever comes after it
    without a ['}'], is cut away: for an object text beginning with ['{']
    and ending with ['}'] with no triple backtick and no comma followed by
    optional whitespace and a closer, extraction returns what [json.loads]
    returns on the object text alone. *)
Theorem C2_wrapped_object_parsed (pre mid post : text) (page : list ui_event) :
  let j := "{"%char :: mid ++ ["}"%char] in
  ~ In "{"%char pre -> ~ In "}"%char post ->
  occurs ticks j = false -> nomatch comma_match j = true ->
  extract_body (pre ++ j ++ post) = loads j /\
  (forall v, loads j = Ok v -> extract_and_parse_json (pre ++ j ++ post) page = (v, page)).
Proof.
  intros j Hpre Hpost Ht Hc.
  assert (Hb : extract_body (pre ++ j ++ post) = loads j).
  { unfold extract_body. f_equal. apply (candidate_of_group _ mid); auto.
    unfold j. simpl. rewrite <- app_assoc. simpl.
    now apply search_brace_group_app. }
  split; [exact Hb|]. intros v Hv.
  unfold extract_and_parse_json. now rewrite Hb, Hv.
Qed.

Lemma C2_wrapped_object_parsed_witness :
  extract_body ((txt "Here is your plan:" ++ [nl] ++ ticks ++ txt "json" ++ [nl])
                ++ ("{"%char :: dq "'a':1" ++ ["}"%char])
                ++ ([nl] ++ ticks ++ [nl] ++ txt "Enjoy!"))
  = loads ("{"%char :: dq "'a':1" ++ ["}"%char]).
Proof.
  apply (C2_wrapped_object_parsed _ _ _ []).
  - apply not_in_of_existsb. reflexivity.
  - apply not_in_of_existsb. reflexivity.
  - reflexivity.
  - reflexivity.
Defined.

(** *** C3 *)

(** C3 (counterexample).  The repair also deletes commas inside string
    values: [{"a":"x,}",}] is extracted as [{"a":"x}"}], while the text with
    its trailing comma deleted, [{"a":"x,}"}], parses as [{"a":"x,}"}]. *)
Lemma C3_counterexample :
  extract_body (dq "{'a':'x,}',}") = Ok (JObj [([97], JStr [120; 125])]) /\
  loads (dq "{'a':'x,}'}") = Ok (JObj [([97], JStr [120; 44; 125])]).
Proof. vm_compute. auto. Qed.

(** C3 (amended).  Let [d] be an object text beginning with ['{'] and ending
    with ['}'], with no triple backtick and no comma followed by optional
    whitespace and a closer.  Putting one comma into [d] just before a
    closer (whitespace may separate them) gives a text that extraction
    turns back into [d]: it returns what [json.loads] returns on [d]. *)
Theorem C3_trailing_comma_removed (a w b mid : text) (c : ascii) :
  is_closer c = true -> forallb is_space w = true ->
  a ++ w ++ c :: b = "{"%char :: mid ++ ["}"%char] ->
  occurs ticks (a ++ w ++ c :: b) = false ->
  nomatch comma_match (a ++ w ++ c :: b) = true ->
  extract_body (a ++ ","%char :: w ++ c :: b) = loads (a ++ w ++ c :: b).
Proof.
  intros Hc Hw Hd Ht Hn.
  destruct (braced_insert_comma a w b mid c Hc Hw Hd) as (mid' & Ht').
  unfold extract_body, candidate. f_equal.
  pose proof (search_brace_group_app [] mid' [] ltac:(simpl; tauto) ltac:(simpl; tauto))
    as G.
  simpl in G. rewrite Ht', G, <- Ht'.
  rewrite (re_sub_nomatch fence_match).
  2:{ apply nomatch_fence. now apply occurs_ticks_insert_comma. }
  rewrite Ht', strip_braced, <- Ht'.
  now apply re_sub_comma_delete.
Qed.

Lemma C3_trailing_comma_removed_witness :
  extract_body (dq "{'a':[1,2]" ++ ","%char :: [] ++ "}"%char :: [])
  = loads (dq "{'a':[1,2]" ++ [] ++ "}"%char :: []).
Proof.
  apply (C3_trailing_comma_removed _ _ _ (dq "'a':[1,2]")); reflexivity.
Defined.

(** *** C4 *)

(** C4.  The scenario of the specification: prose, a [json] fence around
    [{"a":1,"b":[1,2,],}], and [Enjoy!] give [{"a":1,"b":[1,2]}], with
    nothing shown on the page. *)
Theorem C4_scenario (page : list ui_event) :
  extract_and_parse_json scenario_input page = (scenario_plan, page).
Proof.
  unfold extract_and_parse_json.
  replace (extract_body scenario_input) with (Ok scenario_plan)
    by (vm_compute; reflexivity).
  reflexivity.
Qed.

(** *** C5 *)

Lemma span_space_snd (s : text) : exists w, s = w ++ snd (span_space s).
Proof.
  pose proof (span_space_spec s) as H. destruct (span_space s) as [w r].
  exists w. apply H.
Qed.

Lemma fence_match_shrinks : shrinks fence_match.
Proof.
  intros s r rest. unfold fence_match, fence_alt1, fence_alt2.
  destruct (strip_prefix ticks s) as [t|] eqn:E.
  - apply strip_prefix_some in E as ->.
    destruct (strip_prefix (txt "json") t) as [u|] eqn:E2;
      intros H; injection H as <- <-.
    + apply strip_prefix_some in E2 as ->.
      destruct (span_space_snd u) as [w Hw].
      exists (ticks ++ txt "json" ++ w). split; [|intros x []].
      rewrite Hw at 1. now rewrite <- !app_assoc.
    + destruct (span_space_snd t) as [w Hw].
      exists (ticks ++ w). split; [|intros x []].
      rewrite Hw at 1. now rewrite <- !app_assoc.
  - pose proof (span_space_spec s) as Hs. destruct (span_space s) as [w r'].
    destruct (strip_prefix ticks r') as [u|] eqn:E2; [|discriminate].
    intros H. injection H as <- <-. destruct Hs as (-> & _).
    apply strip_prefix_some in E2 as ->.
    exists (w ++ ticks). split; [now rewrite <- app_assoc | intros x []].
Qed.

Lemma comma_match_shrinks : shrinks comma_match.
Proof.
  intros s r rest. unfold comma_match.
  destruct s as [|c t]; [discriminate|].
  destruct (Ascii.eqb c ","); [|discriminate].
  pose proof (span_space_spec t) as Hs. destruct (span_space t) as [w r'].
  destruct r' as [|d r'']; [discriminate|].
  destruct (is_closer d); [|discriminate].
  intros H. injection H as <- <-. destruct Hs as (-> & _).
  exists (c :: w ++ [d]). split.
  - simpl. now rewrite <- app_assoc.
  - intros x Hx. now right.
Qed.

Lemma re_sub_go_in (m : text -> option (text * text)) (f : nat) (s : text) (c : ascii) :
  shrinks m -> In c (re_sub_go f m s) -> In c s.
Proof.
  intros Hm. revert s; induction f as [|f IH]; intros s H; simpl in H; [exact H|].
  destruct s as [|c0 t]; [exact H|].
  destruct (m (c0 :: t)) as [[r rest]|] eqn:E.
  - destruct (Hm _ _ _ E) as (p & Hp & Hr). rewrite Hp.
    apply in_app_or in H as [H|H].
    + apply in_or_app. left. now apply Hr.
    + apply in_or_app. right. now apply IH.
  - destruct H as [H|H]; [now left|right; now apply IH].
Qed.

Lemma strip_in (s : text) (c : ascii) : In c (strip s) -> In c s.
Proof.
  unfold strip, drop_space. intros H. apply in_rev in H.
  destruct (span_space_snd (rev (snd (span_space s)))) as [w Hw].
  assert (In c (rev (snd (span_space s)))) as H2
    by (rewrite Hw; apply in_or_app; now right).
  apply in_rev in H2.
  destruct (span_space_snd s) as [w' Hw']. rewrite Hw'.
  apply in_or_app. now right.
Qed.

Lemma candidate_in (raw : text) (c : ascii) :
  search_brace_group raw = None -> In c (candidate raw) -> In c raw.
Proof.
  unfold candidate. intros -> H.
  apply re_sub_go_in in H; [|exact comma_match_shrinks].
  apply strip_in in H.
  apply re_sub_go_in in H; [exact H|exact fence_match_shrinks].
Qed.

Lemma match_number_not_obj (s r : text) (l : list (pystr * json)) :
  match_number s <> Some (JObj l, r).
Proof.
  unfold match_number, num_sign, int_part, frac_part, exp_part. intros H.
  repeat match type of H with
         | context [match ?x with _ => _ end] => destruct x
         end; discriminate H.
Qed.

(** A dict only comes from a text whose value starts with ['{']. *)
Lemma scan_once_obj (n : nat) (s r : text) (l : list (pystr * json)) :
  scan_once n s = Ok (JObj l, r) -> exists t, s = "{"%char :: t.
Proof.
  destruct n as [|n]; [discriminate|].
  destruct s as [|c t]; [discriminate|]. cbn [scan_once].
  destruct (Ascii.eqb_spec c dquote) as [->|_].
  { destruct (scanstring t) as [[cs r']|]; discriminate. }
  destruct (Ascii.eqb_spec c "{") as [->|_]; [eauto|].
  destruct (Ascii.eqb c "[").
  { destruct (skip_ws t) as [|d r']; [discriminate|].
    destruct (Ascii.eqb d "]"); [discriminate|].
    intros H. exfalso. revert H.
    assert (Hel : forall k acc x, parse_elements k acc x <> Ok (JObj l, r)).
    { induction k as [|k IH]; intros acc x; simpl; [discriminate|].
      destruct (scan_once k x) as [[v r0]|e]; [|discriminate].
      destruct (skip_ws r0) as [|c0 r1]; [discriminate|].
      destruct (Ascii.eqb c0 "]"); [discriminate|].
      destruct (Ascii.eqb c0 ","); [apply IH|discriminate]. }
    apply Hel. }
  repeat match goal with
         | |- context [strip_prefix ?p ?x] => destruct (strip_prefix p x); [discriminate|]
         end.
  destruct (match_number (c :: t)) as [[v r']|] eqn:Em; [|discriminate].
  intros H. injection H as -> ->. exfalso. exact (match_number_not_obj _ _ _ Em).
Qed.

Lemma skip_ws_suffix (s : text) : exists w, s = w ++ skip_ws s.
Proof.
  induction s as [|c s IH]; simpl; [now exists []|].
  destruct (is_json_ws c); [|now exists []].
  destruct IH as [w Hw]. exists (c :: w). simpl. now f_equal.
Qed.

Lemma loads_obj (s : text) (l : list (pystr * json)) :
  loads s = Ok (JObj l) -> In "{"%char s.
Proof.
  unfold loads. destruct (scan_once _ (skip_ws s)) as [[v r]|e] eqn:E; [|discriminate].
  destruct (skip_ws r); [|discriminate]. intros H. injection H as ->.
  apply scan_once_obj in E as (t & Et).
  destruct (skip_ws_suffix s) as [w Hw]. rewrite Hw, Et.
  apply in_or_app. right. now left.
Qed.

(** *** C5 *)

(** C5 (counterexample).  [42] has no ['{'] and is not a failure: it is
    extracted as the int 42, with nothing shown on the page. *)
Lemma C5_counterexample :
  extract_and_parse_json (txt "42") [] = (JInt 42, []).
Proof. vm_compute. reflexivity. Qed.

(** C5 (amended).  Without a ['{'] the whole input, after the fence
    removal, [strip()] and the comma repair, goes to [json.loads]; the
    result is never a dict, though it may be another JSON value ([42]
    succeeds).  A [JSONDecodeError] returns [None] and shows the raw input
    verbatim; [not json at all] is such a failure. *)
Theorem C5_no_brace_input :
  (forall (raw : text) (page : list ui_event),
     ~ In "{"%char raw ->
     extract_body raw = loads (re_sub comma_match (strip (re_sub fence_match raw))) /\
     (forall l, fst (extract_and_parse_json raw page) <> JObj l) /\
     (extract_body raw = Raise JSONDecodeError ->
      extract_and_parse_json raw page
      = (py_None, page ++ [StError JSONDecodeError;
                          StTextArea "Problematic JSON Output" raw]))) /\
  (forall page : list ui_event,
     extract_and_parse_json (txt "not json at all") page
     = (py_None, page ++ [StError JSONDecodeError;
                         StTextArea "Problematic JSON Output" (txt "not json at all")])).
Proof.
  split.
  - intros raw page Hraw.
    assert (Hb : extract_body raw
                 = loads (re_sub comma_match (strip (re_sub fence_match raw)))).
    { unfold extract_body, candidate. now rewrite search_brace_group_none. }
    split; [exact Hb|]. split.
    + intros l. unfold extract_and_parse_json.
      destruct (extract_body raw) as [v|[|]] eqn:E; simpl; try discriminate.
      intros ->. apply Hraw.
      apply (candidate_in raw); [now apply search_brace_group_none|].
      now apply (loads_obj _ l).
    + intros E. unfold extract_and_parse_json. now rewrite E.
  - intros page. unfold extract_and_parse_json.
    replace (extract_body (txt "not json at all")) with (@Raise json JSONDecodeError)
      by (vm_compute; reflexivity).
    reflexivity.
Qed.

Lemma C5_no_brace_input_witness :
  extract_body (txt "42") = loads (re_sub comma_match (strip (re_sub fence_match (txt "42")))).
Proof.
  apply (proj1 (proj1 C5_no_brace_input (txt "42") []
                 (not_in_of_existsb "{"%char (txt "42") eq_refl))).
Defined.

(** *** C6 *)

(** C6.  The returned value depends on the input alone, and so does what
    the call adds to the page, whatever the page held before. *)
Theorem C6_deterministic (raw : text) (page1 page2 : list ui_event) :
  fst (extract_and_parse_json raw page1) = fst (extract_and_parse_json raw page2) /\
  exists shown,
    snd (extract_and_parse_json raw page1) = page1 ++ shown /\
    snd (extract_and_parse_json raw page2) = page2 ++ shown.
Proof.
  unfold extract_and_parse_json.
  destruct (extract_body raw) as [v|[|]]; simpl; split; auto.
  - exists []. now rewrite !app_nil_r.
  - eauto.
  - eauto.
Qed.

(** *** C9 *)

(** C9.  Whatever the parse raises is caught: the function then returns
    [None] after reporting the exception on the page. *)
Theorem C9_exceptions_caught (raw : text) (page : list ui_event) :
  match extract_body raw with
  | Ok v => extract_and_parse_json raw page = (v, page)
  | Raise e => fst (extract_and_parse_json raw page) = py_None /\
               exists shown, snd (extract_and_parse_json raw page) = page ++ StError e :: shown
  end.
Proof.
  unfold extract_and_parse_json.
  destruct (extract_body raw) as [v|[|]]; simpl; auto; split; eauto.
Qed.

(** *** C10 *)

(** C10 (counterexample).  The JSON text ["```"] has no ['{'] and
    [json.loads] reads it as a string of three backticks, but extraction
    returns the empty string: the fence rewrite also removes backticks
    inside string values. *)
Lemma C10_counterexample :
  ~ In "{"%char (dq "'```'")
  /\ loads (dq "'```'") = Ok (JStr [96; 96; 96])
  /\ extracted (dq "'```'") = JStr [].
Proof. split; [apply not_in_of_existsb; reflexivity|]. vm_compute. auto. Qed.

(** C10 (amended).  Success does not mean a dict: [42] and [[1,2]] are
    extracted as an int and a list.  More generally a text without ['{'],
    without triple backticks and without a comma before a closer, that
    [json.loads] accepts, is extracted as exactly the value [json.loads]
    gives, and that value is never a dict. *)
Theorem C10_brace_free_value_extracted :
  extracted (txt "42") = JInt 42 /\
  extracted (txt "[1,2]") = JArr [JInt 1; JInt 2] /\
  (forall (raw : text) (v : json),
     ~ In "{"%char raw -> occurs ticks raw = false ->
     nomatch comma_match raw = true -> loads raw = Ok v ->
     extracted raw = v /\ forall d, v <> JObj d).
Proof.
  split; [vm_compute; reflexivity|]. split; [vm_compute; reflexivity|].
  intros raw v Hb Ht Hc Hl. split.
  - unfold extracted, extract_and_parse_json.
    now rewrite (extract_body_loads_ok raw v Hl Ht Hc (or_intror Hb)).
  - intros d ->. exact (Hb (loads_obj raw d Hl)).
Qed.

Lemma C10_brace_free_value_extracted_witness :
  extracted (txt "42" ++ [nl]) = JInt 42.
Proof.
  refine (proj1 (proj2 (proj2 C10_brace_free_value_extracted) (txt "42" ++ [nl]) (JInt 42) _ _ _ _));
    [apply not_in_of_existsb; vm_compute; reflexivity
    |vm_compute; reflexivity|vm_compute; reflexivity|vm_compute; reflexivity].
Defined.

(** *** C8 *)

Lemma text_eqb_true (a b : text) : text_eqb a b = true -> a = b.
Proof. unfold text_eqb. now destruct (list_eq_dec Ascii.ascii_dec a b). Qed.

Lemma find_ctx_sound (n : text) (segs : list segment) :
  forall a x y b, find_ctx n segs = Some (a, x, y, b) ->
  segs = a ++ Lit x :: Field n :: Lit y :: b.
Proof.
  induction segs as [|sg segs IH]; intros a x y b H; [discriminate|].
  assert (Hp : prepend_ctx sg (find_ctx n segs) = Some (a, x, y, b) ->
               sg :: segs = a ++ Lit x :: Field n :: Lit y :: b).
  { unfold prepend_ctx. destruct (find_ctx n segs) as [[[[a' x'] y'] b']|]; [|discriminate].
    intros E. injection E as <- <- <- <-. simpl. f_equal. now apply IH. }
  simpl in H.
  destruct sg as [x0|m0]; [|now apply Hp].
  destruct segs as [|[y0|m] segs']; [now apply Hp|now apply Hp|].
  destruct segs' as [|[y1|m1] rest]; [now apply Hp| |now apply Hp].
  destruct (text_eqb m n) eqn:Em; [|now apply Hp].
  apply text_eqb_true in Em as ->. injection H as <- <- <- <-. reflexivity.
Qed.

Lemma ctx_ok_sound (n pre post : text) (segs b : list segment) :
  ctx_ok n pre post segs = Some b ->
  exists a x y, segs = a ++ Lit (x ++ pre) :: Field n :: Lit (post ++ y) :: b.
Proof.
  unfold ctx_ok, ends_with, starts_with.
  destruct (find_ctx n segs) as [[[[a x] y] b']|] eqn:E; [|discriminate].
  destruct (strip_prefix (rev pre) (rev x)) as [r|] eqn:E1; [|discriminate].
  destruct (strip_prefix post y) as [r'|] eqn:E2; [|discriminate].
  intros H. injection H as <-.
  apply strip_prefix_some in E1. apply strip_prefix_some in E2 as ->.
  apply find_ctx_sound in E as ->.
  exists a, (rev r), r'. do 3 f_equal.
  rewrite <- (rev_involutive x), E1, rev_app_distr. now rewrite rev_involutive.
Qed.

Lemma render_app (L : text -> option text) (s1 s2 : list segment) (o1 o2 : text) :
  render L s1 = Some o1 -> render L s2 = Some o2 -> render L (s1 ++ s2) = Some (o1 ++ o2).
Proof.
  revert o1; induction s1 as [|[x|n] s1 IH]; intros o1 H1 H2; simpl in *.
  - now injection H1 as <-.
  - destruct (render L s1) as [o|]; [|discriminate]. injection H1 as <-.
    rewrite (IH o) by auto. now rewrite app_assoc.
  - destruct (L n) as [v|]; [|discriminate].
    destruct (render L s1) as [o|]; [|discriminate]. injection H1 as <-.
    rewrite (IH o) by auto. now rewrite app_assoc.
Qed.

Lemma render_app_inv (L : text -> option text) (s1 s2 : list segment) (out : text) :
  render L (s1 ++ s2) = Some out ->
  exists o1 o2, render L s1 = Some o1 /\ render L s2 = Some o2 /\ out = o1 ++ o2.
Proof.
  revert out; induction s1 as [|[x|n] s1 IH]; intros out H; simpl in *.
  - now exists [], out.
  - destruct (render L (s1 ++ s2)) as [o|]; [|discriminate]. injection H as <-.
    destruct (IH o eq_refl) as (o1 & o2 & -> & -> & ->).
    exists (x ++ o1), o2. now rewrite app_assoc.
  - destruct (L n) as [v|]; [|discriminate].
    destruct (render L (s1 ++ s2)) as [o|]; [|discriminate]. injection H as <-.
    destruct (IH o eq_refl) as (o1 & o2 & -> & -> & ->).
    exists (v ++ o1), o2. now rewrite app_assoc.
Qed.

Lemma render_total (L : text -> option text) (segs : list segment) :
  (forall n, existsb (text_eqb n) known_names = true -> exists v, L n = Some v) ->
  fields_known segs = true -> exists o, render L segs = Some o.
Proof.
  intros HL. induction segs as [|[x|n] segs IH]; simpl; intros H.
  - eauto.
  - destruct (IH H) as [o ->]. eauto.
  - apply andb_true_iff in H as [Hn H].
    destruct (HL n Hn) as [v ->]. destruct (IH H) as [o ->]. eauto.
Qed.

Lemma profile_value_known (p : user_profile) (ts n : text) :
  existsb (text_eqb n) known_names = true -> exists v, profile_value p ts n = Some v.
Proof.
  intros H. apply existsb_exists in H as (k & Hk & E).
  apply text_eqb_true in E as ->.
  simpl in Hk. repeat destruct Hk as [<-|Hk]; try (eexists; reflexivity).
  destruct Hk.
Qed.

(** Rendering around a field that sits between two literals. *)
Lemma render_ctx (L : text -> option text) (a b : list segment) (x pre n post y v out : text) :
  render L (a ++ Lit (x ++ pre) :: Field n :: Lit (post ++ y) :: b) = Some out ->
  L n = Some v ->
  exists A ob, render L b = Some ob /\ out = A ++ pre ++ v ++ post ++ y ++ ob.
Proof.
  intros H Hn. apply render_app_inv in H as (o1 & o2 & _ & H2 & ->).
  simpl in H2. rewrite Hn in H2.
  destruct (render L b) as [ob|]; [|discriminate].
  injection H2 as <-. exists (o1 ++ x), ob. split; [reflexivity|].
  now rewrite <- !app_assoc.
Qed.

Lemma template_checks :
  match create_prompt_template with
  | Some segs =>
      fields_known segs &&
      match ctx_ok (txt "duration") (txt "a personalized ") (txt "-day diet plan") segs with
      | Some b => match ctx_ok (txt "duration") (dq "'plan_duration': ") [nl] b with
                  | Some _ => true
                  | None => false
                  end
      | None => false
      end
  | None => false
  end = true.
Proof. vm_compute. reflexivity. Qed.

(** C8.  For any profile with [duration = 14] (whatever its age, weight and
    height) the prompt is built, and it contains [a personalized 14-day diet
    plan] and, later, ["plan_duration": 14]: both places are filled by the
    [duration] field, next to a duration label of the template. *)
Theorem C8_duration_in_prompt (p : user_profile) (timestamp : text) :
  duration p = 14 ->
  exists A B C, format_prompt p timestamp
                = Some (A ++ txt "a personalized 14-day diet plan" ++ B
                          ++ dq "'plan_duration': 14" ++ C).
Proof.
  intros Hd. pose proof template_checks as Hc. unfold format_prompt.
  destruct create_prompt_template as [segs|]; [|discriminate].
  apply andb_true_iff in Hc as [Hk Hc].
  destruct (ctx_ok _ _ _ segs) as [b|] eqn:E1; [|discriminate].
  destruct (ctx_ok _ _ _ b) as [b2|] eqn:E2; [|discriminate].
  apply ctx_ok_sound in E1 as (a & x & y & ->).
  apply ctx_ok_sound in E2 as (a2 & x2 & y2 & ->).
  destruct (render_total (profile_value p timestamp) _ (profile_value_known p timestamp) Hk)
    as [out Hout].
  assert (Hv : profile_value p timestamp (txt "duration") = Some (txt "14"))
    by (unfold profile_value; simpl; now rewrite Hd).
  destruct (render_ctx _ _ _ _ _ _ _ _ _ _ Hout Hv) as (A & ob & Hob & ->).
  destruct (render_ctx _ _ _ _ _ _ _ _ _ _ Hob Hv) as (A2 & ob2 & _ & ->).
  exists A, (y ++ A2), (nl :: y2 ++ ob2). rewrite Hout. f_equal.
  rewrite <- !app_assoc. reflexivity.
Qed.

Lemma C8_duration_in_prompt_witness :
  exists A B C, format_prompt
    {| name := txt "Alex"; age := 14; weight := FDec 7 1; height := FDec 14 1;
       activity_level := txt "Sedentary"; dietary_preferences := txt "None";
       dietary_requirements := txt "None"; restrictions := txt "None";
       goal := txt "Weight Loss"; region := txt "South Asia";
       preferred_cuisines := txt "Any"; budget := txt "Low";
       meal_frequency := txt "3 meals"; duration := 14;
       secondary_goals := txt "None" |} (txt "2026-10-17T10:00:00")
    = Some (A ++ txt "a personalized 14-day diet plan" ++ B
              ++ dq "'plan_duration': 14" ++ C).
Proof. apply C8_duration_in_prompt. reflexivity. Defined.

(** *** C7 *)

(** C7: the JSON export of [display_plan] is an identity transform.  For
    every plan that [extract_and_parse_json] obtains from [json.loads],
    printing it with [json.dumps(plan, indent=2)] and reading the text back
    with [json.loads] gives the same value: the same members in the same
    order, the same array elements, strings with the same code points, the
    same integers and the same numbers.  The equality is structural.  Floats
    are kept as exact decimals, so binary64 rounding is not modelled; it
    does not change the result, since [float.__repr__] reads back to the
    same float.  [NaN] is read back as [NaN], although Python's [==] is
    false on it. *)
Theorem C7_export_roundtrip (raw_output : text) (plan : json) :
  extract_body raw_output = Ok plan -> export_roundtrip plan = Ok plan.
Proof. intros H. exact (loads_dumps plan (loads_wf _ plan H)). Qed.

Lemma C7_export_roundtrip_witness :
  extract_body scenario_input = Ok scenario_plan
  /\ export_roundtrip scenario_plan = Ok scenario_plan.
Proof.
  split; [vm_compute; reflexivity|].
  apply (C7_export_roundtrip scenario_input). vm_compute. reflexivity.
Defined.

(** ** Properties of [get_user_input], [display_plan] and [main] *)

Lemma text_eqb_refl (a : text) : text_eqb a a = true.
Proof. unfold text_eqb. now destruct (list_eq_dec Ascii.ascii_dec a a). Qed.

Lemma sess_get_set (s : session) (k k' : text) (v : json) :
  sess_get (sess_set s k v) k' = if text_eqb k' k then Some v else sess_get s k'.
Proof.
  induction s as [|[k0 v0] r IH]; cbn [sess_set sess_get].
  - reflexivity.
  - destruct (text_eqb k k0) eqn:E.
    + apply text_eqb_true in E as ->. cbn [sess_get].
      destruct (text_eqb k' k0); reflexivity.
    + cbn [sess_get]. rewrite IH.
      destruct (text_eqb k' k) eqn:E1; [|reflexivity].
      apply text_eqb_true in E1 as ->. rewrite E. reflexivity.
Qed.

Lemma fold_init_get (ds : list (text * json)) (s : session) (k : text) :
  sess_get (fold_left init_key ds s) k =
  match sess_get s k with Some v => Some v | None => sess_get ds k end.
Proof.
  revert s. induction ds as [|[k0 d0] ds IH]; intros s; cbn [fold_left sess_get].
  - destruct (sess_get s k); reflexivity.
  - rewrite IH. unfold init_key. cbn [fst snd].
    destruct (sess_get s k0) as [v0|] eqn:E0.
    + destruct (sess_get s k) as [v|] eqn:E; [reflexivity|].
      destruct (text_eqb k k0) eqn:Ek; [|reflexivity].
      apply text_eqb_true in Ek as ->. congruence.
    + rewrite sess_get_set. destruct (text_eqb k k0) eqn:Ek; [|reflexivity].
      apply text_eqb_true in Ek as ->. rewrite E0. reflexivity.
Qed.

Lemma fold_init_present (ds : list (text * json)) (s : session) :
  Forall (fun kd => sess_get s (fst kd) <> None) ds -> fold_left init_key ds s = s.
Proof.
  revert s. induction ds as [|kd ds IH]; intros s H; [reflexivity|].
  inversion H as [|? ? H1 H2]; subst. cbn [fold_left]. unfold init_key at 2.
  destruct (sess_get s (fst kd)); [|contradiction]. now apply IH.
Qed.

(** X4 ([main], session initialisation).  After the initialisation every
    key of the session keeps the value it had; a key that was missing gets
    its default when it is one of the five keys, and stays missing
    otherwise. *)
Theorem main_init_get (s : session) (k : text) :
  sess_get (main_init s) k =
  match sess_get s k with Some v => Some v | None => sess_get session_defaults k end.
Proof. apply fold_init_get. Qed.

(** X5 ([main], session initialisation).  Running the initialisation again
    (on the next rerun of the script) leaves the session unchanged. *)
Theorem main_init_idem (s : session) : main_init (main_init s) = main_init s.
Proof.
  unfold main_init at 1. apply fold_init_present.
  unfold session_defaults. repeat constructor; cbn [fst];
  unfold main_init; rewrite fold_init_get; destruct (sess_get s _); discriminate.
Qed.


Lemma zstrip_prefix_sound (p s r : pystr) : zstrip_prefix p s = Some r -> s = p ++ r.
Proof.
  revert s. induction p as [|a p IH]; intros s H; cbn [zstrip_prefix] in H.
  - now injection H as ->.
  - destruct s as [|b s]; [discriminate|].
    destruct (Z.eqb_spec a b) as [->|]; [|discriminate].
    now rewrite (IH s H).
Qed.

Lemma zjoin_cons (sep : pystr) (c : Z) (p : pystr) (ps : list pystr) :
  zjoin sep ((c :: p) :: ps) = c :: zjoin sep (p :: ps).
Proof. destruct ps; reflexivity. Qed.

Lemma split_go_nil (f : nat) (sep s : pystr) : split_go f sep s <> [].
Proof.
  destruct f as [|f]; cbn [split_go]; [discriminate|].
  destruct s as [|c t]; [discriminate|].
  destruct (zstrip_prefix sep (c :: t)); [discriminate|].
  destruct (split_go f sep t); discriminate.
Qed.

Lemma zjoin_split_go (f : nat) (sep s : pystr) : zjoin sep (split_go f sep s) = s.
Proof.
  revert s. induction f as [|f IH]; intros s; cbn [split_go]; [reflexivity|].
  destruct s as [|c t]; [reflexivity|].
  destruct (zstrip_prefix sep (c :: t)) as [r|] eqn:E.
  - apply zstrip_prefix_sound in E. rewrite E.
    pose proof (split_go_nil f sep r) as Hn.
    destruct (split_go f sep r) as [|q qs] eqn:Es; [contradiction|].
    change (zjoin sep ([] :: q :: qs)) with ([] ++ sep ++ zjoin sep (q :: qs)).
    rewrite <- Es, IH. reflexivity.
  - pose proof (IH t) as Ht. pose proof (split_go_nil f sep t) as Hn.
    destruct (split_go f sep t) as [|p ps].
    + contradiction.
    + rewrite zjoin_cons, Ht. reflexivity.
Qed.

Lemma zjoin_py_split (sep s : pystr) : zjoin sep (py_split sep s) = s.
Proof. apply zjoin_split_go. Qed.

Lemma split_go_absent (f : nat) (s : pystr) :
  ~ In 95 s -> split_go f [95] s = [s].
Proof.
  revert s. induction f as [|f IH]; intros s H; cbn [split_go]; [reflexivity|].
  destruct s as [|c t]; [reflexivity|].
  cbn [zstrip_prefix]. destruct (Z.eqb_spec 95 c) as [<-|Hc].
  - exfalso. apply H. left. reflexivity.
  - rewrite IH; [reflexivity|]. intros Ht. apply H. right. exact Ht.
Qed.

Lemma split_go_pieces (f : nat) (s : pystr) :
  (List.length s < f)%nat -> Forall (fun p => ~ In 95 p) (split_go f [95] s).
Proof.
  revert s. induction f as [|f IH]; intros s Hl; [lia|]. cbn [split_go].
  destruct s as [|c t]; [constructor; [intros []|constructor]|].
  cbn [List.length] in Hl. cbn [zstrip_prefix]. destruct (Z.eqb_spec 95 c) as [<-|Hc].
  - constructor; [intros []|]. apply IH. lia.
  - pose proof (IH t ltac:(lia)) as Ht. destruct (split_go f [95] t) as [|p ps].
    + constructor; [|constructor]. intros [E|[]]. congruence.
    + inversion Ht; subst. constructor; [|assumption].
      intros [E|E]; [congruence|contradiction].
Qed.

Lemma zstrip_prefix_in (p s r : pystr) (c : Z) :
  zstrip_prefix p s = Some r -> In c p -> In c s.
Proof.
  intros H Hc. apply zstrip_prefix_sound in H as ->. apply in_or_app. now left.
Qed.

Lemma replace_go_absent (f : nat) (old s : pystr) (c : Z) :
  In c old -> ~ In c s -> replace_go f old [] s = s.
Proof.
  revert s. induction f as [|f IH]; intros s Ho Hs; cbn [replace_go]; [reflexivity|].
  destruct s as [|a t]; [reflexivity|].
  destruct (zstrip_prefix old (a :: t)) eqn:E.
  - exfalso. exact (Hs (zstrip_prefix_in _ _ _ _ E Ho)).
  - rewrite IH; [reflexivity|assumption|]. intros Ht. apply Hs. right. exact Ht.
Qed.

Lemma last_item_in {A : Type} (l : list A) (x : A) : last_item l = Some x -> In x l.
Proof.
  unfold last_item. intros H. destruct (rev l) as [|y r] eqn:E; [discriminate|].
  injection H as ->. apply in_rev. rewrite E. left. reflexivity.
Qed.

Lemma last_item_nonempty {A : Type} (l : list A) : l <> [] -> exists x, last_item l = Some x.
Proof.
  unfold last_item. intros H. destruct (rev l) as [|y r] eqn:E.
  - exfalso. apply H. rewrite <- (rev_involutive l), E. reflexivity.
  - eexists; reflexivity.
Qed.

(** X2 ([display_plan], day buttons).  For every key of [daily_plans]
    the label of its button is computed without error, equals the number
    shown in the title of the schedule when that day is selected, and
    contains no ['_']; for a key without ['_'] it is the key itself, so the
    [replace('day_', '')] branch never changes anything. *)
Theorem day_label (day : pystr) :
  exists n, day_num day = Some n /\ schedule_num day = Some n /\ ~ In 95 n
            /\ (~ In 95 day -> n = day).
Proof.
  destruct (last_item_nonempty (py_split [95] day) (split_go_nil _ _ _)) as [n Hn].
  assert (Hp : ~ In 95 n).
  { apply last_item_in in Hn. unfold py_split in Hn.
    pose proof (split_go_pieces (S (List.length day)) day ltac:(lia)) as HF.
    rewrite Forall_forall in HF. exact (HF n Hn). }
  exists n. unfold day_num, schedule_num. rewrite Hn.
  destruct (existsb (Z.eqb 95) day) eqn:E.
  - split; [reflexivity|]. split; [reflexivity|]. split; [exact Hp|].
    intros Hd. apply existsb_exists in E as (x & Hx & Ex).
    apply Z.eqb_eq in Ex. subst x. contradiction.
  - assert (Hd : ~ In 95 day).
    { intros Hd. assert (existsb (Z.eqb 95) day = true) by
        (apply existsb_exists; exists 95; split; [exact Hd|apply Z.eqb_refl]). congruence. }
    unfold py_split in Hn. rewrite split_go_absent in Hn by exact Hd.
    cbv in Hn. injection Hn as <-.
    unfold py_replace. rewrite (replace_go_absent _ _ _ 95); [|cbv; tauto|exact Hd].
    repeat split; auto.
Qed.


Lemma ends_with_dot_app (s : pystr) : ends_with_dot (s ++ [46]) = true.
Proof. unfold ends_with_dot, last_item. rewrite rev_app_distr. reflexivity. Qed.

Lemma prep_go_dot (i : nat) (l : list pystr) :
  Forall (fun st => ends_with_dot (snd st) = true) (prep_go i l).
Proof.
  revert i. induction l as [|p r IH]; intros i; cbn [prep_go]; [constructor|].
  destruct p as [|c p]; [apply IH|]. constructor; [|apply IH]. cbn [snd].
  destruct (ends_with_dot (zstrip (c :: p))) eqn:E; [exact E|apply ends_with_dot_app].
Qed.

Lemma prep_go_gt (i : nat) (l : list pystr) :
  Forall (fun n => (i < n)%nat) (map fst (prep_go i l)).
Proof.
  revert i. induction l as [|p r IH]; intros i; cbn [prep_go]; [constructor|].
  destruct p as [|c p].
  - eapply Forall_impl; [|apply IH]. cbn beta. lia.
  - cbn [map fst]. constructor; [lia|]. eapply Forall_impl; [|apply IH]. cbn beta. lia.
Qed.

Lemma prep_go_sorted (i : nat) (l : list pystr) :
  StronglySorted lt (map fst (prep_go i l)).
Proof.
  revert i. induction l as [|p r IH]; intros i; cbn [prep_go]; [constructor|].
  destruct p as [|c p]; [apply IH|]. cbn [map fst]. constructor; [apply IH|].
  apply prep_go_gt.
Qed.

Lemma prep_go_seq (i : nat) (l : list pystr) :
  map fst (prep_go i l) = seq (S i) (List.length l) <-> Forall (fun p => p <> []) l.
Proof.
  revert i. induction l as [|p r IH]; intros i; cbn [prep_go List.length seq].
  - split; constructor.
  - destruct p as [|c p].
    + split; [|intros H; inversion H; congruence].
      intros E. pose proof (prep_go_gt (S i) r) as G. rewrite E in G.
      inversion G. lia.
    + cbn [map fst]. split.
      * intros E. injection E as E. constructor; [discriminate|]. now apply (IH (S i)).
      * intros H. inversion H; subst. f_equal. now apply IH.
Qed.

(** X3 ([display_plan], preparation steps).  Every step shown ends with a
    full stop; the step numbers strictly increase and lie between 1 and the
    number of pieces of [prep.split('. ')]; they are exactly [1, 2, ..., n]
    if and only if no piece is empty (an empty piece, e.g. from a leading
    [". "] or from [". . "], leaves a gap in the numbering). *)
Theorem prep_steps_numbering (prep : pystr) :
  Forall (fun st => ends_with_dot (snd st) = true) (prep_steps prep)
  /\ StronglySorted lt (map fst (prep_steps prep))
  /\ Forall (fun n => (1 <= n <= List.length (prep_pieces prep))%nat) (map fst (prep_steps prep))
  /\ (map fst (prep_steps prep) = seq 1 (List.length (prep_pieces prep))
      <-> Forall (fun p => p <> []) (prep_pieces prep)).
Proof.
  unfold prep_steps. split; [apply prep_go_dot|]. split; [apply prep_go_sorted|].
  split; [|apply prep_go_seq].
  generalize (prep_pieces prep). intros l.
  assert (G : forall i, Forall (fun n => (S i <= n <= i + List.length l)%nat) (map fst (prep_go i l))).
  { induction l as [|p r IH]; intros i; cbn [prep_go]; [constructor|].
    cbn [List.length]. destruct p as [|c p].
    - eapply Forall_impl; [|apply IH]. cbn beta. lia.
    - cbn [map fst]. constructor; [lia|]. eapply Forall_impl; [|apply IH]. cbn beta. lia. }
  apply G.
Qed.


Lemma join_with_comma (x y : text) (r : list text) :
  In ","%char (join_with (txt ", ") (x :: y :: r)).
Proof.
  change (join_with (txt ", ") (x :: y :: r)) with (x ++ txt ", " ++ join_with (txt ", ") (y :: r)).
  apply in_or_app. right. left. reflexivity.
Qed.

Lemma join_or_default_eq (d : text) (l : list text) :
  ~ In ","%char d -> (join_or_default d l = d <-> l = [] \/ l = [d]).
Proof.
  intros Hd. destruct l as [|x [|y r]]; cbn [join_or_default join_with].
  - split; [left; reflexivity|reflexivity].
  - split; [intros ->; right; reflexivity|intros [E|E]; congruence].
  - split; [|intros [E|E]; discriminate].
    intros E. exfalso. apply Hd. rewrite <- E. apply join_with_comma.
Qed.

(** X1 ([get_user_input]).  In the submitted dict, [dietary_preferences]
    and [dietary_requirements] are ["None"] exactly when nothing was
    selected or only the option ["None"] was; [preferred_cuisines] is
    ["Any"] exactly when nothing (or only a value ["Any"]) was selected;
    [restrictions] is ["None"] exactly when the text box was empty or held
    ["None"]; [secondary_goals] is always ["None"]. *)
Theorem get_user_input_defaults (f : form_values) (p : user_profile) :
  get_user_input true f = Some p ->
  (dietary_preferences p = txt "None"
     <-> f_dietary_preferences f = [] \/ f_dietary_preferences f = [txt "None"])
  /\ (dietary_requirements p = txt "None"
     <-> f_dietary_requirements f = [] \/ f_dietary_requirements f = [txt "None"])
  /\ (preferred_cuisines p = txt "Any"
     <-> f_preferred_cuisines f = [] \/ f_preferred_cuisines f = [txt "Any"])
  /\ (restrictions p = txt "None" <-> f_restrictions f = [] \/ f_restrictions f = txt "None")
  /\ secondary_goals p = txt "None".
Proof.
  unfold get_user_input. intros H. injection H as <-. cbn -[join_or_default txt].
  split; [apply join_or_default_eq; cbv; intuition discriminate|].
  split; [apply join_or_default_eq; cbv; intuition discriminate|].
  split; [apply join_or_default_eq; cbv; intuition discriminate|].
  split; [|reflexivity].
  destruct (f_restrictions f) as [|c t]; split; auto.
  - intros [E|E]; [discriminate|exact E].
Qed.


Lemma get_user_input_defaults_witness :
  exists p, get_user_input true sample_form = Some p
  /\ (dietary_preferences p = txt "None"
      <-> f_dietary_preferences sample_form = [] \/ f_dietary_preferences sample_form = [txt "None"]).
Proof.
  eexists. split; [reflexivity|].
  exact (proj1 (get_user_input_defaults sample_form _ eq_refl)).
Defined.

Lemma format_prompt_some (p : user_profile) (ts : text) : exists o, format_prompt p ts = Some o.
Proof.
  pose proof template_checks as Hc. unfold format_prompt.
  destruct create_prompt_template as [segs|]; [|discriminate].
  apply andb_true_iff in Hc as [Hk _].
  exact (render_total _ _ (profile_value_known p ts) Hk).
Qed.

(** X6 ([create_prompt_template().format_prompt( **user_data)]).  Formatting
    the prompt never fails: every field of the template is given by the
    profile or by the [timestamp] bound with [.partial]. *)
Theorem format_prompt_total (p : user_profile) (timestamp : text) :
  exists prompt, format_prompt p timestamp = Some prompt.
Proof. apply format_prompt_some. Qed.

Lemma extract_truthy_page (c : text) :
  truthy (fst (extract_and_parse_json c [])) = true -> snd (extract_and_parse_json c []) = [].
Proof.
  unfold extract_and_parse_json. destruct (extract_body c) as [v|[]]; cbn; congruence.
Qed.


(** X7 ([main]).  When the session already holds a truthy plan, nothing
    is generated: the session is unchanged, nothing is shown and the model
    is never called, whatever the form returned. *)
Theorem main_generate_keeps_plan (s : session) (u : option user_profile) (ts : text)
  (call : text -> reply) :
  truthy (nutrition_plan s) = true -> main_generate s u ts call = (s, []).
Proof. intros H. unfold main_generate. destruct u; [now rewrite H|reflexivity]. Qed.

Lemma main_generate_cases (s s' : session) (u : option user_profile) (ts : text)
  (call : text -> reply) (ev : list main_event) :
  main_generate s u ts call = (s', ev) ->
  s' = s \/
  exists p prompt c, u = Some p /\ truthy (nutrition_plan s) = false
    /\ format_prompt p ts = Some prompt /\ call prompt = Reply c
    /\ truthy (extracted c) = true /\ s' = sess_set s (txt "nutrition_plan") (extracted c).
Proof.
  unfold main_generate. intros H. destruct u as [p|]; [|left; cbv iota beta in H; congruence].
  destruct (truthy (nutrition_plan s)) eqn:Ep; [left; cbv iota beta in H; congruence|].
  destruct (format_prompt p ts) as [prompt|] eqn:Ef; [|left; cbv iota beta in H; congruence].
  destruct (call prompt) as [c|msg] eqn:Ec; [|left; cbv iota beta in H; congruence].
  unfold extracted. destruct (extract_and_parse_json c []) as [parsed page] eqn:Ex.
  cbv iota beta in H.
  destruct (truthy parsed) eqn:Et; [|left; congruence].
  right. exists p, prompt, c. rewrite Ex. cbn [fst]. repeat split; auto. congruence.
Qed.

(** X8 ([main]).  The generation step either leaves the session as it was
    or stores, under [nutrition_plan], the truthy value parsed from the
    model's reply to the formatted prompt; it does so only for a submitted
    form and a session whose plan was falsy. *)
Theorem main_generate_stores_parsed (s s' : session) (u : option user_profile) (ts : text)
  (call : text -> reply) (ev : list main_event) :
  main_generate s u ts call = (s', ev) ->
  s' = s \/
  exists p prompt c, u = Some p /\ truthy (nutrition_plan s) = false
    /\ format_prompt p ts = Some prompt /\ call prompt = Reply c
    /\ truthy (extracted c) = true /\ s' = sess_set s (txt "nutrition_plan") (extracted c).
Proof. apply main_generate_cases. Qed.

(** X9 ([main]).  When the client was created and calling the model
    ([client.invoke]) raises an exception, the session is unchanged and the
    page shows exactly the error [Error generating plan: <message>] and the
    hint about the Groq API key. *)
Theorem main_generate_call_fails (s : session) (p : user_profile) (ts msg : text)
  (call : text -> reply) :
  (forall x, call x = Failure msg) -> truthy (nutrition_plan s) = false ->
  main_generate s (Some p) ts call
  = (s, [MainError (txt "Error generating plan: " ++ msg);
         MainWrite (txt "Please try again or check your Groq API key")]).
Proof.
  intros Hc Hp. unfold main_generate. rewrite Hp.
  destruct (format_prompt_some p ts) as [o ->]. now rewrite Hc.
Qed.

(** X10 ([main]).  When the reply parses to a falsy value (a decode failure
    gives [None], but also a valid [{}], [[]], [0], [false] or [null]), no
    plan is stored and the page shows what [extract_and_parse_json] showed
    followed by [Failed to generate valid nutrition plan. Please try
    again.]. *)
Theorem main_generate_falsy_reply (s : session) (p : user_profile) (ts c : text)
  (call : text -> reply) :
  (forall x, call x = Reply c) -> truthy (nutrition_plan s) = false ->
  truthy (extracted c) = false ->
  main_generate s (Some p) ts call
  = (s, map ExtractEvent (snd (extract_and_parse_json c [])) ++ [MainError failed_msg]).
Proof.
  intros Hc Hp Ht. unfold main_generate. rewrite Hp.
  destruct (format_prompt_some p ts) as [o ->]. rewrite Hc.
  unfold extracted in Ht. destruct (extract_and_parse_json c []) as [parsed page].
  cbn [fst snd] in *. now rewrite Ht.
Qed.

(** X11 ([main]).  When the reply parses to a truthy value, it is stored as
    the session's [nutrition_plan] and nothing else is shown. *)
Theorem main_generate_truthy_reply (s : session) (p : user_profile) (ts c : text)
  (call : text -> reply) :
  (forall x, call x = Reply c) -> truthy (nutrition_plan s) = false ->
  truthy (extracted c) = true ->
  main_generate s (Some p) ts call = (sess_set s (txt "nutrition_plan") (extracted c), [])
  /\ nutrition_plan (sess_set s (txt "nutrition_plan") (extracted c)) = extracted c.
Proof.
  intros Hc Hp Ht. split.
  - unfold main_generate. rewrite Hp.
    destruct (format_prompt_some p ts) as [o ->]. rewrite Hc.
    pose proof (extract_truthy_page c Ht) as Hpg. unfold extracted in *.
    destruct (extract_and_parse_json c []) as [parsed page].
    cbn [fst snd] in *. rewrite Ht, Hpg. reflexivity.
  - unfold nutrition_plan. rewrite sess_get_set, text_eqb_refl. reflexivity.
Qed.

Lemma main_generate_other (s : session) (u : option user_profile) (ts : text)
  (call : text -> reply) (k : text) :
  k <> txt "nutrition_plan" -> sess_get (fst (main_generate s u ts call)) k = sess_get s k.
Proof.
  intros Hk. destruct (main_generate s u ts call) as [s' ev] eqn:E.
  apply main_generate_cases in E as [->|(p & prompt & c & _ & _ & _ & _ & _ & ->)];
    [reflexivity|].
  cbn [fst]. rewrite sess_get_set. destruct (text_eqb k _) eqn:Ek; [|reflexivity].
  apply text_eqb_true in Ek. contradiction.
Qed.

Lemma sess_set_idem (s : session) (k : text) (v : json) :
  sess_set (sess_set s k v) k v = sess_set s k v.
Proof.
  induction s as [|[k0 v0] r IH]; cbn [sess_set].
  - now rewrite text_eqb_refl.
  - destruct (text_eqb k k0) eqn:E; cbn [sess_set].
    + now rewrite text_eqb_refl.
    + now rewrite E, IH.
Qed.

Lemma day_buttons_none (days : list pystr) (sel : json) (s : session) :
  day_buttons None days sel s = (sel, s).
Proof. induction days; cbn [day_buttons]; auto. Qed.

Lemma day_buttons_some (v : pystr) (days : list pystr) (sel : json) (s : session) :
  day_buttons (Some v) days sel s =
  if in_dec (list_eq_dec Z.eq_dec) v days
  then (JStr v, sess_set s (txt "selected_day") (JStr v)) else (sel, s).
Proof.
  revert sel s. induction days as [|d r IH]; intros sel s; cbn [day_buttons]; [reflexivity|].
  destruct (list_eq_dec Z.eq_dec v d) as [<-|Hne].
  - rewrite IH, sess_set_idem.
    destruct (in_dec (list_eq_dec Z.eq_dec) v (v :: r)) as [_|Hn]; [|exfalso; apply Hn; now left].
    destruct (in_dec (list_eq_dec Z.eq_dec) v r); reflexivity.
  - rewrite IH. destruct (in_dec (list_eq_dec Z.eq_dec) v r) as [Hi|Hi];
    destruct (in_dec (list_eq_dec Z.eq_dec) v (d :: r)) as [Hj|Hj]; try reflexivity.
    + exfalso. apply Hj. now right.
    + exfalso. destruct Hj as [E|E]; [congruence|contradiction].
Qed.

Lemma dict_lookup_in (d : list (pystr * json)) (v : pystr) :
  In v (map fst d) -> exists x, dict_lookup d v = Some x.
Proof.
  induction d as [|[k x] r IH]; cbn [map fst In dict_lookup]; [intros []|].
  intros H. destruct (list_eq_dec Z.eq_dec v k) as [_|Hne]; [eauto|].
  apply IH. destruct H as [E|E]; [congruence|exact E].
Qed.

(** X12 ([main] then [display_plan]).  On a session that had no
    [selected_day], [main] sets it to [None], so when no day button is
    pressed the lookup [plan['daily_plans'][selected_day]] never succeeds:
    the default [days[0]] of [.get] is never used, and for a non-empty
    [daily_plans] dict the result is [KeyError(None)]. *)
Theorem select_day_fresh_session (s0 : session) (u : option user_profile) (ts : text)
  (call : text -> reply) (plan : json) :
  sess_get s0 (txt "selected_day") = None ->
  let s := fst (main_generate (main_init s0) u ts call) in
  (forall r, select_day plan s None <> POk r)
  /\ (forall d, getitem_str plan (zs (txt "daily_plans")) = POk (JObj d) -> d <> [] ->
       select_day plan s None = PRaise (KeyError JNull)).
Proof.
  intros H0 s.
  assert (Hs : sess_get s (txt "selected_day") = Some JNull).
  { unfold s. rewrite main_generate_other by (intros E; discriminate E).
    unfold main_init. rewrite fold_init_get, H0. reflexivity. }
  unfold select_day. split.
  - intros r. destruct (getitem_str plan _) as [dp|e] eqn:Eg; cbn [pbind]; [|discriminate].
    destruct (py_keys dp) as [days|e]; cbn [pbind]; [|discriminate].
    destruct (st_columns _); cbn [pbind]; [|discriminate].
    destruct days as [|d0 days]; cbn [pbind]; [discriminate|].
    rewrite Hs, day_buttons_none. cbn [pbind].
    destruct dp; discriminate.
  - intros d Hd Hn. rewrite Hd. cbn [pbind py_keys].
    destruct d as [|[k v] d]; [contradiction|]. cbn [map fst List.length st_columns pbind].
    rewrite Hs, day_buttons_none; try rewrite Hd. reflexivity.
Qed.

(** X13 ([display_plan]).  Without a click, a day remembered in the
    session is shown when it is a key of [daily_plans], and raises
    [KeyError] with that day otherwise (e.g. a day of an earlier plan
    after ["Generate New Plan"]).  An empty [daily_plans] dict raises
    [StreamlitAPIException] from [st.columns(0)] before any lookup. *)
Theorem select_day_remembered (s : session) (plan : json) (v : pystr) (d : list (pystr * json)) :
  sess_get s (txt "selected_day") = Some (JStr v) ->
  getitem_str plan (zs (txt "daily_plans")) = POk (JObj d) ->
  select_day plan s None = match d with
                           | [] => PRaise StreamlitAPIException
                           | _ => match dict_lookup d v with
                                  | Some x => POk (JStr v, s, x)
                                  | None => PRaise (KeyError (JStr v))
                                  end
                           end.
Proof.
  intros Hs Hd. unfold select_day. rewrite Hd. cbn [pbind py_keys].
  destruct d as [|[k x] d]; [reflexivity|]. cbn [map fst List.length st_columns pbind].
  rewrite Hs, day_buttons_none; try rewrite Hd. cbn [pbind dict_getitem].
  destruct (dict_lookup _ v); reflexivity.
Qed.

(** X14 ([display_plan]).  A click on the button of a day of
    [daily_plans] selects that day, whatever the session held, records it
    in [st.session_state.selected_day] and shows that day's plan. *)
Theorem select_day_click (s : session) (plan : json) (v : pystr) (d : list (pystr * json)) :
  getitem_str plan (zs (txt "daily_plans")) = POk (JObj d) -> In v (map fst d) ->
  exists x, dict_lookup d v = Some x
    /\ select_day plan s (Some v) = POk (JStr v, sess_set s (txt "selected_day") (JStr v), x).
Proof.
  intros Hd Hv. destruct (dict_lookup_in d v Hv) as [x Hx]. exists x. split; [exact Hx|].
  unfold select_day. rewrite Hd. cbn [pbind py_keys].
  destruct d as [|[k y] d]; [destruct Hv|]. cbn [map fst List.length st_columns pbind].
  rewrite day_buttons_some.
  destruct (in_dec (list_eq_dec Z.eq_dec) v (k :: map fst d)) as [_|Hn]; [|contradiction].
  try rewrite Hd. cbn [pbind dict_getitem]. rewrite Hx. reflexivity.
Qed.

(** X15 ([display_plan]).  An empty [daily_plans] dict makes [st.columns(0)]
    raise, before [days[0]] is evaluated. *)
Theorem select_day_no_days (s : session) (plan : json) (c : option pystr) :
  getitem_str plan (zs (txt "daily_plans")) = POk (JObj []) ->
  select_day plan s c = PRaise StreamlitAPIException.
Proof. intros Hd. unfold select_day. rewrite Hd. reflexivity. Qed.

(** X16 ([init_groq_client] in [main]).  When the client cannot be
    created, the page shows only the error of [init_groq_client], the run
    stops and the session is unchanged: the error is never [Error
    generating plan: ...].  Without a [GROQ_API_KEY] (unset or empty) that
    error is the cross mark U+274C followed by [ GROQ_API_KEY not found in
    .env file]. *)
Theorem main_init_failure_stops (s : session) (p : user_profile) (ts : text)
  (key construct : option text) (call : text -> reply) (shown : text) :
  truthy (nutrition_plan s) = false -> init_groq_client key construct = GroqStop shown ->
  main_generate_step s (Some p) ts key construct call = (s, [MainError shown], true)
  /\ (forall m, shown <> txt "Error generating plan: " ++ m)
  /\ (key = None \/ key = Some [] -> shown = cross_mark ++ txt " GROQ_API_KEY not found in .env file").
Proof.
  intros Hp Hi. split; [unfold main_generate_step; now rewrite Hp, Hi|]. split.
  - intros m E. unfold init_groq_client in Hi.
    destruct key as [[|c k]|]; [| destruct construct as [e|]; [|discriminate] |];
      injection Hi as <-; discriminate E.
  - intros [-> | ->]; cbn [init_groq_client] in Hi; now injection Hi as <-.
Qed.

Lemma main_generate_keeps_plan_witness :
  truthy (nutrition_plan (sess_set (main_init []) (txt "nutrition_plan") scenario_plan)) = true
  /\ main_generate (sess_set (main_init []) (txt "nutrition_plan") scenario_plan)
       (Some sample_profile) sample_timestamp (fun _ => Reply sample_reply)
     = (sess_set (main_init []) (txt "nutrition_plan") scenario_plan, []).
Proof.
  split; [vm_compute; reflexivity|]. apply main_generate_keeps_plan. vm_compute. reflexivity.
Defined.

Lemma main_generate_stores_parsed_witness :
  let r := main_generate (main_init []) (Some sample_profile) sample_timestamp
             (fun _ => Reply sample_reply) in
  fst r = main_init []
  \/ exists p prompt c, Some sample_profile = Some p /\ truthy (nutrition_plan (main_init [])) = false
    /\ format_prompt p sample_timestamp = Some prompt /\ Reply sample_reply = Reply c
    /\ truthy (extracted c) = true
    /\ fst r = sess_set (main_init []) (txt "nutrition_plan") (extracted c).
Proof.
  intros r. apply (main_generate_stores_parsed (main_init []) (fst r) (Some sample_profile)
                     sample_timestamp (fun _ => Reply sample_reply) (snd r)).
  apply surjective_pairing.
Defined.

Lemma main_generate_call_fails_witness :
  main_generate (main_init []) (Some sample_profile) sample_timestamp
    (fun _ => Failure (txt "Invalid API Key"))
  = (main_init [], [MainError (txt "Error generating plan: " ++ txt "Invalid API Key");
                    MainWrite (txt "Please try again or check your Groq API key")]).
Proof. apply main_generate_call_fails; [reflexivity|vm_compute; reflexivity]. Defined.

Lemma main_generate_falsy_reply_witness :
  snd (extract_and_parse_json (txt "{}") []) = []
  /\ main_generate (main_init []) (Some sample_profile) sample_timestamp (fun _ => Reply (txt "{}"))
     = (main_init [], map ExtractEvent (snd (extract_and_parse_json (txt "{}") []))
                      ++ [MainError failed_msg]).
Proof.
  split; [vm_compute; reflexivity|].
  apply main_generate_falsy_reply; [reflexivity|vm_compute; reflexivity|vm_compute; reflexivity].
Defined.

Lemma main_generate_truthy_reply_witness :
  main_generate (main_init []) (Some sample_profile) sample_timestamp (fun _ => Reply sample_reply)
  = (sess_set (main_init []) (txt "nutrition_plan") (extracted sample_reply), [])
  /\ nutrition_plan (sess_set (main_init []) (txt "nutrition_plan") (extracted sample_reply))
     = extracted sample_reply.
Proof.
  apply main_generate_truthy_reply; [reflexivity|vm_compute; reflexivity|vm_compute; reflexivity].
Defined.

Lemma select_day_fresh_session_witness :
  let s := fst (main_generate (main_init []) (Some sample_profile) sample_timestamp
                  (fun _ => Reply sample_reply)) in
  select_day (nutrition_plan s) s None = PRaise (KeyError JNull).
Proof.
  intros s.
  destruct (select_day_fresh_session [] (Some sample_profile) sample_timestamp
              (fun _ => Reply sample_reply) (nutrition_plan s) eq_refl) as [_ H].
  apply (H [(zs (txt "day_1"), JObj [(zs (txt "meals"), JObj [])]);
            (zs (txt "day_2"), JObj [(zs (txt "meals"), JObj [])])]);
    [vm_compute; reflexivity|discriminate].
Defined.

Lemma select_day_remembered_witness :
  select_day (extracted sample_reply)
    (sess_set (main_init []) (txt "selected_day") (JStr (zs (txt "day_3")))) None
  = PRaise (KeyError (JStr (zs (txt "day_3")))).
Proof.
  rewrite (select_day_remembered _ _ (zs (txt "day_3"))
             [(zs (txt "day_1"), JObj [(zs (txt "meals"), JObj [])]);
              (zs (txt "day_2"), JObj [(zs (txt "meals"), JObj [])])]);
    [vm_compute; reflexivity|vm_compute; reflexivity|vm_compute; reflexivity].
Defined.

Lemma select_day_click_witness :
  exists x, dict_lookup [(zs (txt "day_1"), JObj [(zs (txt "meals"), JObj [])]);
                         (zs (txt "day_2"), JObj [(zs (txt "meals"), JObj [])])] (zs (txt "day_2")) = Some x
    /\ select_day (extracted sample_reply) (main_init []) (Some (zs (txt "day_2")))
       = POk (JStr (zs (txt "day_2")), sess_set (main_init []) (txt "selected_day") (JStr (zs (txt "day_2"))), x).
Proof.
  apply select_day_click; [vm_compute; reflexivity|right; left; reflexivity].
Defined.

Lemma select_day_no_days_witness :
  select_day (JObj [(zs (txt "daily_plans"), JObj [])]) (main_init []) None
  = PRaise StreamlitAPIException.
Proof. apply select_day_no_days. vm_compute. reflexivity. Defined.

Lemma main_init_failure_stops_witness :
  main_generate_step (main_init []) (Some sample_profile) sample_timestamp None None
    (fun _ => Reply sample_reply)
  = (main_init [], [MainError (cross_mark ++ txt " GROQ_API_KEY not found in .env file")], true).
Proof.
  apply (main_init_failure_stops (main_init []) sample_profile sample_timestamp None None
           (fun _ => Reply sample_reply) (cross_mark ++ txt " GROQ_API_KEY not found in .env file"));
    [vm_compute; reflexivity|reflexivity].
Defined.
